(** * HEB product scraper: a shallow embedding of [app.py]

    The development follows the Python source.

    - A Python [str] is a Rocq [string], one [ascii] per character: the
      model covers ASCII text.  [None]-or-string values are [option string],
      with Python's truth value ([None] and the empty string are false).
    - The sets [seen_urls], [existing_urls], [existing_titles] and
      [seen_element_ids] are stdpp [gset]s.
    - An exception is an explicit result ([exc]); code that drives the
      browser runs in a state-and-exception monad ([M]) whose state is kept
      when an exception is raised.
    - The browser is an interface the scraper code is generic in.  An element
      ([WebElement]) is read as a snapshot: a query may raise, and the same
      query on the same handle gives the same answer.  The driver ([Session])
      may change the page at every call, and every call returns.
    - The [while] loop of [scroll_page] runs on fuel; that it needs no more
      than [max_scrolls + 1] tests of its condition is proved.
    - Floating-point durations are rationals; [time.sleep] raises on a
      negative one.

    The first part gives the definitions, in the order of their use; the
    properties follow. *)

From Stdlib Require Import ZArith QArith Qround Ascii Lia.
From stdpp Require Import base gmap strings list.

Local Open Scope Z_scope.

(** ** Python values *)

Module Py.

(** Exceptions the code raises or receives from Selenium. *)
Inductive exn :=
| NoSuchElementException
| TimeoutException
| WebDriverException (msg : string)
| UnboundLocalError (name : string)
| TypeError
| ValueError.

Inductive exc (A : Type) :=
| Ok (a : A)
| Raise (e : exn).
Arguments Ok {A} a.
Arguments Raise {A} e.

Definition bind {A B} (m : exc A) (f : A → exc B) : exc B :=
  match m with Ok a => f a | Raise e => Raise e end.

(** [try: m  except: h] *)
Definition try_except {A} (m : exc A) (h : A) : A :=
  match m with Ok a => a | Raise _ => h end.

(** Reading a local variable that has no binding yet. *)
Definition load_local {A} (name : string) (v : option A) : exc A :=
  match v with Some a => Ok a | None => Raise (UnboundLocalError name) end.

(** Truth value of a [str] and of a [None]-or-[str]. *)
Definition str_truthy (s : string) : bool :=
  match s with EmptyString => false | String _ _ => true end.

Definition truthy (o : option string) : bool :=
  match o with Some s => str_truthy s | None => false end.

(** [x or ''] *)
Definition or_empty (o : option string) : string :=
  match o with Some (String c s) => String c s | _ => EmptyString end.

(** [a or b] on [None]-or-[str] values. *)
Definition or_else (a b : option string) : option string :=
  if truthy a then a else b.

Definition len (s : string) : Z := Z.of_nat (String.length s).

Definition is_space (c : ascii) : bool :=
  let n := nat_of_ascii c in
  ((9 <=? n) && (n <=? 13) || (28 <=? n) && (n <=? 32))%nat.

Definition is_digit (c : ascii) : bool :=
  let n := nat_of_ascii c in ((48 <=? n) && (n <=? 57))%nat.

Definition lower_char (c : ascii) : ascii :=
  let n := nat_of_ascii c in
  if ((65 <=? n) && (n <=? 90))%nat then ascii_of_nat (n + 32) else c.

(** [s.lower()] *)
Fixpoint lower (s : string) : string :=
  match s with
  | EmptyString => EmptyString
  | String c s' => String (lower_char c) (lower s')
  end.

(** [s.startswith(p)] *)
Fixpoint startswith (s p : string) {struct p} : bool :=
  match p with
  | EmptyString => true
  | String c p' =>
      match s with
      | EmptyString => false
      | String d s' => Ascii.eqb c d && startswith s' p'
      end
  end.

(** [p in s] *)
Fixpoint contains (p s : string) : bool :=
  startswith s p ||
  match s with
  | EmptyString => false
  | String _ s' => contains p s'
  end.

Fixpoint lstrip (s : string) : string :=
  match s with
  | EmptyString => EmptyString
  | String c s' => if is_space c then lstrip s' else s
  end.

Fixpoint rstrip (s : string) : string :=
  match s with
  | EmptyString => EmptyString
  | String c s' =>
      match rstrip s' with
      | EmptyString => if is_space c then EmptyString else String c EmptyString
      | r => String c r
      end
  end.

(** [s.strip()] *)
Definition strip (s : string) : string := rstrip (lstrip s).

(** [s.split(sep)] for a one-character separator. *)
Fixpoint split (sep : ascii) (s : string) : list string :=
  match s with
  | EmptyString => [EmptyString]
  | String c s' =>
      if Ascii.eqb c sep then EmptyString :: split sep s'
      else match split sep s' with
           | w :: ws => String c w :: ws
           | [] => [String c EmptyString]
           end
  end.

(** [s.split()]: maximal runs of non-whitespace characters. *)
Fixpoint split_ws_go (cur : option string) (s : string) : list string :=
  match s with
  | EmptyString => match cur with Some w => [String.rev w] | None => [] end
  | String c s' =>
      if is_space c
      then match cur with
           | Some w => String.rev w :: split_ws_go None s'
           | None => split_ws_go None s'
           end
      else split_ws_go (Some (String c (default EmptyString cur))) s'
  end.

Definition split_ws (s : string) : list string := split_ws_go None s.

(** [s[:n]] for [n >= 0]. *)
Fixpoint slice_to (n : nat) (s : string) : string :=
  match n, s with
  | S n', String c s' => String c (slice_to n' s')
  | _, _ => EmptyString
  end.

(** [l[:n]] on a list, with Python's reading of a negative bound. *)
Definition list_slice_to {A} (n : Z) (l : list A) : list A :=
  if 0 <=? n then take (Z.to_nat n) l
  else take (Z.to_nat (Z.of_nat (length l) + n)) l.

(** [any(k in s for k in ks)] *)
Definition contains_any (ks : list string) (s : string) : bool :=
  existsb (λ k, contains k s) ks.

End Py.

Export Py.

(** [exc] with stdpp's monad notation: [x ← m; k] stops at the first
    exception. *)
Global Instance exc_ret : MRet exc := λ A a, Ok a.
Global Instance exc_bind : MBind exc := λ A B f m, Py.bind m f.
Global Instance exc_fmap : FMap exc := λ A B f m,
  match m with Ok a => Ok (f a) | Raise e => Raise e end.

(** Code that drives the browser threads a state [S] and may raise: the state
    reached when the exception is raised is kept, as the side effects of a
    Python statement are. *)
Definition M (S A : Type) : Type := S → exc A * S.

Global Instance M_ret {S} : MRet (M S) := λ A a s, (Ok a, s).
Global Instance M_bind {S} : MBind (M S) := λ A B f m s,
  match m s with
  | (Ok a, s') => f a s'
  | (Raise e, s') => (Raise e, s')
  end.

Global Instance M_fmap {S} : FMap (M S) := λ A B f m s,
  match m s with
  | (Ok a, s') => (Ok (f a), s')
  | (Raise e, s') => (Raise e, s')
  end.

(** [try: m  except: h] in [M]. *)
Definition try_M {S A} (m : M S A) (h : M S A) : M S A := λ s,
  match m s with
  | (Ok a, s') => (Ok a, s')
  | (Raise _, s') => h s'
  end.

Definition raise_M {S A} (e : exn) : M S A := λ s, (Raise e, s).
Definition lift_exc {S A} (m : exc A) : M S A := λ s, (m, s).
Definition get_M {S} : M S S := λ s, (Ok s, s).
Definition modify_M {S} (f : S → S) : M S unit := λ s, (Ok tt, f s).

(** ** Regular expressions

    The patterns of [app.py] are sequences of quantified character classes
    with at most one capture group and the anchors [^] and [$].  The matcher
    is a backtracking one, as Python's: a quantifier first takes as many
    characters as it can and gives them back one at a time when the rest of
    the pattern fails. *)

Module Re.

Inductive quant := One | Opt | Star | Plus.

Inductive item :=
| Cls (c : ascii → bool) (q : quant)
| Bol
| Eol.

Definition pattern := list item.

(** [before ( group ) after]; a pattern without a group has it all in
    [before]. *)
Record regex := Regex {
  before : pattern;
  group : pattern;
  after : pattern
}.

(** [$] without MULTILINE: at the end, or before a final newline. *)
Definition at_end (s : string) : bool :=
  match s with
  | EmptyString => true
  | String c EmptyString => Ascii.eqb c "010"
  | _ => false
  end.

Section Matcher.
Context {R : Type}.

(** Greedy repetition of a class, longest first. *)
Fixpoint greedy (c : ascii → bool) (pos : nat) (s : string)
    (k : nat → string → option R) : option R :=
  match s with
  | String a s' =>
      if c a then
        match greedy c (S pos) s' k with
        | Some r => Some r
        | None => k pos s
        end
      else k pos s
  | EmptyString => k pos s
  end.

Fixpoint run (p : pattern) (pos : nat) (s : string)
    (k : nat → string → option R) : option R :=
  match p with
  | [] => k pos s
  | Cls c One :: p' =>
      match s with
      | String a s' => if c a then run p' (S pos) s' k else None
      | EmptyString => None
      end
  | Cls c Opt :: p' =>
      match s with
      | String a s' =>
          if c a then
            match run p' (S pos) s' k with
            | Some r => Some r
            | None => run p' pos s k
            end
          else run p' pos s k
      | EmptyString => run p' pos s k
      end
  | Cls c Star :: p' => greedy c pos s (λ pos' s', run p' pos' s' k)
  | Cls c Plus :: p' =>
      match s with
      | String a s' =>
          if c a then greedy c (S pos) s' (λ pos' s', run p' pos' s' k)
          else None
      | EmptyString => None
      end
  | Bol :: p' => if (pos =? 0)%nat then run p' pos s k else None
  | Eol :: p' => if at_end s then run p' pos s k else None
  end.
End Matcher.

(** A match object: [m.group()] and [m.group(1)]. *)
Record Match := mkMatch {
  group0 : string;
  group1 : string
}.

(** The first [length s - length rest] characters of [s]. *)
Definition consumed (s rest : string) : string :=
  slice_to (String.length s - String.length rest) s.

(** One attempt at offset [pos], where [s] is the text from [pos] on. *)
Definition match_at (r : regex) (pos : nat) (s : string) : option Match :=
  run (before r) pos s (λ p1 s1,
    run (group r) p1 s1 (λ p2 s2,
      run (after r) p2 s2 (λ _ s3,
        Some (mkMatch (consumed s s3) (consumed s1 s2))))).

(** [re.match(r, s)] *)
Definition re_match (r : regex) (s : string) : option Match := match_at r 0 s.

Fixpoint search_from (r : regex) (pos : nat) (s : string) : option Match :=
  match match_at r pos s with
  | Some m => Some m
  | None =>
      match s with
      | String _ s' => search_from r (S pos) s'
      | EmptyString => None
      end
  end.

(** [re.search(r, s)] *)
Definition re_search (r : regex) (s : string) : option Match := search_from r 0 s.

Definition chr (a : ascii) : item := Cls (Ascii.eqb a) One.

(** A literal string, one [chr] per character. *)
Fixpoint lit (s : string) : pattern :=
  match s with
  | EmptyString => []
  | String a s' => chr a :: lit s'
  end.

Definition digit_or_comma (a : ascii) : bool := is_digit a || Ascii.eqb a ",".
Definition quote (a : ascii) : bool := Ascii.eqb a "034" || Ascii.eqb a "039".
Definition not_quote (a : ascii) : bool := negb (quote a).

Definition plain (p : pattern) : regex := Regex p [] [].

End Re.

(** ** The browser interface

    Selenium's [WebElement], as far as the scraper uses it.  An element is
    read as a snapshot: the same query on the same handle gives the same
    answer, and any query may raise.  [py_id] is Python's [id(elem)]. *)

Inductive By := CSS_SELECTOR | TAG_NAME | XPATH.

Class WebElement (E : Type) := {
  py_id : E → nat;
  tag_name : E → exc string;
  text : E → exc string;
  get_attribute : E → string → exc (option string);
  find_elements : E → By → string → exc (list E);
  size : E → exc (Z * Z);
  is_displayed : E → exc bool
}.

(** [find_element] is the first match of [find_elements], or raises. *)
Definition find_element `{WebElement E} (e : E) (by_ : By) (value : string) : exc E :=
  l ← find_elements e by_ value;
  match l with
  | x :: _ => Ok x
  | [] => Raise NoSuchElementException
  end.

(** ** Product records *)

Record Product := mkProduct {
  product_title : option string;
  product_price : option string;
  product_image : option string;
  product_hyperlink : option string
}.

Definition set_title (v : option string) (p : Product) : Product :=
  mkProduct v (product_price p) (product_image p) (product_hyperlink p).
Definition set_price (v : option string) (p : Product) : Product :=
  mkProduct (product_title p) v (product_image p) (product_hyperlink p).
Definition set_image (v : option string) (p : Product) : Product :=
  mkProduct (product_title p) (product_price p) v (product_hyperlink p).
Definition set_hyperlink (v : option string) (p : Product) : Product :=
  mkProduct (product_title p) (product_price p) (product_image p) v.

(** [x = v] when the strategy found [Some v], [x] unchanged otherwise. *)
Definition assign_found {A} (found : option A) (old : option A) : option A :=
  match found with Some v => Some v | None => old end.

(** ** The patterns of [extract_product_data] and [extract_products] *)

Module Patterns.
Import Re.

(** [\$[\d,]+\.?\d*] *)
Definition price_body : pattern :=
  [chr "$"; Cls digit_or_comma Plus; Cls (Ascii.eqb ".") Opt; Cls is_digit Star].
Definition price : regex := plain price_body.
(** [^\$[\d,]+\.?\d*$] *)
Definition price_only : regex := plain (Bol :: price_body ++ [Eol]).
(** [^\$[\d,]+\.?\d*] *)
Definition price_prefix : regex := plain (Bol :: price_body).
(** [\$\s*[\d,]+\.?\d*] *)
Definition price_spaced : regex :=
  plain [chr "$"; Cls is_space Star; Cls digit_or_comma Plus;
         Cls (Ascii.eqb ".") Opt; Cls is_digit Star].
(** [[\d,]+\.?\d*\s*\$] *)
Definition price_reversed : regex :=
  plain [Cls digit_or_comma Plus; Cls (Ascii.eqb ".") Opt; Cls is_digit Star;
         Cls is_space Star; chr "$"].
(** A quote, then the group: non-quotes, [heb\.com], non-quotes; then a
    quote.  Both quote characters count as quotes. *)
Definition onclick_href : regex :=
  Regex [Cls quote One]
        (Cls not_quote Star :: lit "heb.com" ++ [Cls not_quote Star])
        [Cls quote One].
(** [url\(], an optional quote, the group: one or more non-quotes; then an
    optional quote and [\)]. *)
Definition background_url : regex :=
  Regex (lit "url(" ++ [Cls quote Opt])
        [Cls not_quote Plus]
        [Cls quote Opt; chr ")"].
End Patterns.

Definition matches (r : Re.regex) (s : string) : bool :=
  bool_decide (is_Some (Re.re_match r s)).

Definition searches (r : Re.regex) (s : string) : bool :=
  bool_decide (is_Some (Re.re_search r s)).

(** ** [HEBScraper.extract_product_data] *)

Definition base_url : string := "https://heb.com".

(** ['/category/' in href or '/department/' in href or '/shop/' in href] *)
Definition is_category_href (href : string) : bool :=
  contains "/category/" href || contains "/department/" href || contains "/shop/" href.

(** [if not href.startswith('http'): href = base_url + href if
    href.startswith('/') else base_url + '/' + href] *)
Definition absolute (href : string) : string :=
  if startswith href "http" then href
  else if startswith href "/" then base_url +:+ href
  else base_url +:+ "/" +:+ href.

(** [href and href.strip()] *)
Definition nonblank (href : option string) : bool :=
  match href with
  | Some h => str_truthy h && str_truthy (strip h)
  | None => false
  end.

Section FieldExtractor.
Context `{WebElement E}.

(** *** Hyperlink, lines 1186-1232 *)

(** Lines 1190-1194 and 1202-1206: normalise, then require the site. *)
Definition site_href (href : option string) : option string :=
  match href with
  | Some h =>
      if nonblank href then
        let h' := absolute h in
        if contains "heb.com" h' then Some h' else None
      else None
  | None => None
  end.

(** Strategy 1, lines 1188-1194; outside any inner [try]. *)
Definition link_of_self (element : E) : exc (option string) :=
  tn ← tag_name element;
  if String.eqb (lower tn) "a" then
    href ← get_attribute element "href";
    mret (site_href href)
  else mret None.

(** Strategy 2, lines 1199-1208. *)
Definition link_of_first_child (element : E) : option string :=
  try_except
    (link_elem ← find_element element TAG_NAME "a";
     href ← get_attribute link_elem "href";
     mret (site_href href))
    None.

(** Strategy 3, lines 1212-1222: the site test comes before the
    normalisation here. *)
Fixpoint first_site_link (links : list E) : exc (option string) :=
  match links with
  | [] => Ok None
  | link :: rest =>
      href ← get_attribute link "href";
      match href with
      | Some h =>
          if nonblank href && contains "heb.com" h then Ok (Some (absolute h))
          else first_site_link rest
      | None => first_site_link rest
      end
  end.

Definition link_of_any_child (element : E) : option string :=
  try_except
    (links ← find_elements element TAG_NAME "a"; first_site_link links)
    None.

(** Strategy 4, lines 1226-1232. *)
Definition link_of_onclick (element : E) : option string :=
  try_except
    (a ← get_attribute element "onclick";
     let onclick := or_empty a in
     mret (Re.group1 <$> Re.re_search Patterns.onclick_href onclick))
    None.

(** Lines 1183-1184, the previews kept for debugging; they run outside any
    inner [try]. *)
Definition debug_preview (element : E) (index : Z) : exc unit :=
  _ ← (if index <? 3 then
         html ← get_attribute element "outerHTML";
         match html with
         | Some h => Ok (slice_to 200 h)
         | None => Raise TypeError
         end
       else Ok EmptyString);
  _ ← (if index <? 3 then t ← text element; Ok (slice_to 100 (strip t))
       else Ok EmptyString);
  mret ().

(** [if not product[field]: product[field] = strategy], where the strategy
    leaves the field alone when it finds nothing. *)
Definition unless_set (get : Product → option string)
    (set : option string → Product → Product)
    (strategy : option string) : M Product unit :=
  modify_M (λ product,
    if truthy (get product) then product
    else set (assign_found strategy (get product)) product).

Definition extract_hyperlink (element : E) (index : Z) : M Product unit :=
  _ ← lift_exc (debug_preview element index);
  h1 ← lift_exc (link_of_self element);
  _ ← modify_M (λ product,
        set_hyperlink (assign_found h1 (product_hyperlink product)) product);
  _ ← unless_set product_hyperlink set_hyperlink (link_of_first_child element);
  _ ← unless_set product_hyperlink set_hyperlink (link_of_any_child element);
  unless_set product_hyperlink set_hyperlink (link_of_onclick element).

(** *** Title, lines 1234-1330 *)

Definition title_selectors : list string :=
  ["h1"; "h2"; "h3"; "h4"; "h5"; "h6";
   "[data-testid*='title' i]"; "[data-testid*='name' i]";
   "[data-testid*='Title' i]"; "[data-testid*='Name' i]";
   "[aria-label]"; ".product-title"; ".product-name";
   "[class*='title' i]"; "[class*='name' i]";
   "[class*='Title' i]"; "[class*='Name' i]";
   "span[class*='title' i]"; "span[class*='name' i]";
   "div[class*='title' i]"; "div[class*='name' i]";
   "a[class*='title' i]"; "a[class*='name' i]";
   "p[class*='title' i]"; "p[class*='name' i]";
   "*[class*='heading' i]"; "*[class*='label' i]"].

(** [5 <= len(t) <= 200] *)
Definition title_length_ok (t : string) : bool :=
  (5 <=? len t) && (len t <=? 200).

(** Lines 1267-1275, the test of strategy 1. *)
Definition title_ok (title : string) : bool :=
  str_truthy title && title_length_ok title &&
  negb (matches Patterns.price_only title) &&
  negb (contains "price" (lower title)) &&
  negb (contains "add to cart" (lower title)) &&
  negb (contains "buy now" (lower title)) &&
  negb (contains "view" (lower title)) &&
  negb (contains "shop" (lower title)) &&
  negb (contains "category" (lower title)).

(** Lines 1265-1277. *)
Fixpoint first_title (title_elems : list E) : exc (option string) :=
  match title_elems with
  | [] => Ok None
  | title_elem :: rest =>
      t ← text title_elem;
      let title := strip t in
      if title_ok title then Ok (Some (slice_to 150 title))
      else first_title rest
  end.

(** Strategy 1, lines 1262-1281: a selector that raises, or finds no valid
    title, gives way to the next one. *)
Fixpoint title_of_selectors (element : E) (selectors : list string)
    : option string :=
  match selectors with
  | [] => None
  | selector :: rest =>
      match (title_elems ← find_elements element CSS_SELECTOR selector;
             first_title title_elems) with
      | Ok (Some t) => Some t
      | _ => title_of_selectors element rest
      end
  end.

(** Lines 1291-1299, the test of strategy 2. *)
Definition line_ok (line : string) : bool :=
  title_length_ok line &&
  negb (matches Patterns.price_prefix line) &&
  negb (contains "price" (lower line)) &&
  negb (contains "add to cart" (lower line)) &&
  negb (contains "buy now" (lower line)) &&
  negb (contains "view details" (lower line)) &&
  negb (contains "shop now" (lower line)) &&
  negb (contains "learn more" (lower line)) &&
  (2 <=? Z.of_nat (length (split_ws line))).

(** [[line.strip() for line in all_text.split('\n') if line.strip()]] *)
Definition text_lines (all_text : string) : list string :=
  strip <$> filter (λ line, str_truthy (strip line) = true) (split "010" all_text).

(** Lines 1289-1301. *)
Fixpoint first_line (lines : list string) : option string :=
  match lines with
  | [] => None
  | line :: rest =>
      if line_ok line then Some (slice_to 150 line) else first_line rest
  end.

(** Strategy 2, lines 1284-1303. *)
Definition title_of_text (element : E) : option string :=
  try_except
    (t ← text element;
     let all_text := strip t in
     mret (if str_truthy all_text then first_line (text_lines all_text) else None))
    None.

(** Strategy 2b, lines 1307-1312 (the body of the [if]). *)
Definition title_of_link_text (element : E) : option string :=
  try_except
    (t ← text element;
     let link_text := strip t in
     mret (if str_truthy link_text && title_length_ok link_text &&
              negb (matches Patterns.price_only link_text)
           then Some (slice_to 150 link_text) else None))
    None.

(** Strategies 3 and 4, lines 1315-1330. *)
Definition title_of_attribute (element : E) (name : string) : option string :=
  try_except
    (a ← get_attribute element name;
     mret (match a with
           | Some v => if str_truthy v && title_length_ok v
                       then Some (slice_to 150 v) else None
           | None => None
           end))
    None.

Definition extract_title (element : E) : M Product unit :=
  _ ← modify_M (λ product,
        set_title (assign_found (title_of_selectors element title_selectors)
                     (product_title product)) product);
  _ ← unless_set product_title set_title (title_of_text element);
  (* line 1306: [element.tag_name] is read, outside any inner [try], only
     when no title has been found so far *)
  product ← get_M;
  is_link ← lift_exc (if truthy (product_title product) then Ok false
                      else tn ← tag_name element; Ok (String.eqb (lower tn) "a"));
  _ ← (if is_link : bool
       then modify_M (λ product,
              set_title (assign_found (title_of_link_text element)
                           (product_title product)) product)
       else mret ());
  _ ← unless_set product_title set_title (title_of_attribute element "aria-label");
  unless_set product_title set_title (title_of_attribute element "title").

(** *** Price, lines 1332-1408 *)

Definition price_selectors : list string :=
  ["[data-testid*='price' i]"; "[data-testid*='Price' i]"; ".price";
   "[class*='price' i]"; "[class*='Price' i]";
   "span[class*='price' i]"; "div[class*='price' i]"; "p[class*='price' i]";
   "[aria-label*='price' i]"; "[class*='cost' i]"; "[class*='amount' i]";
   "[class*='value' i]"].

(** Lines 1352-1359 and 1400-1406: the first element whose stripped text
    holds a price. *)
Fixpoint first_price (price_elems : list E) : exc (option string) :=
  match price_elems with
  | [] => Ok None
  | price_elem :: rest =>
      t ← text price_elem;
      let price_text := strip t in
      if str_truthy price_text then
        match Re.re_search Patterns.price price_text with
        | Some price_match => Ok (Some (Re.group0 price_match))
        | None => first_price rest
        end
      else first_price rest
  end.

(** Strategy 1, lines 1349-1363. *)
Fixpoint price_of_selectors (element : E) (selectors : list string)
    : option string :=
  match selectors with
  | [] => None
  | selector :: rest =>
      match (price_elems ← find_elements element CSS_SELECTOR selector;
             first_price price_elems) with
      | Ok (Some p) => Some p
      | _ => price_of_selectors element rest
      end
  end.

Definition price_patterns : list Re.regex :=
  [Patterns.price; Patterns.price_spaced; Patterns.price_reversed].

(** Lines 1376-1380. *)
Fixpoint first_pattern (patterns : list Re.regex) (all_text : string)
    : option string :=
  match patterns with
  | [] => None
  | pattern :: rest =>
      match Re.re_search pattern all_text with
      | Some price_match => Some (strip (Re.group0 price_match))
      | None => first_pattern rest all_text
      end
  end.

(** Strategy 2, lines 1367-1382. *)
Definition price_of_text (element : E) : option string :=
  try_except
    (all_text ← text element;
     mret (if str_truthy all_text then first_pattern price_patterns all_text
           else None))
    None.

(** Strategy 3, lines 1386-1393. *)
Definition price_of_markup (element : E) : option string :=
  try_except
    (inner_html ← get_attribute element "innerHTML";
     mret (if truthy inner_html
           then Re.group0 <$> Re.re_search Patterns.price (or_empty inner_html)
           else None))
    None.

(** Strategy 4, lines 1397-1408. *)
Definition price_of_children (element : E) : option string :=
  try_except
    (all_children ← find_elements element XPATH ".//*"; first_price all_children)
    None.

Definition extract_price (element : E) : M Product unit :=
  _ ← modify_M (λ product,
        set_price (assign_found (price_of_selectors element price_selectors)
                     (product_price product)) product);
  _ ← unless_set product_price set_price (price_of_text element);
  _ ← unless_set product_price set_price (price_of_markup element);
  unless_set product_price set_price (price_of_children element).

(** *** Image, lines 1410-1505 *)

Definition image_attributes : list string :=
  ["src"; "data-src"; "data-lazy-src"; "data-original"; "data-image";
   "data-img"; "data-product-image"].

(** [img_src and img_src.strip() and img_src != 'null' and
    img_src != 'undefined'] *)
Definition usable_src (img_src : option string) : bool :=
  match img_src with
  | Some v => nonblank img_src && negb (String.eqb v "null") &&
              negb (String.eqb v "undefined")
  | None => false
  end.

(** Lines 1416-1420: [img_src] keeps the value read last. *)
Fixpoint image_attribute (img_elem : E) (attrs : list string)
    (img_src : option string) : exc (option string) :=
  match attrs with
  | [] => Ok img_src
  | attr :: rest =>
      v ← get_attribute img_elem attr;
      if usable_src v then Ok v else image_attribute img_elem rest v
  end.

(** [img_src.split(',')[0].strip().split(' ')[0]] when there is a comma. *)
Definition first_of_srcset (img_src : string) : string :=
  if contains "," img_src
  then default EmptyString
         (head (split " " (strip (default EmptyString (head (split "," img_src))))))
  else img_src.

Definition skip_keywords : list string :=
  ["placeholder"; "logo"; "icon"; "sprite"; "1x1"; "blank"].

(** Lines 1414-1435. *)
Fixpoint first_image (img_elems : list E) : exc (option string) :=
  match img_elems with
  | [] => Ok None
  | img_elem :: rest =>
      img_src ← image_attribute img_elem image_attributes None;
      match img_src with
      | Some v =>
          if usable_src img_src then
            let img_src := absolute (first_of_srcset v) in
            if negb (contains_any skip_keywords (lower img_src))
            then Ok (Some img_src)
            else first_image rest
          else first_image rest
      | None => first_image rest
      end
  end.

(** Strategy 1, lines 1412-1437. *)
Definition image_of_img (element : E) : option string :=
  try_except
    (img_elems ← find_elements element TAG_NAME "img"; first_image img_elems)
    None.

(** [e.get_attribute(a) or e.get_attribute(b) or e.get_attribute(c)] *)
Definition attribute_or3 (e : E) (a b c : string) : exc (option string) :=
  x ← get_attribute e a;
  if truthy x then Ok x
  else y ← get_attribute e b;
       if truthy y then Ok y else get_attribute e c.

(** Lines 1444-1456. *)
Fixpoint first_picture (picture_imgs : list E) : exc (option string) :=
  match picture_imgs with
  | [] => Ok None
  | img_elem :: rest =>
      img_src ← attribute_or3 img_elem "src" "data-src" "srcset";
      match img_src with
      | Some v =>
          if nonblank img_src then
            let img_src := absolute (first_of_srcset v) in
            if negb (contains "placeholder" (lower img_src)) &&
               negb (contains "logo" (lower img_src))
            then Ok (Some img_src)
            else first_picture rest
          else first_picture rest
      | None => first_picture rest
      end
  end.

(** Strategy 2, lines 1441-1458. *)
Definition image_of_picture (element : E) : option string :=
  try_except
    (picture_imgs ← find_elements element CSS_SELECTOR "picture img, picture source";
     first_picture picture_imgs)
    None.

(** Lines 1468-1485, one turn of the loop on [(best_img, best_size)]. *)
Definition consider_image (img_elem : E) (best : option string * Z)
    : option string * Z :=
  let '(best_img, best_size) := best in
  try_except
    (tn ← tag_name img_elem;
     if String.eqb tn "img" then
       img_src ← attribute_or3 img_elem "src" "data-src" "data-lazy-src";
       match img_src with
       | Some v =>
           if nonblank img_src then
             Ok (try_except
                   ('(width, height) ← size img_elem;
                    let img_size := width * height in
                    Ok (if (best_size <? img_size) &&
                           negb (contains "placeholder" (lower v))
                        then (Some v, img_size) else best))
                   (if truthy best_img then best else (Some v, best_size)))
           else Ok best
       | None => Ok best
       end
     else Ok best)
    best.

(** ['img, [style*=...]'], with [background-image] between double quotes
    after the [*=] (character 34). *)
Definition all_images_selector : string :=
  "img, [style*=" +:+ String "034" ("background-image" +:+ String "034" "]").

(** Strategy 2b, lines 1462-1492. *)
Definition image_of_largest (element : E) : option string :=
  try_except
    (all_imgs ← find_elements element CSS_SELECTOR all_images_selector;
     let '(best_img, _) := foldl (λ best img_elem, consider_image img_elem best)
                             (None, 0) all_imgs in
     mret (match best_img with
           | Some v => if str_truthy v then Some (absolute v) else None
           | None => None
           end))
    None.

(** Strategy 3, lines 1496-1505. *)
Definition image_of_style (element : E) : option string :=
  try_except
    (a ← get_attribute element "style";
     let style := or_empty a in
     mret (absolute ∘ Re.group1 <$> Re.re_search Patterns.background_url style))
    None.

Definition extract_image (element : E) : M Product unit :=
  _ ← modify_M (λ product,
        set_image (assign_found (image_of_img element) (product_image product))
          product);
  _ ← unless_set product_image set_image (image_of_picture element);
  _ ← unless_set product_image set_image (image_of_largest element);
  unless_set product_image set_image (image_of_style element).

(** *** The whole extractor, lines 1172-1521

    The record is filled in place; when an exception escapes the inner
    handlers, the outer [except] returns it as far as it was filled. *)

Definition empty_product : Product := mkProduct None None None None.

Definition extract_product_data (element : E) (index : Z) : Product :=
  snd ((_ ← extract_hyperlink element index;
        _ ← extract_title element;
        _ ← extract_price element;
        extract_image element) empty_product).
End FieldExtractor.

(** ** The browser session

    [self.driver], as far as [scroll_page], [extract_products] and
    [scrape_category_page] use it.  Every call may change the page ([W]) and
    may raise.  A script that returns a number returns an integer here. *)

Inductive Script (E : Type) :=
| ReturnScrollHeight          (* return document.body.scrollHeight *)
| ReturnPageYOffset           (* return window.pageYOffset; *)
| ScrollTo (y : Z)            (* window.scrollTo(0, y); *)
| ScrollToBottom              (* window.scrollTo(0, document.body.scrollHeight); *)
| ScrollToBottomSmooth        (* window.scrollTo({top: ..., behavior: 'smooth'}); *)
| ScrollIntoViewCenter (e : E)  (* arguments[0].scrollIntoView({block: 'center'}); *)
| ClickElement (e : E).       (* arguments[0].click(); *)
Arguments ReturnScrollHeight {E}.
Arguments ReturnPageYOffset {E}.
Arguments ScrollTo {E} y.
Arguments ScrollToBottom {E}.
Arguments ScrollToBottomSmooth {E}.
Arguments ScrollIntoViewCenter {E} e.
Arguments ClickElement {E} e.

Class Session (W E : Type) := {
  driver_get : string → M W unit;
  execute_script : Script E → M W Z;
  driver_find_elements : By → string → M W (list E);
  page_source : M W string;
  current_url : M W string;
  driver_title : M W string;
  (** [WebDriverWait(driver, timeout).until(readyState == 'complete')] *)
  wait_until_complete : Z → M W unit;
  (** [open(name, 'w').write(data)] *)
  write_file : string → string → M W unit;
  (** [time.sleep(seconds)]: the page may change meanwhile. *)
  time_sleep : Q → W → W;
  (** [time.time()] *)
  time_time : W → Q
}.

(** [time.sleep(seconds)]: a negative duration raises [ValueError]. *)
Definition sleep `{Session W E} (seconds : Q) : M W unit :=
  λ w, if Qle_bool 0 seconds then (Ok (), time_sleep seconds w)
       else (Raise ValueError, w).

Definition driver_find_element `{Session W E} (by_ : By) (value : string) : M W E :=
  l ← driver_find_elements by_ value;
  match l with
  | x :: _ => mret x
  | [] => raise_M NoSuchElementException
  end.

(** Two methods of [HEBScraper] are used but not embedded.  Both handle every
    exception themselves, so they are functions of the page:
    [scroll_horizontal_carousels] (lines 307-478), and the later tiers of the
    candidate search in [extract_products] (lines 925-1098), which take the
    elements and the identities collected by the selector cascade. *)
Class Unembedded (W E : Type) := {
  scroll_horizontal_carousels : W → W;
  locate_fallbacks : list E → gset nat → W → list E * W
}.

(** ** [HEBScraper.scroll_page], lines 480-601 *)

Record ScrollState := mkScroll {
  last_height : Z;
  last_product_count : Z;
  scrolls : Z;
  no_change_count : Z;
  no_product_change_count : Z
}.

(** How one turn of the [while] loop ends: falls through to the next test of
    the condition, or [break]. *)
Inductive Turn := Next (st : ScrollState) | Break (st : ScrollState).

Section ScrollOrchestrator.
Context `{WebElement E} `{Session W E}.

Definition load_more_selectors : list string :=
  ["button[class*='load-more' i]"; "button[class*='LoadMore' i]";
   "a[class*='load-more' i]"; "button:contains('Load More')";
   "button:contains('Show More')"; "button:contains('See More')";
   "*[aria-label*='load more' i]"; "*[aria-label*='show more' i]"].

(** Lines 523-534: the selectors are tried in turn until a button has been
    clicked ([break]); a selector that raises gives way to the next. *)
Fixpoint click_first_load_more (selectors : list string) : M W unit :=
  match selectors with
  | [] => mret ()
  | selector :: rest =>
      clicked ← try_M
        (load_btn ← driver_find_element CSS_SELECTOR selector;
         shown ← lift_exc (is_displayed load_btn);
         if shown : bool then
           _ ← execute_script (ScrollIntoViewCenter load_btn);
           _ ← sleep 1;
           _ ← execute_script (ClickElement load_btn);
           _ ← sleep 3;
           mret true
         else mret false)
        (mret false);
      if clicked : bool then mret () else click_first_load_more rest
  end.

(** Lines 511-536. *)
Definition click_load_more : M W unit :=
  try_M (click_first_load_more load_more_selectors) (mret ()).

(** Lines 542-552. *)
Definition count_images (st : ScrollState) : M W ScrollState :=
  try_M
    (imgs ← driver_find_elements CSS_SELECTOR "img";
     let current_images := Z.of_nat (length imgs) in
     mret (if last_product_count st <? current_images
           then mkScroll (last_height st) current_images (scrolls st)
                  (no_change_count st) 0
           else mkScroll (last_height st) (last_product_count st) (scrolls st)
                  (no_change_count st) (no_product_change_count st + 1)))
    (mret st).

(** [no_change_count = 0; no_product_change_count = 0] *)
Definition reset_counts (st : ScrollState) : ScrollState :=
  mkScroll (last_height st) (last_product_count st) (scrolls st) 0 0.

(** Lines 583-584. *)
Definition advance (st : ScrollState) (new_height : Z) : Turn :=
  Next (mkScroll new_height (last_product_count st) (scrolls st + 1)
          (no_change_count st) (no_product_change_count st)).

(** One turn of the loop, lines 502-584. *)
Definition scroll_step (scroll_pause_time : Q) (st : ScrollState) : M W Turn :=
  current_scroll ← execute_script ReturnPageYOffset;
  let scroll_amount := 800 in
  _ ← execute_script (ScrollTo (current_scroll + scroll_amount));
  _ ← sleep scroll_pause_time;
  _ ← click_load_more;
  new_height ← execute_script ReturnScrollHeight;
  st ← count_images st;
  if new_height =? last_height st then
    let st := mkScroll (last_height st) (last_product_count st) (scrolls st)
                (no_change_count st + 1) (no_product_change_count st) in
    if 5 <=? no_change_count st then
      _ ← execute_script ScrollToBottom;
      _ ← sleep (scroll_pause_time * 2);
      new_height ← execute_script ReturnScrollHeight;
      if new_height =? last_height st then
        _ ← execute_script ScrollToBottomSmooth;
        _ ← sleep (scroll_pause_time * 2);
        new_height ← execute_script ReturnScrollHeight;
        if (new_height =? last_height st) && (5 <=? no_product_change_count st)
        then mret (Break st)
        else mret (advance (reset_counts st) new_height)
      else mret (advance (reset_counts st) new_height)
    else mret (advance st new_height)
  else mret (advance (reset_counts st) new_height).

(** [while scrolls < max_scrolls: ...], run for at most [fuel] tests of the
    condition; [None] when the fuel runs out first.  The second component
    counts the turns started. *)
Fixpoint scroll_loop (fuel : nat) (scroll_pause_time : Q) (max_scrolls : Z)
    (st : ScrollState) (turns : nat) (w : W)
    : option (exc ScrollState * nat * W) :=
  match fuel with
  | O => None
  | S fuel' =>
      if scrolls st <? max_scrolls then
        match scroll_step scroll_pause_time st w with
        | (Ok (Next st'), w') =>
            scroll_loop fuel' scroll_pause_time max_scrolls st' (S turns) w'
        | (Ok (Break st'), w') => Some (Ok st', S turns, w')
        | (Raise e, w') => Some (Raise e, S turns, w')
        end
      else Some (Ok st, turns, w)
  end.

(** Lines 484-499. *)
Definition scroll_prologue : M W ScrollState :=
  last_height ← execute_script ReturnScrollHeight;
  _ ← execute_script (ScrollTo 500);
  _ ← sleep 3;
  _ ← try_M (initial_products ← driver_find_elements CSS_SELECTOR "img"; mret ())
        (mret ());
  mret (mkScroll last_height 0 0 0 0).

(** Lines 593-597, [for i in range(5)]. *)
Fixpoint scroll_back (is_ : list Z) : M W unit :=
  match is_ with
  | [] => mret ()
  | i :: rest =>
      height ← execute_script ReturnScrollHeight;
      let scroll_pos := height - i * 1000 in
      _ ← (if 0 <? scroll_pos
           then _ ← execute_script (ScrollTo scroll_pos); sleep 1
           else mret ());
      scroll_back rest
  end.

(** Lines 586-601. *)
Definition scroll_epilogue (scroll_pause_time : Q) : M W unit :=
  _ ← execute_script ScrollToBottom;
  _ ← sleep (scroll_pause_time * 2);
  _ ← scroll_back [0; 1; 2; 3; 4];
  sleep 2.

(** The method; the result carries the number of turns of the loop. *)
Definition scroll_page_fuel (fuel : nat) (scroll_pause_time : Q) (max_scrolls : Z)
    (w : W) : option (exc unit * nat * W) :=
  match scroll_prologue w with
  | (Raise e, w) => Some (Raise e, O, w)
  | (Ok st, w) =>
      match scroll_loop fuel scroll_pause_time max_scrolls st O w with
      | None => None
      | Some (Raise e, turns, w) => Some (Raise e, turns, w)
      | Some (Ok _, turns, w) =>
          let '(r, w) := scroll_epilogue scroll_pause_time w in
          Some (r, turns, w)
      end
  end.

(** Enough fuel for any run: the loop tests its condition at most
    [max_scrolls + 1] times. *)
Definition scroll_page (scroll_pause_time : Q) (max_scrolls : Z)
    : W → option (exc unit * nat * W) :=
  scroll_page_fuel (S (Z.to_nat max_scrolls)) scroll_pause_time max_scrolls.
End ScrollOrchestrator.

(** ** The scraper object *)

Record HEBScraper := mkScraper {
  products : list Product;
  seen_urls : gset string;
  (** [hasattr(self, '_debug_saved')] *)
  debug_saved : bool
}.

(** [__init__], lines 23-25. *)
Definition new_scraper : HEBScraper := mkScraper [] ∅ false.

(** A driver call inside a method: the object is untouched. *)
Definition liftW {W A} (m : M W A) : M (HEBScraper * W) A :=
  λ '(self, w), let '(r, w') := m w in (r, (self, w')).

(** [o in s] for a [None]-or-[str] value and a set of strings. *)
Definition in_set (o : option string) (s : gset string) : bool :=
  match o with
  | Some k => bool_decide (k ∈ s)
  | None => false
  end.

(** [s.add(o)] for a truthy [o]. *)
Definition add_to (o : option string) (s : gset string) : gset string :=
  match o with
  | Some k => {[k]} ∪ s
  | None => s
  end.

(** ** [HEBScraper.extract_products], lines 807-1170 *)

Section CandidateLocator.
Context `{WebElement E} `{Session W E} `{Unembedded W E}.

Definition product_selectors : list string :=
  ["[data-testid*='product']"; "[data-testid*='Product']";
   "[data-product-id]"; "[data-product-sku]"; "[data-product-code]";
   "div[class*='ProductCard']"; "div[class*='product-card']";
   "div[class*='ProductTile']"; "div[class*='product-tile']";
   "div[class*='ProductItem']"; "div[class*='product-item']";
   "article[class*='product']"; "article[class*='Product']";
   "li[class*='product']"; "div[class*='grid-item']"; "div[class*='GridItem']";
   "a[href*='/product/']"; "a[href*='/p/']";
   "[class*='card'][class*='product']"; "[class*='tile'][class*='product']";
   "[itemtype*='Product']"; "div.product-item"; ".product-tile"].

(** Lines 880-888: the link of a match, when one is found. *)
Definition associated_href (elem : E) : exc (option string) :=
  tn ← tag_name elem;
  if String.eqb tn "a" then
    a ← get_attribute elem "href";
    mret (Some (or_empty a))
  else
    mret (try_except
            (link_elem ← find_element elem TAG_NAME "a";
             a ← get_attribute link_elem "href";
             mret (Some (or_empty a)))
            None).

(** Lines 875-903 for one match: [Ok true] when it is appended.  The local
    variable [has_text] is read on line 901; [has_text] gives its binding at
    that point, [None] when it has none. *)
Definition keep_match (has_text : option bool) (seen_element_ids : gset nat)
    (elem : E) : exc bool :=
  let elem_id := py_id elem in
  if bool_decide (elem_id ∈ seen_element_ids) then Ok false
  else
    href ← associated_href elem;
    if truthy href && is_category_href (or_empty href) then Ok false
    else
      t ← text elem;
      let text_ := strip t in
      imgs ← find_elements elem TAG_NAME "img";
      let has_img := (0 <? length imgs)%nat in
      links ← find_elements elem TAG_NAME "a";
      has_link ← (if (0 <? length links)%nat then Ok true
                  else tn ← tag_name elem; Ok (String.eqb tn "a"));
      t' ← text elem;
      let has_price := searches Patterns.price t' in
      if has_img then
        ht ← load_local "has_text" has_text;
        Ok ((ht : bool) || has_price || str_truthy text_)
      else Ok false.

(** Lines 872-905. *)
Fixpoint filter_matches (has_text : option bool) (elements : list E)
    (filtered_elements : list E) (seen_element_ids : gset nat)
    : list E * gset nat :=
  match elements with
  | [] => (filtered_elements, seen_element_ids)
  | elem :: rest =>
      match keep_match has_text seen_element_ids elem with
      | Ok true =>
          filter_matches has_text rest (filtered_elements ++ [elem])
            ({[py_id elem]} ∪ seen_element_ids)
      | _ => filter_matches has_text rest filtered_elements seen_element_ids
      end
  end.

(** Lines 865-911: every selector is tried. *)
Fixpoint selector_cascade (has_text : option bool) (selectors : list string)
    (product_elements : list E) (seen_element_ids : gset nat) (w : W)
    : (list E * gset nat) * W :=
  match selectors with
  | [] => ((product_elements, seen_element_ids), w)
  | selector :: rest =>
      match driver_find_elements CSS_SELECTOR selector w with
      | (Ok elements, w') =>
          match elements with
          | [] => selector_cascade has_text rest product_elements seen_element_ids w'
          | _ :: _ =>
              let '(filtered_elements, seen_element_ids) :=
                filter_matches has_text elements [] seen_element_ids in
              match filtered_elements with
              | [] => selector_cascade has_text rest product_elements
                        seen_element_ids w'
              | _ :: _ => selector_cascade has_text rest
                            (product_elements ++ filtered_elements)
                            seen_element_ids w'
              end
          end
      | (Raise _, w') =>
          selector_cascade has_text rest product_elements seen_element_ids w'
      end
  end.

(** Lines 914-922 and 1047-1055. *)
Fixpoint unique_by_id (elems : list E) (seen : gset nat) (unique_elements : list E)
    : list E :=
  match elems with
  | [] => unique_elements
  | elem :: rest =>
      if bool_decide (py_id elem ∈ seen) then unique_by_id rest seen unique_elements
      else unique_by_id rest ({[py_id elem]} ∪ seen) (unique_elements ++ [elem])
  end.

(** Lines 860-923, as [extract_products] runs them: [has_text] has no
    binding yet when line 901 is reached. *)
Definition locate_by_selectors (w : W) : (list E * gset nat) * W :=
  let '((product_elements, seen_element_ids), w) :=
    selector_cascade None product_selectors [] ∅ w in
  ((unique_by_id product_elements ∅ [], seen_element_ids), w).

(** Lines 816-826. *)
Definition debug_dump : M (HEBScraper * W) unit :=
  try_M
    (self ← fst <$> get_M;
     if debug_saved self then mret ()
     else
       src ← liftW page_source;
       if len src <? 500000 then
         _ ← liftW (write_file "debug_page_source.html" src);
         modify_M (λ '(self, w),
           (mkScraper (products self) (seen_urls self) true, w))
       else mret ())
    (mret ()).

(** Lines 1101-1128: nothing found. *)
Definition report_nothing_found : M W unit :=
  _ ← driver_title;
  _ ← current_url;
  try_M
    (body ← driver_find_element TAG_NAME "body";
     _ ← lift_exc (slice_to 500 <$> text body);
     _ ← page_source;
     _ ← driver_find_elements TAG_NAME "img";
     _ ← driver_find_elements TAG_NAME "a";
     _ ← page_source;
     mret ())
    (mret ()).

(** Lines 1142-1147. *)
Definition is_category (product_data : Product) : bool :=
  let product_url := product_hyperlink product_data in
  truthy product_url && is_category_href (or_empty product_url).

Definition has_essential_data (product_data : Product) : bool :=
  truthy (product_title product_data) || truthy (product_price product_data) ||
  truthy (product_image product_data).

(** Line 1154. *)
Definition unique_key (product_data : Product) : option string :=
  let product_url := product_hyperlink product_data in
  if truthy product_url then product_url else product_title product_data.

(** Lines 1136-1168: the records kept, with [self.seen_urls]. *)
Fixpoint accept_products (product_limit : list E) (idx : Z)
    (seen_urls : gset string) (products : list Product)
    : list Product * gset string :=
  match product_limit with
  | [] => (products, seen_urls)
  | element :: rest =>
      let product_data := extract_product_data element idx in
      if has_essential_data product_data && negb (is_category product_data) then
        let unique_key := unique_key product_data in
        if truthy unique_key && negb (in_set unique_key seen_urls) then
          accept_products rest (idx + 1) (add_to unique_key seen_urls)
            (products ++ [product_data])
        else accept_products rest (idx + 1) seen_urls products
      else accept_products rest (idx + 1) seen_urls products
  end.

Definition extract_products (max_products : option Z)
    : M (HEBScraper * W) (list Product) :=
  _ ← debug_dump;
  '(product_elements, seen_element_ids) ← liftW (λ w,
    let '(r, w) := locate_by_selectors w in (Ok r, w));
  product_elements ← liftW (λ w,
    let '(r, w) := locate_fallbacks product_elements seen_element_ids w in (Ok r, w));
  match product_elements with
  | [] => _ ← liftW report_nothing_found; mret []
  | _ :: _ =>
      let product_limit :=
        match max_products with
        | None => product_elements
        | Some n => list_slice_to n product_elements
        end in
      λ '(self, w),
        let '(found, seen) :=
          accept_products product_limit 0 (seen_urls self) [] in
        (Ok found, (mkScraper (products self) seen (debug_saved self), w))
  end.
End CandidateLocator.

(** ** [HEBScraper.scrape_category_page], lines 160-277 *)

(** [x % 2] on a float, read on the rationals. *)
Definition Qmod2 (x : Q) : Q := (x - 2 * inject_Z (Qfloor (x / 2)))%Q.

Section PassCoordinator.
Context `{WebElement E} `{Session W E} `{Unembedded W E}.

(** Lines 104-114: only a timeout is handled. *)
Definition wait_for_page_load (timeout : Z) : M W unit := λ w,
  match wait_until_complete timeout w with
  | (Ok _, w') => sleep 3 w'
  | (Raise TimeoutException, w') => (Ok (), w')
  | (Raise e, w') => (Raise e, w')
  end.

Definition blocking_indicators : list string :=
  ["ad blocker"; "antivirus software"; "vpn"; "firewall"; "could not load";
   "access denied"; "blocked"; "bot detected"].

(** Lines 116-136. *)
Definition check_for_blocking : M W bool :=
  try_M
    (src ← page_source;
     mret (contains_any blocking_indicators (lower src)))
    (mret false).

Definition product_indicators : list string :=
  ["product"; "price"; "$"; "add to cart"; "buy now"].

(** Lines 138-158. *)
Definition verify_product_page : M W bool :=
  try_M
    (url ← current_url;
     let current_url := lower url in
     if negb (contains "/product" current_url) &&
        negb (contains "/category" current_url) &&
        negb (contains "/department" current_url) &&
        negb (contains "/aisle" current_url) &&
        negb (contains "heb.com" current_url)
     then mret false
     else
       src ← page_source;
       let page_source := lower src in
       let found_indicators :=
         length (filter (λ indicator, contains indicator page_source = true)
                   product_indicators) in
       mret (negb (found_indicators <? 2)%nat))
    (mret true).

(** Lines 171-194, up to the call of [scroll_page]. *)
Definition before_scrolling (page_url : string) : M W unit :=
  _ ← (λ w, sleep (2 + Qmod2 (time_time w)) w);
  _ ← driver_get page_url;
  _ ← wait_for_page_load 30;
  blocked ← check_for_blocking;
  _ ← (if blocked : bool then sleep 5 else mret ());
  _ ← sleep 5;
  try_M (_ ← execute_script (ScrollTo 100); sleep 1) (mret ()).

(** Lines 200-228, between [scroll_page] and the first pass. *)
Definition after_scrolling : M W unit :=
  _ ← sleep 5;
  _ ← (λ w, (Ok (), scroll_horizontal_carousels w));
  _ ← execute_script ScrollToBottom;
  _ ← sleep 3;
  _ ← execute_script (ScrollTo 0);
  _ ← sleep 2;
  _ ← execute_script ScrollToBottom;
  _ ← sleep 3;
  _ ← driver_title;
  _ ← current_url;
  _ ← verify_product_page;
  _ ← check_for_blocking;
  mret ().

(** Lines 251-252. *)
Definition existing_urls_of (products : list Product) : gset string :=
  list_to_set (or_empty <$> filter (λ u, truthy u = true)
                            (product_hyperlink <$> products)).
Definition existing_titles_of (products : list Product) : gset string :=
  list_to_set (or_empty <$> filter (λ t, truthy t = true)
                            (product_title <$> products)).

(** Lines 254-263. *)
Fixpoint new_products_of (products_pass2 : list Product)
    (existing_urls existing_titles : gset string) (new_products : list Product)
    : list Product :=
  match products_pass2 with
  | [] => new_products
  | p :: rest =>
      let url := product_hyperlink p in
      let title := product_title p in
      if (truthy url && negb (in_set url existing_urls)) ||
         (truthy title && negb (in_set title existing_titles))
      then new_products_of rest
             (if truthy url then add_to url existing_urls else existing_urls)
             (if truthy title then add_to title existing_titles else existing_titles)
             (new_products ++ [p])
      else new_products_of rest existing_urls existing_titles new_products
  end.

(** Lines 250-266 as a function of [self.products] and of the second
    pass: the new [self.products]. *)
Definition merge_pass2 (products products_pass2 : list Product) : list Product :=
  let new_products :=
    new_products_of products_pass2 (existing_urls_of products)
      (existing_titles_of products) [] in
  match new_products with
  | [] => products
  | _ :: _ => products ++ new_products
  end.

(** [self.products = f(self.products)] *)
Definition update_products (f : list Product → list Product)
    : M (HEBScraper * W) unit :=
  modify_M (λ '(self, w),
    (mkScraper (f (products self)) (seen_urls self) (debug_saved self), w)).

(** Lines 230-271: both passes; the value is what the method returns. *)
Definition two_passes : M (HEBScraper * W) (list Product) :=
  found ← extract_products None;
  _ ← update_products (λ ps, ps ++ found);
  _ ← liftW (sleep 3);
  _ ← liftW (execute_script ScrollToBottom);
  _ ← liftW (sleep 2);
  _ ← liftW (execute_script (ScrollTo 0));
  _ ← liftW (sleep 2);
  products_pass2 ← extract_products None;
  _ ← update_products (λ ps, merge_pass2 ps products_pass2);
  mret found.

(** The method.  [None] only if [scroll_page] does not return; an
    exception anywhere in the body gives the empty list (lines 273-277). *)
Definition scrape_category_page (page_url : string) (self : HEBScraper) (w : W)
    : option (list Product * HEBScraper * W) :=
  match before_scrolling page_url w with
  | (Raise _, w) => Some ([], self, w)
  | (Ok _, w) =>
      match scroll_page (5 # 2) 150 w with
      | None => None
      | Some (Raise _, _, w) => Some ([], self, w)
      | Some (Ok _, _, w) =>
          match (_ ← liftW after_scrolling; two_passes) (self, w) with
          | (Ok found, (self, w)) => Some (found, self, w)
          | (Raise _, (self, w)) => Some ([], self, w)
          end
      end
  end.
End PassCoordinator.

(** ** [HEBScraper.scrape_homepage], lines 279-305 *)

Section Homepage.
Context `{WebElement E} `{Session W E} `{Unembedded W E}.

(** [scrape_category_page] handles every exception itself, so the handler of
    lines 301-305 is never entered.  The value is [self.products], not the
    list that [scrape_category_page] returned.  [None] only if
    [scroll_page] does not return. *)
Definition scrape_homepage (self : HEBScraper) (w : W)
    : option (list Product * HEBScraper * W) :=
  let homepage_url := "https://heb.com" in
  match scrape_category_page homepage_url self w with
  | None => None
  | Some (_, self, w) => Some (products self, self, w)
  end.
End Homepage.

(** ** [HEBScraper.handle_pagination], lines 743-805 *)

Section Pagination.
Context `{WebElement E} `{Session W E}.

Definition pagination_selectors : list string :=
  ["a[aria-label*='next']"; "a[aria-label*='Next']"; "a[class*='next']";
   "a[class*='pagination']"; "[class*='pagination'] a"; "a[href*='page=']";
   "a[href*='?page=']"; "a[href*='&page=']"; "button[aria-label*='next']"].

(** Lines 772-780 for one selector: the next page, when the selector gives
    one.  An element is always true as a condition. *)
Definition next_page_of (category_url : string) (page_urls : list string)
    (selector : string) : M W (option string) :=
  try_M
    (next_btn ← driver_find_element CSS_SELECTOR selector;
     href ← lift_exc (get_attribute next_btn "href");
     mret (match href with
           | Some h =>
               if str_truthy h then
                 let href := absolute h in
                 if negb (bool_decide (href ∈ page_urls)) &&
                    negb (String.eqb href category_url)
                 then Some href else None
               else None
           | None => None
           end))
    (mret None).

(** Lines 770-782: the selectors in turn, until one gives a next page. *)
Fixpoint first_next_page (category_url : string) (page_urls : list string)
    (selectors : list string) : M W (option string) :=
  match selectors with
  | [] => mret None
  | selector :: rest =>
      next_page_url ← next_page_of category_url page_urls selector;
      match next_page_url with
      | Some href => mret (Some href)
      | None => first_next_page category_url page_urls rest
      end
  end.

(** Lines 788-794: [page_urls] after the loop.  An exception ends the loop;
    what has been appended stays. *)
Fixpoint page_numbers (page_links : list E) (page_urls : list string)
    : list string :=
  match page_links with
  | [] => page_urls
  | link :: rest =>
      match (a ← get_attribute link "href";
             if truthy a then Ok a else get_attribute link "data-page") with
      | Ok (Some h) =>
          if str_truthy h then
            let href := absolute h in
            if bool_decide (href ∈ page_urls) then page_numbers rest page_urls
            else page_numbers rest (page_urls ++ [href])
          else page_numbers rest page_urls
      | Ok None => page_numbers rest page_urls
      | Raise _ => page_urls
      end
  end.

Definition handle_pagination (category_url : string) : M W (list string) :=
  let page_urls := [category_url] in
  try_M
    (_ ← driver_get category_url;
     _ ← sleep 3;
     _ ← execute_script ScrollToBottom;
     _ ← sleep 2;
     next_page_url ← first_next_page category_url page_urls pagination_selectors;
     match next_page_url with
     | None =>
         try_M
           (page_links ← driver_find_elements CSS_SELECTOR
                           "a[href*='page'], button[data-page]";
            mret (page_numbers page_links page_urls))
           (mret page_urls)
     | Some href => mret (page_urls ++ [href])
     end)
    (mret page_urls).
End Pagination.

(** ** [HEBScraper.find_all_categories], lines 603-741 *)

(** [s.replace(a, b)] for single characters. *)
Fixpoint replace_char (a b : ascii) (s : string) : string :=
  match s with
  | EmptyString => EmptyString
  | String c s' => String (if Ascii.eqb c a then b else c) (replace_char a b s')
  end.

Definition is_upper (c : ascii) : bool :=
  let n := nat_of_ascii c in ((65 <=? n) && (n <=? 90))%nat.

Definition is_lower (c : ascii) : bool :=
  let n := nat_of_ascii c in ((97 <=? n) && (n <=? 122))%nat.

Definition upper_char (c : ascii) : ascii :=
  if is_lower c then ascii_of_nat (nat_of_ascii c - 32) else c.

(** [s.title()]: a letter after a letter is lowered, any other letter is
    raised. *)
Fixpoint title_from (previous_is_cased : bool) (s : string) : string :=
  match s with
  | EmptyString => EmptyString
  | String c s' =>
      String (if previous_is_cased then lower_char c else upper_char c)
        (title_from (is_upper c || is_lower c) s')
  end.

Definition title (s : string) : string := title_from false s.

(** [s.split('/')[-1]] *)
Definition last_segment (s : string) : string :=
  default EmptyString (last (split "/" s)).

(** The text after the first [n] characters. *)
Fixpoint skip (n : nat) (s : string) : string :=
  match n, s with
  | S n', String _ s' => skip n' s'
  | _, _ => s
  end.

(** Patterns with an alternative of words, and [re.findall] for a pattern
    with one group.  An alternative tries its words from left to right, and
    goes on to the next word when the rest of the pattern fails. *)
Module Findall.

Inductive part :=
| Items (p : Re.pattern)
| Words (ws : list string).

Record regex := Regex {
  before : list part;
  group : list part;
  after : list part
}.

Section Matcher.
Context {R : Type}.

Fixpoint run_words (ws : list string) (pos : nat) (s : string)
    (k : nat → string → option R) : option R :=
  match ws with
  | [] => None
  | w :: rest =>
      match (if startswith s w
             then k (pos + String.length w)%nat (skip (String.length w) s)
             else None) with
      | Some r => Some r
      | None => run_words rest pos s k
      end
  end.

Fixpoint run (p : list part) (pos : nat) (s : string)
    (k : nat → string → option R) : option R :=
  match p with
  | [] => k pos s
  | Items q :: p' => Re.run q pos s (λ pos' s', run p' pos' s' k)
  | Words ws :: p' => run_words ws pos s (λ pos' s', run p' pos' s' k)
  end.
End Matcher.

Definition match_at (r : regex) (pos : nat) (s : string) : option Re.Match :=
  run (before r) pos s (λ p1 s1,
    run (group r) p1 s1 (λ p2 s2,
      run (after r) p2 s2 (λ _ s3,
        Some (Re.mkMatch (Re.consumed s s3) (Re.consumed s1 s2))))).

(** The matches from left to right, without overlap: after a match the
    search goes on where the match ended ([skip] counts the characters of
    the match still to pass). *)
Fixpoint findall_from (r : regex) (pos skip_ : nat) (s : string) : list string :=
  match skip_ with
  | S skip' =>
      match s with
      | String _ s' => findall_from r (S pos) skip' s'
      | EmptyString => []
      end
  | O =>
      match match_at r pos s with
      | Some m =>
          Re.group1 m ::
          match s with
          | String _ s' =>
              findall_from r (S pos) (String.length (Re.group0 m) - 1) s'
          | EmptyString => []
          end
      | None =>
          match s with
          | String _ s' => findall_from r (S pos) 0 s'
          | EmptyString => []
          end
      end
  end.

(** [re.findall(r, s)] *)
Definition findall (r : regex) (s : string) : list string := findall_from r 0 0 s.

End Findall.

(** The pattern of line 708: [href=], a quote, the group, a quote; the group
    is non-quotes, a slash, one of the words [product], [category],
    [department], [aisle], [brand], [p], a slash, and non-quotes. *)
Definition category_href : Findall.regex :=
  Findall.Regex
    [Findall.Items (Re.lit "href=" ++ [Re.Cls Re.quote Re.One])]
    [Findall.Items [Re.Cls Re.not_quote Re.Star; Re.chr "/"];
     Findall.Words ["product"; "category"; "department"; "aisle"; "brand"; "p"];
     Findall.Items [Re.chr "/"; Re.Cls Re.not_quote Re.Star]]
    [Findall.Items [Re.Cls Re.quote Re.One]].

(** A discovered category, a dictionary with the keys [url] and [name]. *)
Record Category := mkCategory {
  url : string;
  name : string
}.

Section CategoryDiscovery.
Context `{WebElement E} `{Session W E}.

Definition category_selectors : list string :=
  ["a[href*='/product/']"; "a[href*='/category/']"; "a[href*='/department/']";
   "a[href*='/aisle/']"; "a[href*='/brand/']"; "a[href*='/p/']";
   "[data-testid*='category'] a"; "[data-testid*='department'] a";
   "[class*='Category'] a"; "[class*='Department'] a";
   "[class*='Navigation'] a"; "[class*='Menu'] a";
   "nav a"; "[class*='category'] a"; "[class*='department'] a";
   "[class*='nav'] a"; "[class*='menu'] a";
   "a[href^='/product/']"; "a[href^='/category/']"; "a[href^='/department/']"].

Definition category_patterns : list string :=
  ["/product/"; "/category/"; "/department/"; "/aisle/"; "/p/"; "/brand/"].

Definition category_excludes : list string :=
  ["/search"; "/account"; "/cart"; "/checkout"; "/login"; "/register"; "/help";
   "/about"].

(** [text or href.split('/')[-1].replace('-', ' ').title() or 'Category'] *)
Definition category_name (text_ href : string) : string :=
  if str_truthy text_ then text_
  else
    let from_url := title (replace_char "-" " " (last_segment href)) in
    if str_truthy from_url then from_url else "Category".

(** Lines 672-694 for one element: [categories] and [category_urls] after
    it. *)
Definition add_category (elem : E) (st : list Category * gset string)
    : list Category * gset string :=
  let '(categories, category_urls) := st in
  try_except
    (href ← get_attribute elem "href";
     t ← text elem;
     let text_ := strip t in
     mret (match href with
           | Some h =>
               if str_truthy h && (contains base_url h || startswith h "/") then
                 let href := absolute h in
                 if contains "heb.com" href &&
                    contains_any category_patterns href &&
                    negb (contains_any category_excludes href) &&
                    negb (bool_decide (href ∈ category_urls))
                 then (categories ++ [mkCategory href (category_name text_ href)],
                       {[href]} ∪ category_urls)
                 else st
               else st
           | None => st
           end))
    st.

(** Lines 668-700: the selectors in turn, until one has given a category
    ([break]); a selector whose query raises gives way to the next. *)
Fixpoint categories_by_selectors (selectors : list string)
    (st : list Category * gset string) : M W (list Category * gset string) :=
  match selectors with
  | [] => mret st
  | selector :: rest =>
      turn ← try_M
        (elements ← driver_find_elements CSS_SELECTOR selector;
         let st := foldl (λ st elem, add_category elem st) st elements in
         mret (st, match st.1 with [] => false | _ :: _ => true end))
        (mret (st, false));
      if turn.2 : bool then mret turn.1 else categories_by_selectors rest turn.1
  end.

(** Lines 710-718 for one URL of the page source. *)
Definition add_source_url (url_ : string) (st : list Category * gset string)
    : list Category * gset string :=
  let '(categories, category_urls) := st in
  let url_ := absolute url_ in
  if contains "heb.com" url_ && negb (bool_decide (url_ ∈ category_urls)) then
    if negb (contains "/search" url_) && negb (contains "/account" url_) then
      (categories ++ [mkCategory url_ (category_name EmptyString url_)],
       {[url_]} ∪ category_urls)
    else st
  else st.

(** Lines 703-720. *)
Definition categories_by_source (st : list Category * gset string)
    : M W (list Category * gset string) :=
  try_M
    (src ← page_source;
     let product_urls := Findall.findall category_href src in
     mret (foldl (λ st url_, add_source_url url_ st) st
             (list_slice_to 50 product_urls)))
    (mret st).

(** Lines 613-636, up to the call of [scroll_page]. *)
Definition before_discovery : M W unit :=
  let homepage_url := "https://heb.com" in
  _ ← sleep 2;
  _ ← driver_get homepage_url;
  _ ← wait_for_page_load 30;
  blocked ← check_for_blocking;
  _ ← (if blocked : bool then sleep 5 else mret ());
  _ ← sleep 5;
  try_M (_ ← execute_script (ScrollTo 200); sleep 2) (mret ()).

(** Lines 641-736, after [scroll_page]. *)
Definition discover : M W (list Category) :=
  st ← categories_by_selectors category_selectors ([], ∅);
  st ← (match st.1 with
        | [] => categories_by_source st
        | _ :: _ => mret st
        end);
  mret (match st.1 with
        | [] => [mkCategory "https://heb.com" "Homepage - All Products"]
        | _ :: _ => st.1
        end).

(** The method.  [None] only if [scroll_page] does not return; an exception
    anywhere in the body gives the one default entry (lines 738-741). *)
Definition find_all_categories (w : W) : option (list Category * W) :=
  let default_ := [mkCategory base_url "All Products"] in
  match before_discovery w with
  | (Raise _, w) => Some (default_, w)
  | (Ok _, w) =>
      match scroll_page 2 5 w with
      | None => None
      | Some (Raise _, _, w) => Some (default_, w)
      | Some (Ok _, _, w) =>
          match discover w with
          | (Ok categories, w) => Some (categories, w)
          | (Raise _, w) => Some (default_, w)
          end
      end
  end.
End CategoryDiscovery.

(** ** The later tiers of the candidate search, lines 925-1098

    The tiers of [extract_products] that follow the selector cascade.  Two
    more things of the browser are used here: the comparison [==] of two
    elements, which compares the identifiers that the browser gave them, and
    the script of lines 1062-1078, which returns a number. *)

Class Remote (E : Type) := {
  (** [elem.id], what [WebElement.__eq__] compares *)
  remote_id : E → string
}.

Class ProductScript (W : Type) := {
  (** [driver.execute_script(js_code)], lines 1062-1079 *)
  count_product_like : M W Z
}.

Section LaterTiers.
Context `{WebElement E} `{Remote E} `{Session W E} `{ProductScript W}.

(** [x in l] on a list of elements: the same object, or an equal one. *)
Definition elem_in (x : E) (l : list E) : bool :=
  existsb (λ e, (py_id e =? py_id x)%nat || String.eqb (remote_id e) (remote_id x)) l.

(** The loop of lines 988-992, 1037-1041: the elements whose identity is new
    are appended. *)
Fixpoint add_unseen (elems : list E) (product_elements : list E)
    (seen_element_ids : gset nat) : list E * gset nat :=
  match elems with
  | [] => (product_elements, seen_element_ids)
  | elem :: rest =>
      if bool_decide (py_id elem ∈ seen_element_ids)
      then add_unseen rest product_elements seen_element_ids
      else add_unseen rest (product_elements ++ [elem])
             ({[py_id elem]} ∪ seen_element_ids)
  end.

(** *** By price, lines 926-954 *)

Definition price_xpath : string :=
  "//*[contains(text(), '$') or contains(@class, 'price') or contains(@class, 'Price')]".

Definition ancestor_xpath : string :=
  "./ancestor::*[contains(@class, 'card') or contains(@class, 'tile') or contains(@class, 'item')][1]".

(** Lines 934-943: the nearest card-like ancestor of each price container,
    once per identity. *)
Fixpoint price_parents (price_containers : list E) (seen_containers : gset nat)
    (product_elements : list E) : list E :=
  match price_containers with
  | [] => product_elements
  | price_elem :: rest =>
      match find_element price_elem XPATH ancestor_xpath with
      | Ok parent =>
          if bool_decide (py_id parent ∈ seen_containers)
          then price_parents rest seen_containers product_elements
          else price_parents rest ({[py_id parent]} ∪ seen_containers)
                 (product_elements ++ [parent])
      | Raise _ => price_parents rest seen_containers product_elements
      end
  end.

(** Lines 947-951: [for elem in product_elements] appends to the list it
    runs over, so the elements appended are visited in their turn.  [todo]
    is the part of the list not visited yet; [None] when the fuel runs out
    first. *)
Fixpoint append_unseen (fuel : nat) (todo : list E) (product_elements : list E)
    (seen_element_ids : gset nat) : option (list E * gset nat) :=
  match todo with
  | [] => Some (product_elements, seen_element_ids)
  | elem :: rest =>
      match fuel with
      | O => None
      | S fuel' =>
          if bool_decide (py_id elem ∈ seen_element_ids)
          then append_unseen fuel' rest product_elements seen_element_ids
          else append_unseen fuel' (rest ++ [elem]) (product_elements ++ [elem])
                 ({[py_id elem]} ∪ seen_element_ids)
      end
  end.

Definition price_tier (fuel : nat) (product_elements : list E)
    (seen_element_ids : gset nat) (w : W) : option ((list E * gset nat) * W) :=
  if (length product_elements <? 10)%nat then
    match driver_find_elements XPATH price_xpath w with
    | (Ok price_containers, w') =>
        let product_elements :=
          price_parents (list_slice_to 100 price_containers) ∅ product_elements in
        r ← append_unseen fuel product_elements product_elements seen_element_ids;
        Some (r, w')
    | (Raise _, w') => Some ((product_elements, seen_element_ids), w')
    end
  else Some ((product_elements, seen_element_ids), w).

(** *** By links, lines 957-995 *)

(** Lines 968-980 for one link. *)
Definition link_is_product (link : E) : exc bool :=
  a ← get_attribute link "href";
  let href := or_empty a in
  if is_category_href href then Ok false
  else
    imgs ← find_elements link TAG_NAME "img";
    let has_img := (0 <? length imgs)%nat in
    t ← text link;
    let has_text := str_truthy (strip t) && (5 <? len (strip t)) in
    let has_price := searches Patterns.price t in
    Ok (has_img && (has_text || has_price) && contains "heb.com" href).

(** Lines 966-984. *)
Fixpoint more_links (all_links : list E) (product_links : list E) : list E :=
  match all_links with
  | [] => product_links
  | link :: rest =>
      match link_is_product link with
      | Ok true =>
          if elem_in link product_links then more_links rest product_links
          else more_links rest (product_links ++ [link])
      | _ => more_links rest product_links
      end
  end.

Definition link_tier (product_elements : list E) (seen_element_ids : gset nat)
    : M W (list E * gset nat) :=
  if (length product_elements <? 50)%nat then
    try_M
      (product_links ← driver_find_elements CSS_SELECTOR
                         "a[href*='/product/'], a[href*='/p/']";
       all_links ← driver_find_elements CSS_SELECTOR "a";
       let product_links := more_links all_links product_links in
       mret (add_unseen product_links product_elements seen_element_ids))
      (mret (product_elements, seen_element_ids))
  else mret (product_elements, seen_element_ids).

(** *** By structure, lines 998-1044 *)

(** Lines 1008-1031 for one element. *)
Definition looks_like_product (elem : E) : exc bool :=
  imgs ← find_elements elem TAG_NAME "img";
  let has_img := (0 <? length imgs)%nat in
  t ← text elem;
  let has_text := str_truthy (strip t) && (10 <? len (strip t)) in
  links ← find_elements elem TAG_NAME "a";
  let has_link := (0 <? length links)%nat in
  let has_price := searches Patterns.price t in
  let href :=
    if has_link then
      try_except
        (link_elem ← find_element elem TAG_NAME "a";
         a ← get_attribute link_elem "href";
         mret (Some (or_empty a)))
        None
    else None in
  if truthy href && is_category_href (or_empty href) then Ok false
  else if has_img && (has_text || has_price) && has_link then
    '(width, height) ← size elem;
    Ok ((100 <? width) && (100 <? height))
  else Ok false.

(** Lines 1005-1033. *)
Fixpoint potential_products_of (all_elements : list E) (potential_products : list E)
    : list E :=
  match all_elements with
  | [] => potential_products
  | elem :: rest =>
      match looks_like_product elem with
      | Ok true => potential_products_of rest (potential_products ++ [elem])
      | _ => potential_products_of rest potential_products
      end
  end.

Definition structure_tier (product_elements : list E) (seen_element_ids : gset nat)
    : M W (list E * gset nat) :=
  if (length product_elements <? 30)%nat then
    try_M
      (all_elements ← driver_find_elements CSS_SELECTOR "div, article, section, li";
       let potential_products :=
         potential_products_of (list_slice_to 500 all_elements) [] in
       mret (add_unseen (list_slice_to 100 potential_products) product_elements
               seen_element_ids))
      (mret (product_elements, seen_element_ids))
  else mret (product_elements, seen_element_ids).

(** *** By script, lines 1058-1098 *)

(** Lines 1084-1095. *)
Fixpoint add_validated (js_elements : list E) (product_elements : list E)
    (seen_element_ids : gset nat) : list E * gset nat :=
  match js_elements with
  | [] => (product_elements, seen_element_ids)
  | elem :: rest =>
      if bool_decide (py_id elem ∈ seen_element_ids)
      then add_validated rest product_elements seen_element_ids
      else
        match (imgs ← find_elements elem TAG_NAME "img";
               let has_img := (0 <? length imgs)%nat in
               t ← text elem;
               let has_text := str_truthy (strip t) && (5 <? len (strip t)) in
               Ok (has_img && has_text)) with
        | Ok true => add_validated rest (product_elements ++ [elem])
                       ({[py_id elem]} ∪ seen_element_ids)
        | _ => add_validated rest product_elements seen_element_ids
        end
  end.

Definition script_tier (product_elements : list E) (seen_element_ids : gset nat)
    : M W (list E * gset nat) :=
  if (length product_elements <? 20)%nat then
    try_M
      (product_count ← count_product_like;
       if 0 <? product_count then
         js_elements ← driver_find_elements CSS_SELECTOR "div, article, li, a";
         mret (add_validated (list_slice_to 200 js_elements) product_elements
                 seen_element_ids)
       else mret (product_elements, seen_element_ids))
      (mret (product_elements, seen_element_ids))
  else mret (product_elements, seen_element_ids).

(** *** Lines 925-1098 *)

Definition fallback_tiers_fuel (fuel : nat) (product_elements : list E)
    (seen_element_ids : gset nat) (w : W) : option (list E * W) :=
  '((product_elements, seen_element_ids), w) ←
    price_tier fuel product_elements seen_element_ids w;
  let '(r, w) := link_tier product_elements seen_element_ids w in
  let '(product_elements, seen_element_ids) :=
    match r with Ok st => st | Raise _ => (product_elements, seen_element_ids) end in
  let '(r, w) := structure_tier product_elements seen_element_ids w in
  let '(product_elements, seen_element_ids) :=
    match r with Ok st => st | Raise _ => (product_elements, seen_element_ids) end in
  let product_elements := unique_by_id product_elements ∅ [] in
  let '(r, w) := script_tier product_elements seen_element_ids w in
  let '(product_elements, seen_element_ids) :=
    match r with Ok st => st | Raise _ => (product_elements, seen_element_ids) end in
  Some (product_elements, w).

(** Enough fuel for any run: the loop of lines 947-951 visits each element
    of its list once and appends at most one element per visit; the list has
    at most 100 elements more than the cascade gave. *)
Definition fallback_tiers (product_elements : list E) (seen_element_ids : gset nat)
    : W → option (list E * W) :=
  fallback_tiers_fuel (2 * (length product_elements + 100)) product_elements
    seen_element_ids.
End LaterTiers.

(** ** An in-memory page

    A small implementation of the two interfaces, used to run the scraper on
    concrete pages.  A node lists its children; tag-name and [.//*] queries
    are computed from them.  For CSS selectors a node carries the table of
    the selectors that match something below it. *)

Module Fake.

#[warnings="-register-all"]
Inductive Node := mkNode {
  node_id : nat;
  node_tag : string;
  node_attrs : list (string * string);
  node_text : string;
  node_size : Z * Z;
  node_kids : list Node;
  node_css : list (string * list Node)
}.

Fixpoint descendants (n : Node) : list Node :=
  (fix go (ks : list Node) : list Node :=
     match ks with
     | [] => []
     | k :: ks' => k :: descendants k ++ go ks'
     end) (node_kids n).

Definition lookup {A} (key : string) (table : list (string * A)) : option A :=
  snd <$> find (λ kv, String.eqb (fst kv) key) table.

Definition node_find (n : Node) (by_ : By) (value : string) : list Node :=
  match by_ with
  | TAG_NAME => filter (λ d, String.eqb (node_tag d) value = true) (descendants n)
  | XPATH => if String.eqb value ".//*" then descendants n else []
  | CSS_SELECTOR => default [] (lookup value (node_css n))
  end.

(** [innerHTML] and [outerHTML], which every element has: the markup of
    the children, then the text. *)
Fixpoint inner_html (n : Node) : string :=
  (fix go (ks : list Node) : string :=
     match ks with
     | [] => node_text n
     | k :: ks' =>
         "<" +:+ node_tag k +:+ ">" +:+ inner_html k +:+ "</" +:+ node_tag k
           +:+ ">" +:+ go ks'
     end) (node_kids n).

Definition outer_html (n : Node) : string :=
  "<" +:+ node_tag n +:+ ">" +:+ inner_html n +:+ "</" +:+ node_tag n +:+ ">".

Definition node_attribute (n : Node) (name : string) : option string :=
  if String.eqb name "outerHTML" then Some (outer_html n)
  else if String.eqb name "innerHTML" then Some (inner_html n)
  else lookup name (node_attrs n).

Global Instance node_element : WebElement Node := {|
  py_id := node_id;
  tag_name n := Ok (node_tag n);
  text n := Ok (node_text n);
  get_attribute n name := Ok (node_attribute n name);
  find_elements n by_ value := Ok (node_find n by_ value);
  size n := Ok (node_size n);
  is_displayed n := Ok true
|}.

(** A page: what the driver's CSS queries match, what the later tiers of
    the candidate search return on each call, which scripts fail, and the
    document height. *)
Record Browser := mkBrowser {
  page_css : list (string * list Node);
  later_tiers : list (list Node);
  scripts_fail : Script Node → bool;
  height : Z
}.

Global Instance browser_session : Session Browser Node := {|
  driver_get _ w := (Ok (), w);
  execute_script script w :=
    if scripts_fail w script then (Raise (WebDriverException "script failed"), w)
    else match script with
         | ReturnScrollHeight => (Ok (height w), w)
         | _ => (Ok 0, w)
         end;
  driver_find_elements by_ value w :=
    match by_ with
    | CSS_SELECTOR => (Ok (default [] (lookup value (page_css w))), w)
    | _ => (Ok [], w)
    end;
  page_source w := (Ok "<html>product price</html>", w);
  current_url w := (Ok "https://heb.com", w);
  driver_title w := (Ok "H-E-B", w);
  wait_until_complete _ w := (Ok (), w);
  write_file _ _ w := (Ok (), w);
  time_sleep _ w := w;
  time_time _ := 0%Q
|}.

Global Instance browser_unembedded : Unembedded Browser Node := {|
  scroll_horizontal_carousels w := w;
  locate_fallbacks product_elements _ w :=
    match later_tiers w with
    | [] => (product_elements, w)
    | found :: rest =>
        (product_elements ++ found,
         mkBrowser (page_css w) rest (scripts_fail w) (height w))
    end
|}.

(** A second kind of page: every script works and returns the same height,
    every element query of the driver fails.  The state counts the calls. *)
Inductive Flaky := flaky (calls : nat).

Definition tick {A} (r : exc A) : M Flaky A :=
  λ '(flaky n), (r, flaky (S n)).

Global Instance flaky_session : Session Flaky Node := {|
  driver_get _ := tick (Ok ());
  execute_script _ := tick (Ok 1000);
  driver_find_elements _ _ := tick (Raise (WebDriverException "query failed"));
  page_source := tick (Ok EmptyString);
  current_url := tick (Ok "https://heb.com");
  driver_title := tick (Ok "H-E-B");
  wait_until_complete _ := tick (Ok ());
  write_file _ _ := tick (Ok ());
  time_sleep _ w := w;
  time_time _ := 0%Q
|}.

Definition img (id_ : nat) (src : string) : Node :=
  mkNode id_ "img" [("src", src)] EmptyString (200, 200) [] [].

(** [<div><img src=...>text</div>] *)
Definition card (id_ : nat) (src text_ : string) : Node :=
  let i := img (S id_) src in
  mkNode id_ "div" [] text_ (300, 300) [i] [(all_images_selector, [i])].

(** [<a href=...><img src=...>text</a>] *)
Definition link_card (id_ : nat) (href src text_ : string) : Node :=
  let i := img (S id_) src in
  mkNode id_ "a" [("href", href)] text_ (300, 300) [i]
    [(all_images_selector, [i])].

End Fake.



(** ** Pages used as examples *)

Module Pages.
Import Fake.

Definition works : Script Node → bool := λ _, false.

(** [<div data-testid=product-card><img src=/img/cereal.jpg>Brand X Cereal
    12oz $3.99</div>], which the first selector of the cascade matches. *)
Definition cereal_card : Node :=
  let i := img 2 "/img/cereal.jpg" in
  mkNode 1 "div" [("data-testid", "product-card")] "Brand X Cereal 12oz $3.99"
    (300, 300) [i] [(all_images_selector, [i])].

Definition cereal_page : Browser :=
  mkBrowser [("[data-testid*='product']", [cereal_card]); ("img", [img 2 "/img/cereal.jpg"])]
    [] works 1000.

(** A link to another site whose path mentions the shop's domain. *)
Definition offsite_card : Node :=
  link_card 1 "https://example.org/heb.com/deal" "/img/deal.jpg" "Brand X Cereal 12oz".

Definition offsite_page : Browser := mkBrowser [] [[offsite_card]] works 1000.

(** [<div onclick=...><img src=/img/oats.jpg>Brand X Oats 18oz</div>], whose
    click handler is [location.href='heb.com/p/oats'], a URL without a
    scheme. *)
Definition click_card : Node :=
  let i := img 2 "/img/oats.jpg" in
  mkNode 1 "div" [("onclick", "location.href='heb.com/p/oats'")] "Brand X Oats 18oz"
    (300, 300) [i] [(all_images_selector, [i])].

Definition click_page : Browser := mkBrowser [] [[click_card]] works 1000.

(** [<div><img src=/img/a.jpg>$12.99</div>] *)
Definition price_only_card : Node := card 1 "/img/a.jpg" "$12.99".

(** [<div><img src=/img/produce.jpg>Shop Fresh Produce</div>] *)
Definition produce_card : Node := card 1 "/img/produce.jpg" "Shop Fresh Produce".

(** A page on which reading the scroll offset fails. *)
Definition stuck_page : Browser :=
  mkBrowser [] []
    (λ s, match s with ReturnPageYOffset => true | _ => false end) 1000.

(** A page that never grows: the height and the images stay the same. *)
Definition plateau_page : Browser :=
  mkBrowser [("img", [img 1 "/img/a.jpg"])] [] works 1000.

Definition pie (id_ : nat) (name : string) : Node :=
  link_card id_ ("https://heb.com/p/" +:+ name) "/img/pie.jpg" (name +:+ " Pie 10oz").

(** The first pass finds A, B, C; the second finds B, C, D. *)
Definition two_pass_page : Browser :=
  mkBrowser [] [[pie 1 "A"; pie 3 "B"; pie 5 "C"]; [pie 3 "B"; pie 5 "C"; pie 7 "D"]]
    works 1000.

End Pages.

(** ** An element that is gone

    Every query raises, as on a stale element reference. *)

Module Stale.

Inductive Gone := gone.

Definition stale {A} : exc A :=
  Raise (WebDriverException "stale element reference").

Global Instance gone_element : WebElement Gone := {|
  py_id _ := 0%nat;
  tag_name _ := stale;
  text _ := stale;
  get_attribute _ _ := stale;
  find_elements _ _ _ := stale;
  size _ := stale;
  is_displayed _ := stale
|}.

End Stale.

(** ** A page that stays the same

    Every script works and returns the same number; every query of the
    driver finds the same image.  The state counts the calls. *)

Module Still.

Inductive Page := page (calls : nat).

Definition tick {A} (r : exc A) : M Page A :=
  λ '(page n), (r, page (S n)).

Global Instance still_session : Session Page Fake.Node := {|
  driver_get _ := tick (Ok ());
  execute_script _ := tick (Ok 1000);
  driver_find_elements _ _ := tick (Ok [Fake.img 1 "/img/a.jpg"]);
  page_source := tick (Ok "<html>product price</html>");
  current_url := tick (Ok "https://heb.com");
  driver_title := tick (Ok "H-E-B");
  wait_until_complete _ := tick (Ok ());
  write_file _ _ := tick (Ok ());
  time_sleep _ w := w;
  time_time _ := 0%Q
|}.

End Still.

(** ** A shelf of cards

    A page of [cards] cards, each with one price tag.  The price query of
    the driver finds the tags, and the ancestor query of a tag finds its
    card; nothing else is found. *)

Module Shelf.

Inductive Part := card (i : nat) | tag (i : nat).

Global Instance part_element : WebElement Part := {|
  py_id p := match p with card i => (2 * i)%nat | tag i => (2 * i + 1)%nat end;
  tag_name p := Ok (match p with card _ => "div" | tag _ => "span" end);
  text _ := Ok "$1.00";
  get_attribute _ _ := Ok None;
  find_elements p by_ value :=
    match p, by_ with
    | tag i, XPATH => Ok (if String.eqb value ancestor_xpath then [card i] else [])
    | _, _ => Ok []
    end;
  size _ := Ok (300, 300);
  is_displayed _ := Ok true
|}.

Global Instance part_remote : Remote Part := {|
  remote_id p := String (ascii_of_nat (py_id p)) EmptyString
|}.

Inductive Page := shelf (cards : nat).

Global Instance shelf_session : Session Page Part := {|
  driver_get _ w := (Ok (), w);
  execute_script _ w := (Ok 0, w);
  driver_find_elements by_ value w :=
    match by_, w with
    | XPATH, shelf n =>
        (Ok (if String.eqb value price_xpath then tag <$> seq 0 n else []), w)
    | _, _ => (Ok [], w)
    end;
  page_source w := (Ok EmptyString, w);
  current_url w := (Ok "https://heb.com", w);
  driver_title w := (Ok "H-E-B", w);
  wait_until_complete _ w := (Ok (), w);
  write_file _ _ w := (Ok (), w);
  time_sleep _ w := w;
  time_time _ := 0%Q
|}.

Global Instance shelf_script : ProductScript Page := {|
  count_product_like w := (Ok 0, w)
|}.

End Shelf.

(** ** Notions used in the statements *)

(** What the specification says about records, in its own words. *)
Module Spec.

(** DedupKey: the hyperlink if present, else the title. *)
Definition DedupKey (r : Product) : option string :=
match product_hyperlink r with
| Some h => Some h
| None => product_title r
end.

(** The characters of a URL up to the end of its host. *)
Fixpoint host_part (s : string) : string :=
match s with
| EmptyString => EmptyString
| String c s' =>
    if Ascii.eqb c "/" || Ascii.eqb c "?" || Ascii.eqb c "#" || Ascii.eqb c ":"
    then EmptyString
    else String c (host_part s')
end.

(** The host of an absolute http(s) URL. *)
Definition url_host (url : string) : option string :=
if startswith url "https://" then Some (host_part (String.substring 8 (String.length url) url))
else if startswith url "http://" then Some (host_part (String.substring 7 (String.length url) url))
else None.

Definition endswith (s p : string) : bool :=
startswith (String.rev s) (String.rev p).

(** An absolute URL scoped to the target site's domain: the host is the
    domain or one of its subdomains. *)
Definition site_scoped (url : string) : bool :=
match url_host url with
| Some host => String.eqb host "heb.com" || endswith host ".heb.com"
| None => false
end.

(** At least one of title, price, image is non-null. *)
Definition has_evidence (r : Product) : Prop :=
product_title r ≠ None ∨ product_price r ≠ None ∨ product_image r ≠ None.

End Spec.

(** The words matched by a pattern, anchors left aside. *)
Fixpoint all_chars (c : ascii → bool) (s : string) : bool :=
match s with
| EmptyString => true
| String a s' => c a && all_chars c s'
end.

Fixpoint lang (p : Re.pattern) (u : string) : Prop :=
match p with
| [] => u = EmptyString
| Re.Cls c Re.One :: p' => ∃ a u', u = String a u' ∧ c a = true ∧ lang p' u'
| Re.Cls c Re.Opt :: p' =>
    lang p' u ∨ ∃ a u', u = String a u' ∧ c a = true ∧ lang p' u'
| Re.Cls c Re.Star :: p' =>
    ∃ v u', u = v +:+ u' ∧ all_chars c v = true ∧ lang p' u'
| Re.Cls c Re.Plus :: p' =>
    ∃ a v u', u = String a (v +:+ u') ∧ c a = true ∧ all_chars c v = true ∧ lang p' u'
| Re.Bol :: p' => lang p' u
| Re.Eol :: p' => lang p' u
end.

(** The text between quotes that the click-handler pattern captures in some
    attribute value. *)
Definition from_click_handler (h : string) : Prop :=
  ∃ onclick m, Re.re_search Patterns.onclick_href onclick = Some m ∧ h = Re.group1 m.

(** What the four strategies guarantee of a hyperlink: it names the site, and
    it starts with [http] unless it was read out of a click handler. *)
Definition good_link (h : string) : Prop :=
  contains "heb.com" h = true ∧
  (startswith h "http" = true ∨ from_click_handler h).

Definition site_link (p : Product) : Prop :=
  ∀ h, product_hyperlink p = Some h → good_link h.

(** The title, when present, is a slice of at most 150 characters. *)
Definition short_title (p : Product) : Prop :=
  ∀ t, product_title p = Some t → ∃ x, t = slice_to 150 x.

(** What lines 1140-1158 require of a record before it is appended. *)
Definition accepted (r : Product) : Prop :=
  has_essential_data r = true ∧ is_category r = false ∧
  truthy (unique_key r) = true ∧ site_link r ∧ short_title r.

Definition keys_of (rs : list Product) : gset string :=
  list_to_set (omap unique_key rs).

(** The records one pass appends, given the keys seen before it. *)
Definition pass_ok (seen : gset string) (new : list Product) : Prop :=
  Forall accepted new ∧ NoDup (unique_key <$> new) ∧
  ∀ r k, r ∈ new → unique_key r = Some k → k ∉ seen.

(** The records collected so far, against the keys seen so far. *)
Definition coherent (ps : list Product) (seen : gset string) : Prop :=
  Forall accepted ps ∧ NoDup (unique_key <$> ps) ∧
  ∀ r k, r ∈ ps → unique_key r = Some k → k ∈ seen.

(** The state of a scraper between two calls of its methods. *)
Definition consistent (self : HEBScraper) : Prop :=
  coherent (products self) (seen_urls self).

(** Every truthy hyperlink and title of [l] is already in the sets of the
    merge. *)
Definition covered (l : list Product) (urls titles : gset string) : Prop :=
  ∀ p, p ∈ l →
    (∀ u, product_hyperlink p = Some u → str_truthy u = true → u ∈ urls) ∧
    (∀ t, product_title p = Some t → str_truthy t = true → t ∈ titles).

(** The scripts that [scroll_page] runs outside its [try] blocks. *)
Definition plain_script {E} (s : Script E) : bool :=
  match s with
  | ScrollIntoViewCenter _ | ClickElement _ => false
  | _ => true
  end.

(** The scripts that run outside the [try] blocks all succeed. *)
Definition scripts_succeed (W E : Type) `{Session W E} : Prop :=
  ∀ (s : Script E) (w : W), plain_script s = true →
    ∃ z w', execute_script s w = (Ok z, w').

(** The counters when the scroll loop starts a turn: the streak without new
    images is no longer than the streak without growth, which is below 5. *)
Definition turn_start (st : ScrollState) : Prop :=
  0 <= no_product_change_count st ∧
  no_product_change_count st <= no_change_count st ∧
  no_change_count st < 5.

(** Lines 503-539 of a turn, the statements before the count of images; the
    value is [new_height]. *)
Definition until_count `{WebElement E} `{Session W E} (scroll_pause_time : Q)
    : M W Z :=
  current_scroll ← execute_script ReturnPageYOffset;
  let scroll_amount := 800 in
  _ ← execute_script (ScrollTo (current_scroll + scroll_amount));
  _ ← sleep scroll_pause_time;
  _ ← click_load_more;
  execute_script ReturnScrollHeight.

(** [P] is kept by a step that fills the record. *)
Definition keeps {A} (P : Product → Prop) (m : M Product A) : Prop :=
  ∀ p, P p → P (snd (m p)).

(** Lines 544-549 when the page shows [current_images] images. *)
Definition counted (current_images : Z) (st : ScrollState) : ScrollState :=
  if last_product_count st <? current_images
  then mkScroll (last_height st) current_images (scrolls st) (no_change_count st) 0
  else mkScroll (last_height st) (last_product_count st) (scrolls st)
         (no_change_count st) (no_product_change_count st + 1).

(** One turn of the scroll loop on a page that shows [current_images] images
    and whose height is [last_height] at every reading. *)
Definition plateau_turn (current_images : Z) (st : ScrollState) : Turn :=
  let st := counted current_images st in
  let st := mkScroll (last_height st) (last_product_count st) (scrolls st)
              (no_change_count st + 1) (no_product_change_count st) in
  if 5 <=? no_change_count st then
    if 5 <=? no_product_change_count st then Break st
    else advance (reset_counts st) (last_height st)
  else advance st (last_height st).

(** The loop on such a page. *)
Fixpoint plateau_loop (fuel : nat) (max_scrolls current_images : Z)
    (st : ScrollState) (turns : nat) : option (ScrollState * nat) :=
  match fuel with
  | O => None
  | S fuel' =>
      if scrolls st <? max_scrolls then
        match plateau_turn current_images st with
        | Next st' => plateau_loop fuel' max_scrolls current_images st' (S turns)
        | Break st' => Some (st', S turns)
        end
      else Some (st, turns)
  end.

(** A category entry: an absolute URL that names the site, and a name. *)
Definition good_category (c : Category) : Prop :=
  contains "heb.com" (url c) = true ∧ startswith (url c) "http" = true ∧
  str_truthy (name c) = true.

(** [categories] and [category_urls] during the discovery. *)
Definition discovered (st : list Category * gset string) : Prop :=
  Forall good_category st.1 ∧ NoDup (url <$> st.1) ∧ ∀ c, c ∈ st.1 → url c ∈ st.2.

(** Every element of the list has its identity in the set. *)
Definition tracked `{WebElement E} (product_elements : list E)
    (seen_element_ids : gset nat) : Prop :=
  ∀ e, e ∈ product_elements → py_id e ∈ seen_element_ids.

(** The image, when present, is an absolute URL. *)
Definition http_image (p : Product) : Prop :=
  ∀ v, product_image p = Some v → startswith v "http" = true.

(** The price, when present, is a word of one of the three price patterns. *)
Definition price_word (v : string) : Prop :=
  ∃ r, r ∈ price_patterns ∧ lang (Re.before r) v.

Definition price_shaped (p : Product) : Prop :=
  ∀ v, product_price p = Some v → price_word v.

(** The title, when present, has between 5 and 150 characters. *)
Definition sized_title (p : Product) : Prop :=
  ∀ t, product_title p = Some t → 5 <= len t <= 150.

(** The records of the candidates in the order of [enumerate], the first
    with index [idx]. *)
Fixpoint extracted `{WebElement E} (els : list E) (idx : Z) : list Product :=
  match els with
  | [] => []
  | element :: rest => extract_product_data element idx :: extracted rest (idx + 1)
  end.

(** What lines 1140-1156 ask of a record, apart from its key being new. *)
Definition qualifies (r : Product) : bool :=
  has_essential_data r && negb (is_category r) && truthy (unique_key r).

(** One of the strategies of lines 1187-1222 finds a link: the [href] of the
    candidate itself, of the first anchor inside it, or of an anchor inside
    it that names the site. *)
Definition anchor_link `{WebElement E} (element : E) : Prop :=
  (∃ h, link_of_self element = Ok (Some h)) ∨
  (∃ h, link_of_first_child element = Some h) ∨
  (∃ h, link_of_any_child element = Some h).

(** The hyperlink, when present, starts with [http]. *)
Definition http_link (p : Product) : Prop :=
  ∀ h, product_hyperlink p = Some h → startswith h "http" = true.

(** The record is what [extract_product_data] reads off some candidate. *)
Definition from_candidate (E : Type) `{WebElement E} (r : Product) : Prop :=
  ∃ (element : E) index, r = extract_product_data element index.

(** Lines 241-246 of [scrape_category_page], between the two passes. *)
Definition between_passes `{WebElement E} `{Session W E} : M W unit :=
  _ ← sleep 3;
  _ ← execute_script ScrollToBottom;
  _ ← sleep 2;
  _ ← execute_script (ScrollTo 0);
  sleep 2.

(** The scraper once [self.products.extend(products)] of line 236 has run. *)
Definition extended (self : HEBScraper) (products_pass1 : list Product)
    : HEBScraper :=
  mkScraper (products self ++ products_pass1) (seen_urls self) (debug_saved self).

(** The test of line 258 on the sets of lines 251-252: [p] has a non-empty
    hyperlink that is not in [urls], or a non-empty title that is not in
    [titles]. *)
Definition fresh (urls titles : gset string) (p : Product) : Prop :=
  (∃ u, product_hyperlink p = Some u ∧ str_truthy u = true ∧ u ∉ urls) ∨
  (∃ t, product_title p = Some t ∧ str_truthy t = true ∧ t ∉ titles).

(** [p] has a non-empty hyperlink that no record of [ps] has, or a
    non-empty title that no record of [ps] has. *)
Definition new_to (ps : list Product) (p : Product) : Prop :=
  (∃ u, product_hyperlink p = Some u ∧ str_truthy u = true ∧
        ∀ q, q ∈ ps → product_hyperlink q ≠ Some u) ∨
  (∃ t, product_title p = Some t ∧ str_truthy t = true ∧
        ∀ q, q ∈ ps → product_title q ≠ Some t).

(** Every non-empty hyperlink and title of [p] is that of a record of [ps]. *)
Definition held_by (ps : list Product) (p : Product) : Prop :=
  (∀ u, product_hyperlink p = Some u → str_truthy u = true →
        ∃ q, q ∈ ps ∧ product_hyperlink q = Some u) ∧
  (∀ t, product_title p = Some t → str_truthy t = true →
        ∃ q, q ∈ ps ∧ product_title q = Some t).

(** * Properties *)

Set Warnings "-clear-no-such-hyp".

(** ** Strings *)

Lemma slice_to_length n s : (String.length (slice_to n s) ≤ n)%nat.
Proof.
  revert s; induction n as [|n IH]; intros [|c s]; simpl; try lia.
  specialize (IH s). lia.
Qed.

Lemma app_cons c a b : String c a +:+ b = String c (a +:+ b).
Proof. reflexivity. Qed.

Lemma app_nil b : EmptyString +:+ b = b.
Proof. reflexivity. Qed.

Lemma length_app a b :
  String.length (a +:+ b) = (String.length a + String.length b)%nat.
Proof.
  induction a as [|c a IH]; [done|].
  rewrite app_cons. simpl. by rewrite IH.
Qed.

Lemma app_assoc_str a b c : (a +:+ b) +:+ c = a +:+ (b +:+ c).
Proof.
  induction a as [|x a IH]; [done|].
  by rewrite !app_cons, IH.
Qed.

Lemma slice_to_app a b : slice_to (String.length a) (a +:+ b) = a.
Proof.
  induction a as [|c a IH]; [by destruct b|].
  rewrite app_cons. simpl. by rewrite IH.
Qed.

Lemma consumed_app a b : Re.consumed (a +:+ b) b = a.
Proof.
  unfold Re.consumed. rewrite length_app.
  replace (String.length a + String.length b - String.length b)%nat
    with (String.length a) by lia.
  apply slice_to_app.
Qed.

Lemma startswith_app p s : startswith (p +:+ s) p = true.
Proof.
  induction p as [|c p IH]; [done|].
  rewrite app_cons. simpl. rewrite Ascii.eqb_refl. exact IH.
Qed.

Lemma contains_here p s : startswith s p = true → contains p s = true.
Proof. intros Hs. destruct s; simpl; rewrite Hs; done. Qed.

Lemma contains_app_l p a s : contains p s = true → contains p (a +:+ s) = true.
Proof.
  intros Hs. induction a as [|c a IH]; [done|].
  rewrite app_cons. simpl. rewrite IH. apply orb_true_r.
Qed.

Lemma contains_middle p a b : contains p (a +:+ p +:+ b) = true.
Proof. apply contains_app_l, contains_here, startswith_app. Qed.

Lemma contains_truthy p s :
  str_truthy p = true → contains p s = true → str_truthy s = true.
Proof. destruct p, s; simpl; done. Qed.

(** ** Sleeping *)

Lemma sleep_true `{Session W E} seconds (w : W) :
  Qle_bool 0 seconds = true → sleep seconds w = (Ok (), time_sleep seconds w).
Proof. intros Hs. unfold sleep. by rewrite Hs. Qed.

Lemma sleep_ok `{Session W E} seconds (w : W) :
  (0 <= seconds)%Q → sleep seconds w = (Ok (), time_sleep seconds w).
Proof. intros Hs. apply sleep_true. by apply Qle_bool_iff. Qed.

Lemma sleep_twice_ok `{Session W E} seconds (w : W) :
  (0 <= seconds)%Q →
  sleep (seconds * 2) w = (Ok (), time_sleep (seconds * 2) w).
Proof.
  intros Hs. apply sleep_ok. apply Qmult_le_0_compat; [done|]. by vm_compute.
Qed.

(** ** The matcher on a few texts

    The values are those of Python's [re] on the same texts. *)

Example search_price :
  Re.group0 <$> Re.re_search Patterns.price "abc $12.99 each" = Some "$12.99" ∧
  Re.group0 <$> Re.re_search Patterns.price "$1,2.3.4" = Some "$1,2.3" ∧
  Re.group0 <$> Re.re_search Patterns.price "$.99" = None ∧
  Re.group0 <$> Re.re_search Patterns.price_spaced "$ 12.99" = Some "$ 12.99" ∧
  Re.group0 <$> Re.re_search Patterns.price_reversed "Total: 3.50   $ now"
    = Some "3.50   $".
Proof. repeat split; vm_compute; reflexivity. Qed.

Example match_price_only :
  matches Patterns.price_only "$12.99" = true ∧
  matches Patterns.price_only "$12.99 each" = false ∧
  matches Patterns.price_prefix "$12.99 each" = true ∧
  matches Patterns.price_prefix " $12.99" = false.
Proof. repeat split; vm_compute; reflexivity. Qed.

Example search_groups :
  Re.group1 <$> Re.re_search Patterns.onclick_href "a('b')c('xheb.comy')"
    = Some "xheb.comy" ∧
  Re.group1 <$> Re.re_search Patterns.onclick_href "'heb.com" = None ∧
  Re.group1 <$> Re.re_search Patterns.background_url "background-image: url('/img/x.jpg');"
    = Some "/img/x.jpg" ∧
  Re.group1 <$> Re.re_search Patterns.background_url "url(/a.jpg); color: rgb(1,2,3)"
    = Some "/a.jpg); color: rgb(1,2,3".
Proof. repeat split; vm_compute; reflexivity. Qed.

Example strings :
  strip "  a b  " = "a b" ∧
  split "," "x,y , z w," = ["x"; "y "; " z w"; EmptyString] ∧
  split_ws "  ab  cd e " = ["ab"; "cd"; "e"] ∧
  lower "AbC Z[" = "abc z[" ∧
  slice_to 3 "abcdef" = "abc".
Proof. repeat split; vm_compute; reflexivity. Qed.

(** ** The matcher only returns words of the pattern *)

Lemma greedy_sound {R} c pos s (k : nat → string → option R) r :
  Re.greedy c pos s k = Some r →
  ∃ v s', s = v +:+ s' ∧ all_chars c v = true ∧
          k (pos + String.length v)%nat s' = Some r.
Proof.
  revert pos. induction s as [|a s IH]; intros pos; simpl.
  - intros Hk. exists EmptyString, EmptyString. rewrite Nat.add_0_r. done.
  - destruct (c a) eqn:Hc.
    + destruct (Re.greedy c (S pos) s k) as [r'|] eqn:Hg.
      * intros [= <-]. destruct (IH _ Hg) as (v & s' & -> & Hv & Hk).
        exists (String a v), s'. simpl. rewrite Hc, Hv.
        replace (pos + S (String.length v))%nat with (S pos + String.length v)%nat by lia.
        done.
      * intros Hk. exists EmptyString, (String a s). rewrite Nat.add_0_r. done.
    + intros Hk. exists EmptyString, (String a s). rewrite Nat.add_0_r. done.
Qed.

Lemma run_sound {R} p pos s (k : nat → string → option R) r :
  Re.run p pos s k = Some r →
  ∃ u s', s = u +:+ s' ∧ lang p u ∧ k (pos + String.length u)%nat s' = Some r.
Proof.
  revert pos s k r. induction p as [|i p IH]; intros pos s k r; simpl.
  - intros Hk. exists EmptyString, s. rewrite Nat.add_0_r. done.
  - destruct i as [c [| | |]| |].
    + destruct s as [|a s]; [done|]. destruct (c a) eqn:Hc; [|done].
      intros Hr. destruct (IH _ _ _ _ Hr) as (u & s' & -> & Hu & Hk).
      exists (String a u), s'. simpl.
      replace (pos + S (String.length u))%nat with (S pos + String.length u)%nat by lia.
      split; [done|]. split; [|done]. by exists a, u.
    + assert (Hskip : Re.run p pos s k = Some r →
        ∃ u s', s = u +:+ s' ∧ (lang p u ∨ ∃ a u', u = String a u' ∧ c a = true ∧ lang p u')
                ∧ k (pos + String.length u)%nat s' = Some r).
      { intros Hr. destruct (IH _ _ _ _ Hr) as (u & s' & -> & Hu & Hk).
        exists u, s'. auto. }
      destruct s as [|a s]; [exact Hskip|].
      destruct (c a) eqn:Hc; [|exact Hskip].
      destruct (Re.run p (S pos) s k) as [r'|] eqn:Hr1; [|exact Hskip].
      intros [= <-]. destruct (IH _ _ _ _ Hr1) as (u & s' & -> & Hu & Hk).
      exists (String a u), s'. simpl.
      replace (pos + S (String.length u))%nat with (S pos + String.length u)%nat by lia.
      split; [done|]. split; [|done]. right. by exists a, u.
    + intros Hg. destruct (greedy_sound _ _ _ _ _ Hg) as (v & s1 & -> & Hv & Hr).
      destruct (IH _ _ _ _ Hr) as (u & s' & -> & Hu & Hk).
      exists (v +:+ u), s'. rewrite app_assoc_str, length_app.
      rewrite Nat.add_assoc. split; [done|]. split; [|done]. by exists v, u.
    + destruct s as [|a s]; [done|]. destruct (c a) eqn:Hc; [|done].
      intros Hg. destruct (greedy_sound _ _ _ _ _ Hg) as (v & s1 & -> & Hv & Hr).
      destruct (IH _ _ _ _ Hr) as (u & s' & -> & Hu & Hk).
      exists (String a (v +:+ u)), s'. rewrite app_cons, app_assoc_str. simpl.
      rewrite length_app.
      replace (pos + S (String.length v + String.length u))%nat
        with (S pos + String.length v + String.length u)%nat by lia.
      split; [done|]. split; [|done]. by exists a, v, u.
    + destruct (pos =? 0)%nat; [|done]. apply IH.
    + destruct (Re.at_end s); [|done]. apply IH.
Qed.

Lemma match_at_group r pos s m :
  Re.match_at r pos s = Some m → lang (Re.group r) (Re.group1 m).
Proof.
  unfold Re.match_at. intros Hm.
  destruct (run_sound _ _ _ _ _ Hm) as (u0 & s1 & -> & _ & Hm1).
  destruct (run_sound _ _ _ _ _ Hm1) as (g & s2 & -> & Hg & Hm2).
  destruct (run_sound _ _ _ _ _ Hm2) as (u2 & s3 & -> & _ & [= <-]).
  simpl. by rewrite consumed_app.
Qed.

Lemma re_search_group r s m :
  Re.re_search r s = Some m → lang (Re.group r) (Re.group1 m).
Proof.
  unfold Re.re_search. generalize 0%nat. induction s as [|a s IH]; intros pos; simpl.
  - destruct (Re.match_at r pos EmptyString) eqn:Hm; [|done].
    intros [= <-]. eapply match_at_group, Hm.
  - destruct (Re.match_at r pos (String a s)) eqn:Hm.
    + intros [= <-]. eapply match_at_group, Hm.
    + apply IH.
Qed.

Lemma lang_lit w u rest :
  lang (Re.lit w ++ rest) u → ∃ u', u = w +:+ u' ∧ lang rest u'.
Proof.
  revert u. induction w as [|c w IH]; intros u; simpl.
  - intros Hu. by exists u.
  - intros (a & u1 & -> & Ha & Hu1). apply Ascii.eqb_eq in Ha as <-.
    destruct (IH _ Hu1) as (u' & -> & Hrest). by exists u'.
Qed.

Lemma onclick_group_has_site s m :
  Re.re_search Patterns.onclick_href s = Some m →
  contains "heb.com" (Re.group1 m) = true.
Proof.
  intros Hm. apply re_search_group in Hm. simpl in Hm.
  destruct Hm as (v & u1 & -> & _ & Hu1).
  change (lang (Re.lit "heb.com" ++ [Re.Cls Re.not_quote Re.Star]) u1) in Hu1.
  apply lang_lit in Hu1 as (u' & -> & _).
  apply contains_middle.
Qed.

(** ** What the field extractor puts in a record *)

#[local] Arguments nonblank : simpl never.
#[local] Arguments absolute : simpl never.
#[local] Arguments title_ok : simpl never.
#[local] Arguments line_ok : simpl never.
#[local] Arguments title_length_ok : simpl never.
#[local] Arguments contains : simpl never.
#[local] Arguments strip : simpl never.
#[local] Arguments slice_to : simpl never.
#[local] Arguments Re.re_search : simpl never.
#[local] Arguments Re.re_match : simpl never.

Section FieldExtractorFacts.
Context `{WebElement E}.

Lemma keeps_bind {A B} P (m : M Product A) (f : A → M Product B) :
  keeps P m → (∀ a, keeps P (f a)) → keeps P (m ≫= f).
Proof.
  intros Hm Hf p Hp. unfold mbind, M_bind.
  specialize (Hm p Hp). destruct (m p) as [[a|e] p']; simpl in *; [|done].
  by apply Hf.
Qed.

Lemma keeps_lift {A} P (m : exc A) : keeps P (lift_exc m).
Proof. by intros p Hp. Qed.

Lemma keeps_bind_lift {A B} P (m : exc A) (f : A → M Product B) :
  (∀ a, m = Ok a → keeps P (f a)) → keeps P (lift_exc m ≫= f).
Proof.
  intros Hf p Hp. unfold mbind, M_bind, lift_exc.
  destruct m as [a|e]; simpl; [|done]. by apply Hf.
Qed.

Lemma keeps_get P : keeps P get_M.
Proof. by intros p Hp. Qed.

Lemma keeps_ret {A} P (a : A) : keeps P (mret a).
Proof. by intros p Hp. Qed.

Lemma keeps_modify P f : (∀ p, P p → P (f p)) → keeps P (modify_M f).
Proof. intros Hf p Hp. by apply Hf. Qed.

Lemma keeps_unless_set P get set strategy :
  (∀ p, P p → P (set (assign_found strategy (get p)) p)) →
  keeps P (unless_set get set strategy).
Proof.
  intros Hset. apply keeps_modify. intros p Hp.
  destruct (truthy (get p)); [done | by apply Hset].
Qed.

(** *** Hyperlinks *)

Lemma absolute_site h : contains "heb.com" h = true → contains "heb.com" (absolute h) = true.
Proof.
  intros Hh. unfold absolute.
  destruct (startswith h "http"); [done|].
  destruct (startswith h "/"); [by apply contains_app_l | by do 2 apply contains_app_l].
Qed.

Lemma absolute_http h : startswith (absolute h) "http" = true.
Proof.
  unfold absolute. destruct (startswith h "http") eqn:Hh; [done|].
  by destruct (startswith h "/").
Qed.

Lemma site_href_site href h : site_href href = Some h → good_link h.
Proof.
  unfold site_href. destruct href as [h0|]; [|done].
  destruct (nonblank (Some h0)); [|done].
  destruct (contains "heb.com" (absolute h0)) eqn:Hc; [|done].
  intros [= <-]. split; [done|]. left. apply absolute_http.
Qed.

Lemma link_of_self_site element h :
  link_of_self element = Ok (Some h) → good_link h.
Proof.
  unfold link_of_self. destruct (tag_name element) as [tn|]; simpl; [|done].
  destruct (String.eqb (lower tn) "a"); [|done].
  destruct (get_attribute element "href") as [href|]; simpl; [|done].
  intros [= Hh]. by eapply site_href_site.
Qed.

Lemma link_of_first_child_site element h :
  link_of_first_child element = Some h → good_link h.
Proof.
  unfold link_of_first_child.
  destruct (find_element element TAG_NAME "a") as [link_elem|]; simpl; [|done].
  destruct (get_attribute link_elem "href") as [href|]; simpl; [|done].
  apply site_href_site.
Qed.

Lemma first_site_link_site links h :
  first_site_link links = Ok (Some h) → good_link h.
Proof.
  induction links as [|link rest IH]; simpl; [done|].
  destruct (get_attribute link "href") as [[h0|]|]; simpl; [|exact IH|done].
  destruct (nonblank (Some h0) && contains "heb.com" h0) eqn:Hc; [|exact IH].
  intros [= <-]. apply andb_true_iff in Hc as [_ Hc].
  split; [by apply absolute_site|]. left. apply absolute_http.
Qed.

Lemma link_of_any_child_site element h :
  link_of_any_child element = Some h → good_link h.
Proof.
  unfold link_of_any_child.
  destruct (find_elements element TAG_NAME "a") as [links|]; simpl; [|done].
  destruct (first_site_link links) as [o|] eqn:Hl; simpl; [|done].
  intros ->. by eapply first_site_link_site.
Qed.

Lemma link_of_onclick_site element h :
  link_of_onclick element = Some h → good_link h.
Proof.
  unfold link_of_onclick.
  destruct (get_attribute element "onclick") as [a|]; simpl; [|done].
  destruct (Re.re_search Patterns.onclick_href (or_empty a)) as [m|] eqn:Hm; [|done].
  intros [= <-]. split; [by eapply onclick_group_has_site|].
  right. by exists (or_empty a), m.
Qed.

Lemma site_link_set_hyperlink strategy p :
  (∀ h, strategy = Some h → good_link h) →
  site_link p →
  site_link (set_hyperlink (assign_found strategy (product_hyperlink p)) p).
Proof.
  intros Hs Hp h. simpl. destruct strategy as [h'|]; simpl; [|apply Hp].
  intros [= <-]. by apply Hs.
Qed.

Lemma extract_hyperlink_site element index :
  keeps site_link (extract_hyperlink element index).
Proof.
  unfold extract_hyperlink.
  apply keeps_bind; [apply keeps_lift|intros _].
  apply keeps_bind_lift. intros h1 Hself.
  apply keeps_bind.
  { apply keeps_modify. intros p Hp. apply site_link_set_hyperlink; [|done].
    intros h ->. by eapply link_of_self_site. }
  intros _. apply keeps_bind.
  { apply keeps_unless_set. intros p Hp. apply site_link_set_hyperlink; [|done].
    apply link_of_first_child_site. }
  intros _. apply keeps_bind.
  { apply keeps_unless_set. intros p Hp. apply site_link_set_hyperlink; [|done].
    apply link_of_any_child_site. }
  intros _. apply keeps_unless_set. intros p Hp.
  apply site_link_set_hyperlink; [|done]. apply link_of_onclick_site.
Qed.

(** *** Titles *)

Lemma first_title_short title_elems t :
  first_title title_elems = Ok (Some t) → ∃ x, t = slice_to 150 x.
Proof.
  induction title_elems as [|title_elem rest IH]; simpl; [done|].
  destruct (text title_elem) as [tx|]; simpl; [|done].
  destruct (title_ok (strip tx)); [|exact IH].
  intros [= <-]. by eexists.
Qed.

Lemma title_of_selectors_short element selectors t :
  title_of_selectors element selectors = Some t → ∃ x, t = slice_to 150 x.
Proof.
  induction selectors as [|selector rest IH]; simpl; [done|].
  destruct (find_elements element CSS_SELECTOR selector) as [title_elems|];
    simpl; [|exact IH].
  destruct (first_title title_elems) as [[t'|]|] eqn:Ht; [|exact IH|exact IH].
  intros [= <-]. by eapply first_title_short.
Qed.

Lemma first_line_short lines t :
  first_line lines = Some t → ∃ x, t = slice_to 150 x.
Proof.
  induction lines as [|line rest IH]; simpl; [done|].
  destruct (line_ok line); [|exact IH]. intros [= <-]. by eexists.
Qed.

Lemma title_of_text_short element t :
  title_of_text element = Some t → ∃ x, t = slice_to 150 x.
Proof.
  unfold title_of_text. destruct (text element) as [tx|]; simpl; [|done].
  destruct (str_truthy (strip tx)); [|done]. apply first_line_short.
Qed.

Lemma title_of_link_text_short element t :
  title_of_link_text element = Some t → ∃ x, t = slice_to 150 x.
Proof.
  unfold title_of_link_text. destruct (text element) as [tx|]; simpl; [|done].
  destruct (_ && _); [|done]. intros [= <-]. by eexists.
Qed.

Lemma title_of_attribute_short element name t :
  title_of_attribute element name = Some t → ∃ x, t = slice_to 150 x.
Proof.
  unfold title_of_attribute.
  destruct (get_attribute element name) as [[v|]|]; simpl; [|done|done].
  destruct (_ && _); [|done]. intros [= <-]. by eexists.
Qed.

Lemma short_title_set_title strategy p :
  (∀ t, strategy = Some t → ∃ x, t = slice_to 150 x) →
  short_title p →
  short_title (set_title (assign_found strategy (product_title p)) p).
Proof.
  intros Hs Hp t. simpl. destruct strategy as [t'|]; simpl; [|apply Hp].
  intros [= <-]. by apply Hs.
Qed.

Lemma extract_title_short element : keeps short_title (extract_title element).
Proof.
  unfold extract_title.
  apply keeps_bind.
  { apply keeps_modify. intros p Hp. apply short_title_set_title; [|done].
    apply title_of_selectors_short. }
  intros _. apply keeps_bind.
  { apply keeps_unless_set. intros p Hp. apply short_title_set_title; [|done].
    apply title_of_text_short. }
  intros _. apply keeps_bind; [apply keeps_get|intros product].
  apply keeps_bind; [apply keeps_lift|intros is_link].
  apply keeps_bind.
  { destruct is_link; [|apply keeps_ret].
    apply keeps_modify. intros p Hp. apply short_title_set_title; [|done].
    apply title_of_link_text_short. }
  intros _. apply keeps_bind.
  { apply keeps_unless_set. intros p Hp. apply short_title_set_title; [|done].
    apply title_of_attribute_short. }
  intros _. apply keeps_unless_set. intros p Hp.
  apply short_title_set_title; [|done]. apply title_of_attribute_short.
Qed.

(** *** A step that fills one field keeps what is known of the others *)

Lemma extract_hyperlink_keeps P element index :
  (∀ v p, P p → P (set_hyperlink v p)) → keeps P (extract_hyperlink element index).
Proof.
  intros HP. unfold extract_hyperlink.
  apply keeps_bind; [apply keeps_lift|intros _].
  apply keeps_bind; [apply keeps_lift|intros h1].
  apply keeps_bind; [apply keeps_modify; auto|intros _].
  apply keeps_bind; [apply keeps_unless_set; auto|intros _].
  apply keeps_bind; [apply keeps_unless_set; auto|intros _].
  apply keeps_unless_set; auto.
Qed.

Lemma extract_title_keeps P element :
  (∀ v p, P p → P (set_title v p)) → keeps P (extract_title element).
Proof.
  intros HP. unfold extract_title.
  apply keeps_bind; [apply keeps_modify; auto|intros _].
  apply keeps_bind; [apply keeps_unless_set; auto|intros _].
  apply keeps_bind; [apply keeps_get|intros product].
  apply keeps_bind; [apply keeps_lift|intros is_link].
  apply keeps_bind; [destruct is_link; [apply keeps_modify; auto|apply keeps_ret]|intros _].
  apply keeps_bind; [apply keeps_unless_set; auto|intros _].
  apply keeps_unless_set; auto.
Qed.

Lemma extract_price_keeps P element :
  (∀ v p, P p → P (set_price v p)) → keeps P (extract_price element).
Proof.
  intros HP. unfold extract_price.
  apply keeps_bind; [apply keeps_modify; auto|intros _].
  apply keeps_bind; [apply keeps_unless_set; auto|intros _].
  apply keeps_bind; [apply keeps_unless_set; auto|intros _].
  apply keeps_unless_set; auto.
Qed.

Lemma extract_image_keeps P element :
  (∀ v p, P p → P (set_image v p)) → keeps P (extract_image element).
Proof.
  intros HP. unfold extract_image.
  apply keeps_bind; [apply keeps_modify; auto|intros _].
  apply keeps_bind; [apply keeps_unless_set; auto|intros _].
  apply keeps_bind; [apply keeps_unless_set; auto|intros _].
  apply keeps_unless_set; auto.
Qed.

Lemma extract_product_data_site element index :
  site_link (extract_product_data element index).
Proof.
  unfold extract_product_data.
  apply (keeps_bind site_link); [apply extract_hyperlink_site|intros _| done].
  apply keeps_bind; [by apply extract_title_keeps|intros _].
  apply keeps_bind; [by apply extract_price_keeps|intros _].
  by apply extract_image_keeps.
Qed.

Lemma extract_product_data_short element index :
  short_title (extract_product_data element index).
Proof.
  unfold extract_product_data.
  apply (keeps_bind short_title);
    [by apply extract_hyperlink_keeps|intros _| done].
  apply keeps_bind; [apply extract_title_short|intros _].
  apply keeps_bind; [by apply extract_price_keeps|intros _].
  by apply extract_image_keeps.
Qed.

End FieldExtractorFacts.

(** ** The acceptance loop *)

Section AcceptanceFacts.
Context `{WebElement E}.

Lemma accepted_key r : accepted r → ∃ k, unique_key r = Some k.
Proof.
  intros (_ & _ & Hk & _). destruct (unique_key r) as [k|]; [by exists k|done].
Qed.

Lemma elem_of_keys_of k rs :
  k ∈ keys_of rs ↔ ∃ r, r ∈ rs ∧ unique_key r = Some k.
Proof. unfold keys_of. rewrite elem_of_list_to_set, list_elem_of_omap. done. Qed.

Lemma keys_of_cons r k rs :
  unique_key r = Some k → keys_of (r :: rs) = {[k]} ∪ keys_of rs.
Proof. intros Hk. unfold keys_of. simpl. by rewrite Hk. Qed.

Lemma keys_of_app rs rs' : keys_of (rs ++ rs') = keys_of rs ∪ keys_of rs'.
Proof. unfold keys_of. by rewrite omap_app, list_to_set_app_L. Qed.

Lemma accept_products_spec (els : list E) idx seen acc found seen' :
  accept_products els idx seen acc = (found, seen') →
  ∃ new, found = acc ++ new ∧ pass_ok seen new ∧ seen' = keys_of new ∪ seen.
Proof.
  revert idx seen acc. induction els as [|element rest IH]; intros idx seen acc; simpl.
  - intros [= <- <-]. exists []. rewrite app_nil_r. repeat split; try constructor.
    + intros r k Hr. by apply elem_of_nil in Hr.
    + unfold keys_of. simpl. set_solver.
  - set (pd := extract_product_data element idx).
    destruct (has_essential_data pd && negb (is_category pd)) eqn:Hgood; [|apply IH].
    destruct (truthy (unique_key pd) && negb (in_set (unique_key pd) seen)) eqn:Hnew;
      [|apply IH].
    intros Hrec. apply IH in Hrec as (new & -> & (Hacc & Hnd & Hfresh) & ->).
    apply andb_true_iff in Hgood as [Hess Hcat]. apply negb_true_iff in Hcat.
    apply andb_true_iff in Hnew as [Hkey Hin]. apply negb_true_iff in Hin.
    destruct (unique_key pd) as [k|] eqn:Hk; [|done].
    simpl in Hin. apply bool_decide_eq_false in Hin. simpl in *.
    exists (pd :: new). split; [by rewrite <- app_assoc|]. split; [split; [|split]|].
    + constructor; [|done].
      split; [done|]. split; [done|]. split; [by rewrite Hk|].
      split; [apply extract_product_data_site|apply extract_product_data_short].
    + simpl. rewrite Hk. constructor; [|done].
      intros Hdup. apply list_elem_of_fmap in Hdup as (r & Hrk & Hr).
      eapply (Hfresh r k); [done|done|set_solver].
    + intros r k' Hr Hk'. apply elem_of_cons in Hr as [->|Hr].
      * rewrite Hk in Hk'. by injection Hk' as <-.
      * intros Hin'. eapply (Hfresh r k'); [done|done|set_solver].
    + rewrite (keys_of_cons _ k) by done. set_solver.
Qed.

End AcceptanceFacts.

(** ** [scroll_page] returns *)

Section ScrollFacts.
Context `{WebElement E} `{Session W E}.

Lemma count_images_scrolls st w st' w' :
  count_images st w = (Ok st', w') → scrolls st' = scrolls st.
Proof.
  unfold count_images, try_M, mbind, M_bind, mret, M_ret.
  intros Hc. repeat case_match; by simplify_eq.
Qed.

Lemma count_images_ok st w : ∃ st' w', count_images st w = (Ok st', w').
Proof.
  unfold count_images, try_M, mbind, M_bind, mret, M_ret.
  repeat case_match; simplify_eq; eauto.
Qed.

(** A turn that falls through has counted one more scroll. *)
Lemma scroll_step_next scroll_pause_time st w st' w' :
  scroll_step scroll_pause_time st w = (Ok (Next st'), w') →
  scrolls st' = scrolls st + 1.
Proof.
  unfold scroll_step, mbind, M_bind, mret, M_ret, advance, reset_counts.
  intros Hs.
  repeat (case_match; simplify_eq);
    match goal with
    | Hc : count_images _ _ = (Ok _, _) |- _ =>
        apply count_images_scrolls in Hc; simpl; lia
    end.
Qed.

Lemma scroll_loop_returns fuel scroll_pause_time max_scrolls st turns w :
  (Z.to_nat (max_scrolls - scrolls st) < fuel)%nat →
  ∃ r turns' w',
    scroll_loop fuel scroll_pause_time max_scrolls st turns w = Some (r, turns', w') ∧
    (turns' ≤ turns + Z.to_nat (max_scrolls - scrolls st))%nat.
Proof.
  revert st turns w. induction fuel as [|fuel IH]; intros st turns w Hfuel; [lia|].
  simpl. destruct (scrolls st <? max_scrolls) eqn:Hlt.
  - apply Z.ltb_lt in Hlt.
    destruct (scroll_step scroll_pause_time st w) as [[[st'|st']|e] w'] eqn:Hstep.
    + apply scroll_step_next in Hstep.
      destruct (IH st' (S turns) w') as (r & turns' & w'' & -> & Hle); [lia|].
      eexists _, _, _. split; [done|]. lia.
    + eexists _, _, _. split; [done|]. lia.
    + eexists _, _, _. split; [done|]. lia.
  - eexists _, _, _. split; [done|]. lia.
Qed.

Lemma scroll_prologue_scrolls w st w' :
  scroll_prologue w = (Ok st, w') → scrolls st = 0.
Proof.
  unfold scroll_prologue, try_M, mbind, M_bind, mret, M_ret.
  intros Hp. repeat (case_match; simplify_eq); done.
Qed.

Lemma scroll_page_fuel_returns fuel scroll_pause_time max_scrolls w :
  (Z.to_nat max_scrolls < fuel)%nat →
  ∃ r turns w',
    scroll_page_fuel fuel scroll_pause_time max_scrolls w = Some (r, turns, w') ∧
    (turns ≤ Z.to_nat max_scrolls)%nat.
Proof.
  intros Hfuel. unfold scroll_page_fuel.
  destruct (scroll_prologue w) as [[st|e] w0] eqn:Hpro.
  - apply scroll_prologue_scrolls in Hpro.
    destruct (scroll_loop_returns fuel scroll_pause_time max_scrolls st 0 w0)
      as (r & turns & w1 & -> & Hle); [rewrite Hpro, Z.sub_0_r; lia|].
    rewrite Hpro, Z.sub_0_r in Hle.
    destruct r as [st'|e].
    + destruct (scroll_epilogue scroll_pause_time w1) as [r w2].
      eexists _, _, _. split; [done|lia].
    + eexists _, _, _. split; [done|lia].
  - eexists _, _, _. split; [done|lia].
Qed.

Lemma scroll_page_returns scroll_pause_time max_scrolls w :
  ∃ r turns w', scroll_page scroll_pause_time max_scrolls w = Some (r, turns, w').
Proof.
  destruct (scroll_page_fuel_returns (S (Z.to_nat max_scrolls)) scroll_pause_time
              max_scrolls w) as (r & turns & w' & Hr & _); [lia|].
  by exists r, turns, w'.
Qed.

End ScrollFacts.

(** ** Passes and the accumulated collection *)

Section PassFacts.
Context `{WebElement E} `{Session W E} `{Unembedded W E}.

Lemma pass_ok_nil seen : pass_ok seen [].
Proof.
  repeat split; try constructor. intros r k Hr. by apply elem_of_nil in Hr.
Qed.

Lemma pass_ok_sublist seen new sub :
  pass_ok seen new → sub `sublist_of` new → pass_ok seen sub.
Proof.
  intros (Hacc & Hnd & Hfresh) Hsub. split; [|split].
  - eapply Forall_forall. intros r Hr.
    eapply (proj1 (Forall_forall _ _) Hacc), elem_of_sublist; done.
  - eapply sublist_NoDup; [done|]. by apply fmap_sublist.
  - intros r k Hr. apply Hfresh. eapply elem_of_sublist; done.
Qed.

Lemma coherent_app ps seen new seen' :
  coherent ps seen → pass_ok seen new → keys_of new ∪ seen ⊆ seen' →
  coherent (ps ++ new) seen'.
Proof.
  intros (Hacc & Hnd & Hseen) (Hacc' & Hnd' & Hfresh) Hsub. split; [|split].
  - by apply Forall_app.
  - rewrite fmap_app. apply NoDup_app. split; [done|]. split; [|done].
    intros key Hin Hin'.
    apply list_elem_of_fmap in Hin as (r & -> & Hr).
    apply list_elem_of_fmap in Hin' as (r' & Hkey & Hr').
    destruct (accepted_key r) as (k & Hk);
      [by eapply (proj1 (Forall_forall _ _) Hacc)|].
    rewrite Hk in Hkey. eapply (Hfresh r' k); [done|done|]. by eapply Hseen.
  - intros r k Hr Hk. apply elem_of_app in Hr as [Hr|Hr].
    + apply Hsub, elem_of_union_r. by eapply Hseen.
    + apply Hsub, elem_of_union_l, elem_of_keys_of. by exists r.
Qed.

Lemma liftW_self {A} (m : M W A) self w r self' w' :
  liftW m (self, w) = (r, (self', w')) → self' = self.
Proof. unfold liftW. destruct (m w). by intros [= _ <- _]. Qed.

Lemma debug_dump_data self w r self' w' :
  debug_dump (self, w) = (r, (self', w')) →
  r = Ok () ∧ products self' = products self ∧ seen_urls self' = seen_urls self.
Proof.
  unfold debug_dump, try_M, mbind, M_bind, mret, M_ret, fmap, M_fmap, get_M,
    modify_M, liftW.
  intros Hd. repeat (case_match; simplify_eq); try done.
  all: by destruct r as [[]|].
Qed.

Lemma extract_products_spec max_products self w r self' w' :
  extract_products max_products (self, w) = (r, (self', w')) →
  products self' = products self ∧
  ∃ new, pass_ok (seen_urls self) new ∧
         seen_urls self' = keys_of new ∪ seen_urls self ∧
         match r with Ok found => found = new | Raise _ => new = [] end.
Proof.
  unfold extract_products, mbind at 1, M_bind at 1.
  destruct (debug_dump (self, w)) as [r0 [self0 w0]] eqn:Hd.
  apply debug_dump_data in Hd as (-> & Hp0 & Hs0).
  unfold mbind, M_bind, mret, M_ret, liftW.
  destruct (locate_by_selectors w0) as [[product_elements seen_element_ids] w1].
  destruct (locate_fallbacks product_elements seen_element_ids w1)
    as [[|element rest] w2].
  - destruct (report_nothing_found w2) as [[[]|e] w3]; intros [= <- <- <-].
    all: split; [done|]; exists []; split; [apply pass_ok_nil|].
    all: split; [|done]; unfold keys_of; simpl; set_solver.
  - destruct (accept_products _ 0 (seen_urls self0) []) as [found seen] eqn:Hacc.
    intros [= <- <- <-]. simpl. split; [done|].
    apply accept_products_spec in Hacc as (new & -> & Hok & ->).
    rewrite Hs0 in *. by exists new.
Qed.

(** The merge of the second pass keeps some of its records, in order. *)
Lemma new_products_of_sublist products_pass2 existing_urls existing_titles acc :
  ∃ sub, new_products_of products_pass2 existing_urls existing_titles acc = acc ++ sub ∧
         sub `sublist_of` products_pass2.
Proof.
  revert existing_urls existing_titles acc.
  induction products_pass2 as [|p rest IH]; intros eu et acc; simpl.
  - exists []. by rewrite app_nil_r.
  - destruct (_ || _).
    + destruct (IH (if truthy (product_hyperlink p) then add_to (product_hyperlink p) eu else eu)
                   (if truthy (product_title p) then add_to (product_title p) et else et)
                   (acc ++ [p])) as (sub & -> & Hsub).
      exists (p :: sub). split; [by rewrite <- app_assoc|]. by constructor.
    + destruct (IH eu et acc) as (sub & -> & Hsub).
      exists sub. split; [done|]. by constructor.
Qed.

Lemma merge_pass2_sublist ps products_pass2 :
  ∃ sub, merge_pass2 ps products_pass2 = ps ++ sub ∧ sub `sublist_of` products_pass2.
Proof.
  unfold merge_pass2.
  destruct (new_products_of_sublist products_pass2 (existing_urls_of ps)
              (existing_titles_of ps) []) as (sub & -> & Hsub).
  simpl. exists sub. split; [|done]. destruct sub; [by rewrite app_nil_r|done].
Qed.

(** What the two passes leave behind, whether they finish or raise. *)
Lemma two_passes_spec self w r self' w' :
  two_passes (self, w) = (r, (self', w')) →
  ∃ new1 new2 sub2,
    pass_ok (seen_urls self) new1 ∧
    pass_ok (keys_of new1 ∪ seen_urls self) new2 ∧
    sub2 `sublist_of` new2 ∧
    seen_urls self' = keys_of new2 ∪ (keys_of new1 ∪ seen_urls self) ∧
    products self' = products self ++ new1 ++ sub2 ∧
    match r with Ok found => found = new1 | Raise _ => sub2 = [] end.
Proof.
  unfold two_passes, mbind at 1, M_bind at 1.
  destruct (extract_products None (self, w)) as [r1 [self1 w1]] eqn:Hp1.
  apply extract_products_spec in Hp1 as (Hps1 & new1 & Hok1 & Hseen1 & Hr1).
  destruct r1 as [found|e].
  2:{ intros [= <- <- <-]. subst new1. exists [], [], [].
      split; [done|]. split; [apply pass_ok_nil|]. split; [done|].
      split; [rewrite Hseen1; unfold keys_of; simpl; set_solver|].
      split; [by rewrite Hps1, !app_nil_r|done]. }
  subst found.
  unfold update_products, modify_M, mbind, M_bind, mret, M_ret, liftW, sleep.
  simpl.
  set (self1' := mkScraper (products self1 ++ new1) (seen_urls self1) (debug_saved self1)).
  assert (Hraise : ∀ e w'', (Raise e, (self1', w'')) = (r, (self', w')) →
    ∃ new1' new2 sub2,
      pass_ok (seen_urls self) new1' ∧ pass_ok (keys_of new1' ∪ seen_urls self) new2 ∧
      sub2 `sublist_of` new2 ∧
      seen_urls self' = keys_of new2 ∪ (keys_of new1' ∪ seen_urls self) ∧
      products self' = products self ++ new1' ++ sub2 ∧
      match r with Ok found => found = new1' | Raise _ => sub2 = [] end).
  { intros e w'' [= <- <- <-]. exists new1, [], []. split; [done|].
    split; [apply pass_ok_nil|]. split; [done|].
    split; [simpl; rewrite Hseen1; unfold keys_of at 1; simpl; set_solver|].
    split; [simpl; by rewrite Hps1, app_nil_r|done]. }
  destruct (execute_script ScrollToBottom _) as [[z|e] w2]; [|by apply Hraise].
  destruct (execute_script (ScrollTo 0) _) as [[z'|e] w3]; [|by apply Hraise].
  destruct (extract_products None (self1', _)) as [r2 [self2 w4]] eqn:Hp2.
  apply extract_products_spec in Hp2 as (Hps2 & new2 & Hok2 & Hseen2 & Hr2).
  simpl in Hps2, Hok2, Hseen2. rewrite Hseen1 in Hok2, Hseen2.
  destruct r2 as [found2|e].
  2:{ subst new2. intros Heq. injection Heq as <- <- <-.
      exists new1, [], []. split; [done|]. split; [apply pass_ok_nil|].
      split; [done|]. split; [done|]. split; [by rewrite Hps2, Hps1, app_nil_r|done]. }
  subst found2. intros [= <- <- <-]. simpl.
  destruct (merge_pass2_sublist (products self2) new2) as (sub2 & -> & Hsub).
  exists new1, new2, sub2. rewrite Hps2, Hps1, <- app_assoc. done.
Qed.

Lemma consistent_two_passes self new1 new2 sub2 self' :
  consistent self →
  pass_ok (seen_urls self) new1 →
  pass_ok (keys_of new1 ∪ seen_urls self) new2 →
  sub2 `sublist_of` new2 →
  seen_urls self' = keys_of new2 ∪ (keys_of new1 ∪ seen_urls self) →
  products self' = products self ++ new1 ++ sub2 →
  consistent self'.
Proof.
  intros Hself Hok1 Hok2 Hsub Hseen Hps. unfold consistent. rewrite Hps, Hseen.
  rewrite app_assoc.
  eapply (coherent_app _ (keys_of new1 ∪ seen_urls self)).
  - by eapply coherent_app.
  - by eapply pass_ok_sublist.
  - intros k Hk. apply elem_of_union in Hk as [Hk|Hk]; [|set_solver].
    apply elem_of_keys_of in Hk as (r & Hr & Hkey).
    apply elem_of_union_l, elem_of_keys_of. exists r. split; [|done].
    by eapply elem_of_sublist.
Qed.

End PassFacts.

(** ** The selector cascade of [extract_products] *)

Section CascadeFacts.
Context `{WebElement E} `{Session W E} `{Unembedded W E}.

(** With [has_text] unbound, line 901 either sees no image or raises. *)
Lemma keep_match_unbound seen_element_ids (elem : E) :
  keep_match None seen_element_ids elem ≠ Ok true.
Proof.
  unfold keep_match, mbind, exc_bind, Py.bind, mret, exc_ret, load_local.
  repeat case_match; done.
Qed.

Lemma filter_matches_unbound (elements : list E) filtered_elements seen_element_ids :
  filter_matches None elements filtered_elements seen_element_ids
  = (filtered_elements, seen_element_ids).
Proof.
  induction elements as [|elem rest IH]; simpl; [done|].
  pose proof (keep_match_unbound seen_element_ids elem) as Hk.
  destruct (keep_match None seen_element_ids elem) as [[|]|]; done.
Qed.

Lemma selector_cascade_unbound selectors (product_elements : list E)
    seen_element_ids (w : W) :
  fst (selector_cascade None selectors product_elements seen_element_ids w)
  = (product_elements, seen_element_ids).
Proof.
  revert w. induction selectors as [|selector rest IH]; intros w; simpl; [done|].
  destruct (driver_find_elements CSS_SELECTOR selector w) as [[[|elem elements]|e] w'];
    try apply IH.
  rewrite filter_matches_unbound. apply IH.
Qed.

(** The cascade never contributes a candidate. *)
Lemma locate_by_selectors_nothing (w : W) :
  fst (locate_by_selectors w) = ([], ∅).
Proof.
  unfold locate_by_selectors.
  pose proof (selector_cascade_unbound product_selectors [] ∅ w) as Hc.
  destruct (selector_cascade None product_selectors [] ∅ w) as [[pe seen] w'].
  simpl in Hc. by injection Hc as -> ->.
Qed.

End CascadeFacts.

(** C1: on a page where the first selector of the cascade matches a product
    card with an image, a name and a price and no category link, the card
    passes the test of line 901 as soon as [has_text] has a value, but
    [extract_products] reaches that line with [has_text] unbound: the
    [UnboundLocalError] is swallowed and the cascade returns no candidate. *)
Theorem selector_cascade_drops_product_card :
  driver_find_elements CSS_SELECTOR "[data-testid*='product']" Pages.cereal_page
    = (Ok [Pages.cereal_card], Pages.cereal_page) ∧
  associated_href Pages.cereal_card = Ok None ∧
  (length <$> find_elements Pages.cereal_card TAG_NAME "img") = Ok 1%nat ∧
  searches Patterns.price (Fake.node_text Pages.cereal_card) = true ∧
  keep_match (Some false) ∅ Pages.cereal_card = Ok true ∧
  keep_match None ∅ Pages.cereal_card = Raise (UnboundLocalError "has_text") ∧
  fst (locate_by_selectors Pages.cereal_page) = ([], ∅).
Proof.
  repeat split; try apply locate_by_selectors_nothing; vm_compute; reflexivity.
Qed.

(** ** [scrape_category_page] as a whole *)

Section ScrapeFacts.
Context `{WebElement E} `{Session W E} `{Unembedded W E}.

(** The method returns, and what it leaves in the scraper comes from at most
    two passes. *)
Lemma scrape_category_page_spec page_url self (w : W) :
  ∃ ret self' w',
    scrape_category_page page_url self w = Some (ret, self', w') ∧
    ∃ new1 new2 sub2,
      pass_ok (seen_urls self) new1 ∧
      pass_ok (keys_of new1 ∪ seen_urls self) new2 ∧
      sub2 `sublist_of` new2 ∧
      seen_urls self' = keys_of new2 ∪ (keys_of new1 ∪ seen_urls self) ∧
      products self' = products self ++ new1 ++ sub2 ∧
      (ret = new1 ∨ ret = [] ∧ sub2 = []).
Proof.
  assert (Hnone : ∀ w' : W, ∃ ret self' w'',
    Some ([] : list Product, self, w') = Some (ret, self', w'') ∧
    ∃ new1 new2 sub2,
      pass_ok (seen_urls self) new1 ∧
      pass_ok (keys_of new1 ∪ seen_urls self) new2 ∧
      sub2 `sublist_of` new2 ∧
      seen_urls self' = keys_of new2 ∪ (keys_of new1 ∪ seen_urls self) ∧
      products self' = products self ++ new1 ++ sub2 ∧
      (ret = new1 ∨ ret = [] ∧ sub2 = [])).
  { intros w'. exists [], self, w'. split; [done|]. exists [], [], [].
    split; [apply pass_ok_nil|]. split; [apply pass_ok_nil|]. split; [done|].
    split; [unfold keys_of; simpl; set_solver|].
    split; [by rewrite !app_nil_r|by left]. }
  unfold scrape_category_page.
  destruct (before_scrolling page_url w) as [[[]|e] w0]; [|apply Hnone].
  destruct (scroll_page_returns (5 # 2) 150 w0) as (r & turns & w1 & ->).
  destruct r as [[]|e]; [|apply Hnone].
  unfold mbind at 1, M_bind at 1.
  destruct (liftW after_scrolling (self, w1)) as [r [self1 w2]] eqn:Hafter.
  apply liftW_self in Hafter as ->.
  destruct r as [[]|e]; [|apply Hnone].
  destruct (two_passes (self, w2)) as [r [self2 w3]] eqn:Hpasses.
  apply two_passes_spec in Hpasses
    as (new1 & new2 & sub2 & Hok1 & Hok2 & Hsub & Hseen & Hps & Hr).
  destruct r as [found|e].
  - subst found. exists new1, self2, w3. split; [done|].
    exists new1, new2, sub2. repeat (split; [done|]). by left.
  - subst sub2. exists [], self2, w3. split; [done|].
    exists new1, new2, []. repeat (split; [done|]). by right.
Qed.

Lemma new_scraper_consistent : consistent new_scraper.
Proof.
  repeat split; try constructor. intros r k Hr. by apply elem_of_nil in Hr.
Qed.

(** For an accepted record the key of line 1154 is the DedupKey. *)
Lemma accepted_DedupKey r : accepted r → Spec.DedupKey r = unique_key r.
Proof.
  intros (_ & _ & _ & Hsite & _). unfold Spec.DedupKey, unique_key.
  destruct (product_hyperlink r) as [h|] eqn:Hh; [|done].
  destruct (Hsite h Hh) as [Hc _]. simpl.
  by destruct h.
Qed.

Lemma accepted_evidence r : accepted r → Spec.has_evidence r.
Proof.
  intros (Hess & _). unfold has_essential_data in Hess. unfold Spec.has_evidence.
  destruct (product_title r); [by left|]. destruct (product_price r); [by right; left|].
  destruct (product_image r); [by right; right|done].
Qed.

Lemma accepted_hyperlink r h :
  accepted r → product_hyperlink r = Some h →
  good_link h ∧ is_category_href h = false.
Proof.
  intros (_ & Hcat & _ & Hsite & _) Hh. split; [by apply Hsite|].
  unfold is_category in Hcat. rewrite Hh in Hcat.
  destruct (Hsite h Hh) as [Hc _].
  destruct h; [done|]. exact Hcat.
Qed.

End ScrapeFacts.

(** ** Accepted records *)

Section AcceptedRecords.
Context `{WebElement E} `{Session W E} `{Unembedded W E}.

Lemma scrape_category_page_consistent page_url self (w : W) :
  consistent self →
  ∃ ret self' w',
    scrape_category_page page_url self w = Some (ret, self', w') ∧
    consistent self' ∧ Forall accepted ret.
Proof.
  intros Hself.
  destruct (scrape_category_page_spec page_url self w)
    as (ret & self' & w' & Hrun & new1 & new2 & sub2 & Hok1 & Hok2 & Hsub & Hseen & Hps & Hret).
  exists ret, self', w'. split; [done|]. split.
  - by eapply consistent_two_passes.
  - destruct Hret as [->|[-> _]]; [apply Hok1|constructor].
Qed.

(** C2: after both passes of [scrape_category_page], run on a scraper in a
    state that its own methods can produce, two records at different places
    of [self.products] never have the same DedupKey (the hyperlink if present,
    else the title); and the state reached is again such a state. *)
Theorem accumulated_keys_distinct page_url self (w : W) :
  consistent self →
  ∃ ret self' w',
    scrape_category_page page_url self w = Some (ret, self', w') ∧
    consistent self' ∧
    ∀ i j R1 R2, i ≠ j →
      products self' !! i = Some R1 → products self' !! j = Some R2 →
      Spec.DedupKey R1 ≠ Spec.DedupKey R2.
Proof.
  intros Hself.
  destruct (scrape_category_page_consistent page_url self w Hself)
    as (ret & self' & w' & Hrun & Hself' & _).
  exists ret, self', w'. split; [done|]. split; [done|].
  destruct Hself' as (Hacc & Hnd & _).
  intros i j R1 R2 Hij Hi Hj Hkey.
  rewrite Forall_forall in Hacc.
  rewrite !accepted_DedupKey in Hkey
    by (apply Hacc; eapply list_elem_of_lookup_2; eassumption).
  apply Hij. eapply NoDup_lookup; [exact Hnd| |].
  - rewrite list_lookup_fmap, Hi. reflexivity.
  - rewrite list_lookup_fmap, Hj. simpl. by rewrite Hkey.
Qed.

(** C7: every record that the acceptance loop of [extract_products] appends,
    and every record that [scrape_category_page] returns or leaves in
    [self.products], has a title, a price or an image; a record with only a
    hyperlink, or with nothing, is in none of these lists. *)
Theorem accepted_records_have_evidence (els : list E) idx seen page_url self (w : W) :
  consistent self →
  Forall Spec.has_evidence (accept_products els idx seen []).1 ∧
  (∀ h, mkProduct None None None h ∉ (accept_products els idx seen []).1) ∧
  ∃ ret self' w',
    scrape_category_page page_url self w = Some (ret, self', w') ∧
    (∀ r, r ∈ ret ∨ r ∈ products self' → Spec.has_evidence r) ∧
    (∀ h, (mkProduct None None None h ∉ ret) ∧
          (mkProduct None None None h ∉ products self')).
Proof.
  intros Hself.
  assert (Hnull : ∀ h, ¬ Spec.has_evidence (mkProduct None None None h)).
  { intros h [Hn|[Hn|Hn]]; by apply Hn. }
  destruct (accept_products els idx seen []) as [found seen'] eqn:Hloop.
  apply accept_products_spec in Hloop as (new & -> & (Hnew & _) & _). simpl.
  assert (Hev : Forall Spec.has_evidence new).
  { eapply Forall_impl; [exact Hnew|]. apply accepted_evidence. }
  split; [exact Hev|]. split.
  { intros h Hin. apply (Hnull h). rewrite Forall_forall in Hev. by apply Hev. }
  destruct (scrape_category_page_consistent page_url self w Hself)
    as (ret & self' & w' & Hrun & (Hacc & _) & Hret).
  exists ret, self', w'. split; [done|].
  rewrite Forall_forall in Hacc, Hret.
  assert (Hall : ∀ r, r ∈ ret ∨ r ∈ products self' → Spec.has_evidence r).
  { intros r [Hr|Hr]; apply accepted_evidence; auto. }
  split; [exact Hall|].
  intros h. split; intros Hin; apply (Hnull h), Hall; auto.
Qed.

End AcceptedRecords.

Lemma accumulated_keys_distinct_witness :
  consistent new_scraper ∧
  ∃ ret self' w',
    scrape_category_page "https://heb.com" new_scraper Pages.two_pass_page
      = Some (ret, self', w') ∧
    consistent self' ∧
    ∀ i j R1 R2, i ≠ j →
      products self' !! i = Some R1 → products self' !! j = Some R2 →
      Spec.DedupKey R1 ≠ Spec.DedupKey R2.
Proof.
  split.
  - repeat split; try constructor. intros r k Hr. inversion Hr.
  - apply (accumulated_keys_distinct "https://heb.com" new_scraper Pages.two_pass_page).
    repeat split; try constructor. intros r k Hr. inversion Hr.
Defined.

Lemma accepted_records_have_evidence_witness :
  consistent new_scraper ∧
  Forall Spec.has_evidence
    (accept_products [Pages.price_only_card; Pages.produce_card] 0 ∅ []).1 ∧
  (∀ h, mkProduct None None None h ∉
          (accept_products [Pages.price_only_card; Pages.produce_card] 0 ∅ []).1) ∧
  ∃ ret self' w',
    scrape_category_page "https://heb.com" new_scraper Pages.two_pass_page
      = Some (ret, self', w') ∧
    (∀ r, r ∈ ret ∨ r ∈ products self' → Spec.has_evidence r) ∧
    (∀ h, (mkProduct None None None h ∉ ret) ∧
          (mkProduct None None None h ∉ products self')).
Proof.
  split.
  - repeat split; try constructor. intros r k Hr. inversion Hr.
  - apply (accepted_records_have_evidence
             [Pages.price_only_card; Pages.produce_card] 0 ∅
             "https://heb.com" new_scraper Pages.two_pass_page).
    repeat split; try constructor. intros r k Hr. inversion Hr.
Defined.

(** C3 as stated fails: a link to another site whose path mentions the
    domain is accepted with its hyperlink, whose host is not the shop's; and
    a card whose click handler names a URL without a scheme is accepted with
    that text as its hyperlink, which is not an absolute URL. *)
Lemma offsite_hyperlink_accepted :
  match scrape_category_page "https://heb.com" new_scraper Pages.offsite_page with
  | Some (ret, self', _) => Some (ret, products self')
  | None => None
  end
  = Some ([mkProduct (Some "Brand X Cereal 12oz") None
             (Some "https://heb.com/img/deal.jpg")
             (Some "https://example.org/heb.com/deal")],
          [mkProduct (Some "Brand X Cereal 12oz") None
             (Some "https://heb.com/img/deal.jpg")
             (Some "https://example.org/heb.com/deal")]) ∧
  Spec.url_host "https://example.org/heb.com/deal" = Some "example.org" ∧
  Spec.site_scoped "https://example.org/heb.com/deal" = false ∧
  match scrape_category_page "https://heb.com" new_scraper Pages.click_page with
  | Some (ret, self', _) => Some (product_hyperlink <$> products self')
  | None => None
  end = Some [Some "heb.com/p/oats"] ∧
  Spec.url_host "heb.com/p/oats" = None ∧
  Spec.site_scoped "heb.com/p/oats" = false.
Proof. repeat split; vm_compute; reflexivity. Qed.

(** The scenario of the specification: the first pass finds A, B, C, the
    second B, C, D; the method returns the three records of the first pass
    and [self.products] holds four. *)
Example two_pass_run :
  match scrape_category_page "https://heb.com" new_scraper Pages.two_pass_page with
  | Some (ret, self', _) =>
      Some (product_hyperlink <$> ret, product_hyperlink <$> products self')
  | None => None
  end
  = Some ([Some "https://heb.com/p/A"; Some "https://heb.com/p/B";
           Some "https://heb.com/p/C"],
          [Some "https://heb.com/p/A"; Some "https://heb.com/p/B";
           Some "https://heb.com/p/C"; Some "https://heb.com/p/D"]).
Proof. vm_compute. reflexivity. Qed.

(** ** Errors and turns of [scroll_page] *)

Section ScrollErrors.
Context `{WebElement E} `{Session W E}.

Lemma click_load_more_ok (w : W) : ∃ w', click_load_more w = (Ok (), w').
Proof.
  unfold click_load_more, try_M, mret, M_ret.
  destruct (click_first_load_more load_more_selectors w) as [[[]|e] w']; eauto.
Qed.

Ltac script_ok Hs :=
  match goal with
  | |- context [execute_script ?s ?w] =>
      let z := fresh "z" in
      let w' := fresh "w" in
      let Hz := fresh "Hz" in
      destruct (Hs s w eq_refl) as (z & w' & Hz); rewrite Hz; clear Hz; simpl
  end.

Lemma scroll_step_ok scroll_pause_time st (w : W) :
  scripts_succeed W E → (0 <= scroll_pause_time)%Q →
  ∃ t w', scroll_step scroll_pause_time st w = (Ok t, w').
Proof.
  intros Hs Hp. unfold scroll_step, mbind, M_bind, mret, M_ret.
  do 2 script_ok Hs. rewrite (sleep_ok _ _ Hp).
  destruct (click_load_more_ok (time_sleep scroll_pause_time w1)) as (w2 & ->).
  script_ok Hs.
  destruct (count_images_ok st w3) as (st' & w4 & ->).
  destruct (_ =? _); [|eauto]. simpl.
  destruct (5 <=? _); [|eauto].
  script_ok Hs. rewrite (sleep_twice_ok _ _ Hp). script_ok Hs.
  destruct (_ =? _); [|eauto].
  script_ok Hs. rewrite (sleep_twice_ok _ _ Hp). script_ok Hs.
  destruct (_ && _); eauto.
Qed.

Lemma scroll_loop_ok fuel scroll_pause_time max_scrolls st turns (w : W) r turns' w' :
  scripts_succeed W E → (0 <= scroll_pause_time)%Q →
  scroll_loop fuel scroll_pause_time max_scrolls st turns w = Some (r, turns', w') →
  ∃ st', r = Ok st'.
Proof.
  intros Hs Hp. revert st turns w.
  induction fuel as [|fuel IH]; intros st turns w; simpl; [done|].
  destruct (scrolls st <? max_scrolls).
  - destruct (scroll_step_ok scroll_pause_time st w Hs Hp) as ([st'|st'] & w1 & ->).
    + apply IH.
    + intros [= <- _ _]. eauto.
  - intros [= <- _ _]. eauto.
Qed.

Lemma scroll_prologue_ok (w : W) :
  scripts_succeed W E → ∃ st w', scroll_prologue w = (Ok st, w').
Proof.
  intros Hs. unfold scroll_prologue, mbind, M_bind, mret, M_ret, try_M.
  do 2 script_ok Hs. rewrite ?sleep_true by reflexivity.
  destruct (driver_find_elements _ _ _) as [[l|e] w']; eauto.
Qed.

Lemma scroll_back_ok is_ (w : W) :
  scripts_succeed W E → ∃ w', scroll_back is_ w = (Ok (), w').
Proof.
  intros Hs. revert w. induction is_ as [|i rest IH]; intros w; simpl.
  - unfold mret, M_ret. eauto.
  - unfold mbind, M_bind, mret, M_ret. script_ok Hs.
    destruct (0 <? _); [script_ok Hs; rewrite ?sleep_true by reflexivity|]; apply IH.
Qed.

Lemma scroll_epilogue_ok scroll_pause_time (w : W) :
  scripts_succeed W E → (0 <= scroll_pause_time)%Q →
  ∃ w', scroll_epilogue scroll_pause_time w = (Ok (), w').
Proof.
  intros Hs Hp. unfold scroll_epilogue. generalize [0; 1; 2; 3; 4]. intros is_.
  unfold mbind, M_bind. script_ok Hs. rewrite (sleep_twice_ok _ _ Hp).
  destruct (scroll_back_ok is_ (time_sleep (scroll_pause_time * 2) w0) Hs)
    as (w1 & ->).
  rewrite ?sleep_true by reflexivity. eauto.
Qed.

(** C8: [scroll_page] returns (normally or with an exception) whatever the
    page does, once the loop may test its condition more than [max_scrolls]
    times, and it has then started at most [max_scrolls] turns of the scroll
    loop. *)
Theorem scroll_page_turns_bounded fuel scroll_pause_time max_scrolls (w : W) :
  (Z.to_nat max_scrolls < fuel)%nat →
  ∃ r turns w',
    scroll_page_fuel fuel scroll_pause_time max_scrolls w = Some (r, turns, w') ∧
    Z.of_nat turns ≤ Z.max 0 max_scrolls.
Proof.
  intros Hfuel.
  destruct (scroll_page_fuel_returns fuel scroll_pause_time max_scrolls w Hfuel)
    as (r & turns & w' & Hrun & Hle).
  exists r, turns, w'. split; [done|]. lia.
Qed.

Lemma count_images_streak st (w : W) st1 w1 :
  count_images st w = (Ok st1, w1) →
  no_change_count st1 = no_change_count st ∧
  (no_product_change_count st1 = 0 ∨
   no_product_change_count st1 = no_product_change_count st + 1 ∨
   no_product_change_count st1 = no_product_change_count st).
Proof.
  unfold count_images, try_M, mbind, M_bind, mret, M_ret.
  intros Hc. repeat case_match; simplify_eq; simpl; auto.
Qed.

Lemma scroll_prologue_turn_start (w : W) st w' :
  scroll_prologue w = (Ok st, w') → turn_start st.
Proof.
  unfold scroll_prologue, try_M, mbind, M_bind, mret, M_ret.
  intros Hp. repeat (case_match; simplify_eq); by repeat split.
Qed.

Lemma scroll_step_turn_start scroll_pause_time st (w : W) st' w' :
  turn_start st →
  scroll_step scroll_pause_time st w = (Ok (Next st'), w') →
  turn_start st'.
Proof.
  intros (Hpos & Hle & Hlt).
  unfold scroll_step, mbind, M_bind, mret, M_ret, advance, reset_counts, turn_start.
  intros Hs.
  repeat (case_match; simplify_eq);
    match goal with
    | Hc : count_images _ _ = (Ok _, _) |- _ =>
        apply count_images_streak in Hc as [Hncc Hnpc]; simpl in *
    end;
    repeat match goal with
           | Hge : (_ <=? _) = false |- _ => apply Z.leb_gt in Hge
           end;
    lia.
Qed.

(** A turn in which the count of images raises. *)
Lemma scroll_step_failed_count scroll_pause_time st (w : W) new_height w1 e w2 :
  scripts_succeed W E → (0 <= scroll_pause_time)%Q →
  turn_start st →
  until_count scroll_pause_time w = (Ok new_height, w1) →
  driver_find_elements CSS_SELECTOR "img" w1 = (Raise e, w2) →
  ∃ st' w',
    scroll_step scroll_pause_time st w = (Ok (Next st'), w') ∧
    scrolls st' = scrolls st + 1 ∧
    last_product_count st' = last_product_count st ∧
    (no_product_change_count st' = no_product_change_count st ∨
     no_product_change_count st' = 0).
Proof.
  intros Hs Hp (Hpos & Hle & Hlt) Hu Hcount.
  unfold until_count, mbind, M_bind in Hu.
  unfold scroll_step, mbind, M_bind, mret, M_ret.
  destruct (execute_script ReturnPageYOffset w) as [[z0|e0] wa]; [|done].
  destruct (execute_script (ScrollTo _) wa) as [[z1|e1] wb]; [|done].
  destruct (sleep scroll_pause_time wb) as [[[]|e2] wc]; [|done].
  destruct (click_load_more wc) as [[[]|e3] wd]; [|done].
  rewrite Hu.
  assert (Hc : count_images st w1 = (Ok st, w2)).
  { unfold count_images, try_M, mbind, M_bind. by rewrite Hcount. }
  rewrite Hc.
  destruct (new_height =? last_height st); [|by eexists _, _; simpl; auto].
  simpl. destruct (5 <=? no_change_count st + 1); [|by eexists _, _; simpl; auto].
  script_ok Hs. rewrite (sleep_twice_ok _ _ Hp). script_ok Hs.
  destruct (_ =? _); [|by eexists _, _; simpl; auto].
  script_ok Hs. rewrite (sleep_twice_ok _ _ Hp). script_ok Hs.
  rewrite (proj2 (Z.leb_gt 5 (no_product_change_count st))) by lia.
  rewrite andb_false_r. by eexists _, _; simpl; auto.
Qed.

Lemma scroll_page_fuel_ok fuel scroll_pause_time max_scrolls (w : W) :
  scripts_succeed W E → (0 <= scroll_pause_time)%Q →
  (Z.to_nat max_scrolls < fuel)%nat →
  ∃ turns w',
    scroll_page_fuel fuel scroll_pause_time max_scrolls w = Some (Ok (), turns, w').
Proof.
  intros Hs Hp Hfuel. unfold scroll_page_fuel.
  destruct (scroll_prologue_ok w Hs) as (st & w0 & Hpro). rewrite Hpro.
  apply scroll_prologue_scrolls in Hpro.
  destruct (scroll_loop_returns fuel scroll_pause_time max_scrolls st 0 w0)
    as (r & turns & w1 & Hloop & _); [rewrite Hpro, Z.sub_0_r; lia|].
  rewrite Hloop. destruct (scroll_loop_ok _ _ _ _ _ _ _ _ _ Hs Hp Hloop) as (st' & ->).
  destruct (scroll_epilogue_ok scroll_pause_time w1 Hs Hp) as (w2 & ->).
  eauto.
Qed.


End ScrollErrors.

Lemma scroll_page_turns_bounded_witness :
  (Z.to_nat 150 < 151)%nat ∧
  ∃ r turns w',
    scroll_page_fuel 151 (5 # 2) 150 Pages.plateau_page = Some (r, turns, w') ∧
    Z.of_nat turns ≤ Z.max 0 150.
Proof.
  split; [lia|].
  apply (scroll_page_turns_bounded 151 (5 # 2) 150 Pages.plateau_page). lia.
Defined.

(** On a page that never grows the loop stops by itself after ten turns, and
    after [max_scrolls] turns when that is less. *)
Example plateau_turns :
  scroll_page (5 # 2) 150 Pages.plateau_page = Some (Ok (), 10%nat, Pages.plateau_page) ∧
  scroll_page (5 # 2) 3 Pages.plateau_page = Some (Ok (), 3%nat, Pages.plateau_page).
Proof. split; vm_compute; reflexivity. Qed.


(** The first turn on such a page: the search for a load-more button fails
    for every selector and the count of images fails; the turn falls through
    with one more scroll and one more turn without growth. *)
Example failed_count_turn :
  until_count (5 # 2) (Fake.flaky 3) = (Ok 1000, Fake.flaky 14) ∧
  driver_find_elements CSS_SELECTOR "img" (Fake.flaky 14)
    = (Raise (WebDriverException "query failed"), Fake.flaky 15) ∧
  scroll_step (5 # 2) (mkScroll 1000 0 0 0 0) (Fake.flaky 3)
    = (Ok (Next (mkScroll 1000 0 1 1 0)), Fake.flaky 15).
Proof. repeat split; vm_compute; reflexivity. Qed.

(** On such a page every turn meets errors: the search for a load-more
    button and the count of images fail each time.  The loop goes on to the
    cap. *)
Example flaky_page_runs_to_the_cap :
  fst <$> scroll_page (5 # 2) 150 (Fake.flaky 0) = Some (Ok (), 150%nat).
Proof. vm_compute. reflexivity. Qed.


(** ** Merging the second pass twice *)

Section MergeTwice.
Context `{WebElement E} `{Session W E} `{Unembedded W E}.

Lemma elem_of_existing_urls u ps :
  u ∈ existing_urls_of ps ↔
  ∃ p, p ∈ ps ∧ product_hyperlink p = Some u ∧ str_truthy u = true.
Proof.
  unfold existing_urls_of. rewrite elem_of_list_to_set, list_elem_of_fmap. split.
  - intros (o & -> & Ho). apply list_elem_of_filter in Ho as [Ht Ho].
    apply list_elem_of_fmap in Ho as (p & -> & Hp).
    exists p. destruct (product_hyperlink p) as [[|c v]|]; try done.
  - intros (p & Hp & Hu & Ht). exists (Some u). split; [by destruct u|].
    apply list_elem_of_filter. split; [done|].
    apply list_elem_of_fmap. by exists p.
Qed.

Lemma elem_of_existing_titles t ps :
  t ∈ existing_titles_of ps ↔
  ∃ p, p ∈ ps ∧ product_title p = Some t ∧ str_truthy t = true.
Proof.
  unfold existing_titles_of. rewrite elem_of_list_to_set, list_elem_of_fmap. split.
  - intros (o & -> & Ho). apply list_elem_of_filter in Ho as [Ht Ho].
    apply list_elem_of_fmap in Ho as (p & -> & Hp).
    exists p. destruct (product_title p) as [[|c v]|]; try done.
  - intros (p & Hp & Hu & Ht). exists (Some t). split; [by destruct t|].
    apply list_elem_of_filter. split; [done|].
    apply list_elem_of_fmap. by exists p.
Qed.

Lemma existing_urls_of_app ps ps' :
  existing_urls_of (ps ++ ps') = existing_urls_of ps ∪ existing_urls_of ps'.
Proof.
  apply set_eq. intros u. rewrite elem_of_union, !elem_of_existing_urls.
  setoid_rewrite elem_of_app. naive_solver.
Qed.

Lemma existing_titles_of_app ps ps' :
  existing_titles_of (ps ++ ps') = existing_titles_of ps ∪ existing_titles_of ps'.
Proof.
  apply set_eq. intros u. rewrite elem_of_union, !elem_of_existing_titles.
  setoid_rewrite elem_of_app. naive_solver.
Qed.

Lemma in_set_false o (s : gset string) :
  truthy o && negb (in_set o s) = false →
  ∀ k, o = Some k → str_truthy k = true → k ∈ s.
Proof.
  intros Hc k -> Hk. simpl in Hc. rewrite Hk in Hc. simpl in Hc.
  apply negb_false_iff, bool_decide_eq_true in Hc. done.
Qed.

(** After the merge every truthy hyperlink and title of the second pass is
    in the sets. *)
Lemma new_products_of_covered products_pass2 urls titles acc :
  ∃ sub,
    new_products_of products_pass2 urls titles acc = acc ++ sub ∧
    covered products_pass2 (urls ∪ existing_urls_of sub)
      (titles ∪ existing_titles_of sub).
Proof.
  revert urls titles acc.
  induction products_pass2 as [|p rest IH]; intros urls titles acc; simpl.
  - exists []. split; [by rewrite app_nil_r|]. intros p Hp. by apply elem_of_nil in Hp.
  - destruct (_ || _) eqn:Hc.
    + destruct (IH (if truthy (product_hyperlink p)
                    then add_to (product_hyperlink p) urls else urls)
                   (if truthy (product_title p)
                    then add_to (product_title p) titles else titles)
                   (acc ++ [p])) as (sub & -> & Hcov).
      exists (p :: sub). split; [by rewrite <- app_assoc|].
      intros q Hq. apply elem_of_cons in Hq as [->|Hq].
      * split; intros k Hk Ht; apply elem_of_union_r.
        -- apply elem_of_existing_urls. exists p. split; [left|done].
        -- apply elem_of_existing_titles. exists p. split; [left|done].
      * destruct (Hcov q Hq) as [Hu Ht]. split; intros k Hk Hk'.
        -- specialize (Hu k Hk Hk'). apply elem_of_union in Hu as [Hu|Hu].
           ++ destruct (truthy (product_hyperlink p)) eqn:Htp; [|set_solver].
              destruct (product_hyperlink p) as [u|] eqn:Hup; [|done]. simpl in Hu.
              apply elem_of_union in Hu as [Hu|Hu]; [|set_solver].
              apply elem_of_singleton in Hu as ->.
              apply elem_of_union_r, elem_of_existing_urls. exists p.
              split; [left|done].
           ++ apply elem_of_union_r. apply elem_of_existing_urls in Hu as (x & Hx & Hxu).
              apply elem_of_existing_urls. exists x. split; [by right|done].
        -- specialize (Ht k Hk Hk'). apply elem_of_union in Ht as [Ht|Ht].
           ++ destruct (truthy (product_title p)) eqn:Htp; [|set_solver].
              destruct (product_title p) as [u|] eqn:Hup; [|done]. simpl in Ht.
              apply elem_of_union in Ht as [Ht|Ht]; [|set_solver].
              apply elem_of_singleton in Ht as ->.
              apply elem_of_union_r, elem_of_existing_titles. exists p.
              split; [left|done].
           ++ apply elem_of_union_r. apply elem_of_existing_titles in Ht as (x & Hx & Hxu).
              apply elem_of_existing_titles. exists x. split; [by right|done].
    + destruct (IH urls titles acc) as (sub & -> & Hcov).
      exists sub. split; [done|].
      apply orb_false_iff in Hc as [Hcu Hct].
      intros q Hq. apply elem_of_cons in Hq as [->|Hq]; [|by apply Hcov].
      split; intros k Hk Hk'; apply elem_of_union_l.
      * by eapply in_set_false.
      * by eapply in_set_false.
Qed.

(** A second pass whose hyperlinks and titles are all known adds nothing. *)
Lemma new_products_of_known products_pass2 urls titles acc :
  covered products_pass2 urls titles →
  new_products_of products_pass2 urls titles acc = acc.
Proof.
  induction products_pass2 as [|p rest IH]; intros Hcov; simpl; [done|].
  assert (Hp : p ∈ p :: rest) by left.
  destruct (Hcov p Hp) as [Hu Ht].
  assert (Hcu : truthy (product_hyperlink p) &&
                negb (in_set (product_hyperlink p) urls) = false).
  { destruct (product_hyperlink p) as [u|]; [|done]. simpl.
    destruct (str_truthy u) eqn:Hs; [|done]. simpl.
    apply negb_false_iff, bool_decide_eq_true. by apply Hu. }
  assert (Hct : truthy (product_title p) &&
                negb (in_set (product_title p) titles) = false).
  { destruct (product_title p) as [u|]; [|done]. simpl.
    destruct (str_truthy u) eqn:Hs; [|done]. simpl.
    apply negb_false_iff, bool_decide_eq_true. by apply Ht. }
  rewrite Hcu, Hct. simpl. apply IH.
  intros q Hq. apply Hcov. by right.
Qed.

Lemma merge_pass2_idempotent ps products_pass2 :
  merge_pass2 (merge_pass2 ps products_pass2) products_pass2
  = merge_pass2 ps products_pass2.
Proof.
  destruct (new_products_of_covered products_pass2 (existing_urls_of ps)
              (existing_titles_of ps) []) as (sub & Hsub & Hcov).
  simpl in Hsub.
  assert (Hfirst : merge_pass2 ps products_pass2
                   = match sub with [] => ps | _ :: _ => ps ++ sub end).
  { unfold merge_pass2. by rewrite Hsub. }
  rewrite Hfirst. destruct sub as [|p sub]; [exact Hfirst|].
  unfold merge_pass2.
  rewrite existing_urls_of_app, existing_titles_of_app.
  by rewrite (new_products_of_known _ _ _ [] Hcov).
Qed.

(** Running the acceptance loop again on the same candidates, with the keys
    it has just recorded, accepts nothing. *)
Lemma accept_products_again (els : list E) idx seen acc found seen' seen2 acc2 :
  accept_products els idx seen acc = (found, seen') →
  seen' ⊆ seen2 →
  accept_products els idx seen2 acc2 = (acc2, seen2).
Proof.
  revert idx seen acc. induction els as [|element rest IH]; intros idx seen acc; simpl;
    [done|].
  set (pd := extract_product_data element idx).
  destruct (has_essential_data pd && negb (is_category pd)); [|apply IH].
  destruct (truthy (unique_key pd) && negb (in_set (unique_key pd) seen)) eqn:Hnew.
  - intros Hrun Hsub.
    pose proof Hrun as Hspec.
    apply accept_products_spec in Hspec as (new & _ & _ & ->).
    apply andb_true_iff in Hnew as [Hkey _].
    destruct (unique_key pd) as [k|] eqn:Hk; [|done].
    assert (Hin : in_set (Some k) seen2 = true).
    { simpl. apply bool_decide_eq_true. simpl in Hsub. set_solver. }
    rewrite Hin, andb_false_r. by eapply IH.
  - intros Hrun Hsub.
    pose proof Hrun as Hspec.
    apply accept_products_spec in Hspec as (new & _ & _ & ->).
    assert (Hold : truthy (unique_key pd) && negb (in_set (unique_key pd) seen2) = false).
    { destruct (unique_key pd) as [k|]; [|done]. simpl in *.
      destruct (str_truthy k); [|done]. simpl in *.
      apply negb_false_iff, bool_decide_eq_true in Hnew.
      apply negb_false_iff, bool_decide_eq_true. set_solver. }
    rewrite Hold. by eapply IH.
Qed.

(** C9: the merge of lines 250-266 is idempotent: merging the same second
    pass again into the collection it has produced changes nothing; and the
    acceptance loop of [extract_products], run again on the same candidates
    with the keys recorded by its first run, accepts no record. *)
Theorem second_merge_adds_nothing (ps products_pass2 : list Product)
    (els : list E) idx seen :
  merge_pass2 (merge_pass2 ps products_pass2) products_pass2
    = merge_pass2 ps products_pass2 ∧
  (accept_products els idx (accept_products els idx seen []).2 []).1 = [].
Proof.
  split; [apply merge_pass2_idempotent|].
  destruct (accept_products els idx seen []) as [found seen'] eqn:Hrun. simpl.
  by rewrite (accept_products_again _ _ _ _ _ _ seen' [] Hrun).
Qed.

End MergeTwice.

(** ** What [scrape_category_page] returns *)

Section ReturnedList.
Context `{WebElement E} `{Session W E} `{Unembedded W E}.

Lemma fresh_subseteq urls titles urls' titles' p :
  urls' ⊆ urls → titles' ⊆ titles → fresh urls titles p → fresh urls' titles' p.
Proof.
  intros Hu Ht [(u & Hpu & Hs & Hn)|(t & Hpt & Hs & Hn)].
  - left. exists u. repeat (split; [done|]). set_solver.
  - right. exists t. repeat (split; [done|]). set_solver.
Qed.

Lemma existing_urls_of_nil : existing_urls_of [] = ∅.
Proof. done. Qed.

Lemma existing_titles_of_nil : existing_titles_of [] = ∅.
Proof. done. Qed.

Lemma existing_urls_of_cons p ps :
  existing_urls_of (p :: ps)
  ⊆ (if truthy (product_hyperlink p) then add_to (product_hyperlink p) ∅ else ∅)
    ∪ existing_urls_of ps.
Proof.
  intros u Hu. apply elem_of_existing_urls in Hu as (q & Hq & Hqu & Hs).
  apply elem_of_cons in Hq as [->|Hq].
  - rewrite Hqu. simpl. rewrite Hs. simpl. set_solver.
  - apply elem_of_union_r, elem_of_existing_urls. by exists q.
Qed.

Lemma existing_titles_of_cons p ps :
  existing_titles_of (p :: ps)
  ⊆ (if truthy (product_title p) then add_to (product_title p) ∅ else ∅)
    ∪ existing_titles_of ps.
Proof.
  intros u Hu. apply elem_of_existing_titles in Hu as (q & Hq & Hqu & Hs).
  apply elem_of_cons in Hq as [->|Hq].
  - rewrite Hqu. simpl. rewrite Hs. simpl. set_solver.
  - apply elem_of_union_r, elem_of_existing_titles. by exists q.
Qed.

(** Each record that the merge appends passes the test of line 258 against
    the sets as they are when its turn comes. *)
Lemma new_products_of_fresh products_pass2 urls titles acc :
  ∃ sub,
    new_products_of products_pass2 urls titles acc = acc ++ sub ∧
    ∀ l1 p l2, sub = l1 ++ p :: l2 →
      fresh (urls ∪ existing_urls_of l1) (titles ∪ existing_titles_of l1) p.
Proof.
  revert urls titles acc.
  induction products_pass2 as [|p rest IH]; intros urls titles acc; simpl.
  - exists []. split; [by rewrite app_nil_r|]. intros [|x l1] q l2 Hsplit; done.
  - destruct (_ || _) eqn:Hc.
    + destruct (IH (if truthy (product_hyperlink p)
                    then add_to (product_hyperlink p) urls else urls)
                   (if truthy (product_title p)
                    then add_to (product_title p) titles else titles)
                   (acc ++ [p])) as (sub & -> & Hfresh).
      exists (p :: sub). split; [by rewrite <- app_assoc|].
      intros [|x l1] q l2 Hsplit; simpl in Hsplit; injection Hsplit as <- ->.
      * rewrite existing_urls_of_nil, existing_titles_of_nil, !(right_id_L ∅ (∪)).
        apply orb_true_iff in Hc as [Hc|Hc]; apply andb_true_iff in Hc as [Ht Hin];
          apply negb_true_iff in Hin.
        -- left. destruct (product_hyperlink p) as [u|]; [|done]. exists u.
           split; [done|]. split; [done|]. by apply bool_decide_eq_false in Hin.
        -- right. destruct (product_title p) as [t|]; [|done]. exists t.
           split; [done|]. split; [done|]. by apply bool_decide_eq_false in Hin.
      * eapply fresh_subseteq; [| |by eapply Hfresh].
        -- pose proof (existing_urls_of_cons p l1) as Hcons.
           destruct (truthy (product_hyperlink p)); [|set_solver].
           destruct (product_hyperlink p); simpl in *; set_solver.
        -- pose proof (existing_titles_of_cons p l1) as Hcons.
           destruct (truthy (product_title p)); [|set_solver].
           destruct (product_title p); simpl in *; set_solver.
    + destruct (IH urls titles acc) as (sub & -> & Hfresh). by exists sub.
Qed.

Lemma fresh_new_to ps l p :
  fresh (existing_urls_of ps ∪ existing_urls_of l)
        (existing_titles_of ps ∪ existing_titles_of l) p →
  new_to (ps ++ l) p.
Proof.
  rewrite <- existing_urls_of_app, <- existing_titles_of_app.
  intros [(u & Hpu & Hs & Hn)|(t & Hpt & Hs & Hn)].
  - left. exists u. repeat (split; [done|]). intros q Hq Hqu. apply Hn.
    apply elem_of_existing_urls. by exists q.
  - right. exists t. repeat (split; [done|]). intros q Hq Hqt. apply Hn.
    apply elem_of_existing_titles. by exists q.
Qed.

Lemma new_to_not_in ps p : new_to ps p → p ∉ ps.
Proof.
  intros [(u & Hpu & _ & Hn)|(t & Hpt & _ & Hn)] Hin.
  - by apply (Hn p Hin).
  - by apply (Hn p Hin).
Qed.

(** The merge of lines 250-266: what is appended is a part of the second
    pass, each appended record is new to the collection before it, and
    every record of the second pass is held by the collection after it. *)
Lemma merge_pass2_new ps products_pass2 :
  ∃ later,
    merge_pass2 ps products_pass2 = ps ++ later ∧
    later `sublist_of` products_pass2 ∧
    (∀ l1 p l2, later = l1 ++ p :: l2 → new_to (ps ++ l1) p) ∧
    (∀ p, p ∈ products_pass2 → held_by (ps ++ later) p).
Proof.
  destruct (new_products_of_fresh products_pass2 (existing_urls_of ps)
              (existing_titles_of ps) []) as (later & Hrun & Hfresh).
  destruct (new_products_of_sublist products_pass2 (existing_urls_of ps)
              (existing_titles_of ps) []) as (later' & Hrun' & Hsub).
  destruct (new_products_of_covered products_pass2 (existing_urls_of ps)
              (existing_titles_of ps) []) as (later'' & Hrun'' & Hcov).
  rewrite Hrun in Hrun', Hrun''. simpl in *. subst later' later''.
  exists later. split; [|split; [done|split]].
  - unfold merge_pass2. rewrite Hrun. destruct later; [by rewrite app_nil_r|done].
  - intros l1 p l2 Hsplit. by eapply fresh_new_to, Hfresh.
  - rewrite <- existing_urls_of_app, <- existing_titles_of_app in Hcov.
    intros p Hp. destruct (Hcov p Hp) as [Hu Ht]. split.
    + intros u Hpu Hs. specialize (Hu u Hpu Hs).
      apply elem_of_existing_urls in Hu as (q & Hq & Hqu & _). by exists q.
    + intros t Hpt Hs. specialize (Ht t Hpt Hs).
      apply elem_of_existing_titles in Ht as (q & Hq & Hqt & _). by exists q.
Qed.

(** Both passes when nothing raises. *)
Lemma two_passes_run self (w : W) found1 self1 w1 w2 found2 self2 w3 :
  extract_products None (self, w) = (Ok found1, (self1, w1)) →
  between_passes w1 = (Ok (), w2) →
  extract_products None (extended self1 found1, w2) = (Ok found2, (self2, w3)) →
  two_passes (self, w)
  = (Ok found1,
     (mkScraper (merge_pass2 (products self2) found2) (seen_urls self2)
        (debug_saved self2), w3)).
Proof.
  intros Hp1 Hbetween Hp2.
  unfold two_passes, mbind at 1, M_bind at 1. rewrite Hp1.
  unfold between_passes in Hbetween. unfold extended in Hp2.
  unfold update_products, modify_M, mbind, M_bind, mret, M_ret, liftW, sleep in *.
  simpl in *.
  destruct (execute_script ScrollToBottom _) as [[z|e] wa]; [|done].
  destruct (execute_script (ScrollTo 0) _) as [[z'|e] wb]; [|done].
  injection Hbetween as <-. by rewrite Hp2.
Qed.

Lemma scrape_category_page_run page_url self (w : W)
    w0 turns w1 w2 found1 self1 w3 w4 found2 self2 w5 :
  before_scrolling page_url w = (Ok (), w0) →
  scroll_page (5 # 2) 150 w0 = Some (Ok (), turns, w1) →
  after_scrolling w1 = (Ok (), w2) →
  extract_products None (self, w2) = (Ok found1, (self1, w3)) →
  between_passes w3 = (Ok (), w4) →
  extract_products None (extended self1 found1, w4) = (Ok found2, (self2, w5)) →
  scrape_category_page page_url self w
  = Some (found1,
          mkScraper (merge_pass2 (products self ++ found1) found2) (seen_urls self2)
            (debug_saved self2), w5).
Proof.
  intros Hbefore Hscroll Hafter Hp1 Hbetween Hp2.
  unfold scrape_category_page. rewrite Hbefore, Hscroll.
  unfold mbind at 1, M_bind at 1, liftW at 1. rewrite Hafter.
  rewrite (two_passes_run _ _ _ _ _ _ _ _ _ Hp1 Hbetween Hp2).
  apply extract_products_spec in Hp1 as (Hps1 & _).
  apply extract_products_spec in Hp2 as (Hps2 & _).
  simpl in Hps2. by rewrite Hps2, Hps1.
Qed.

(** C10: [scrape_category_page] always returns, and [self.products] is then
    what it was, followed by the returned records, followed by records that
    are not in the returned list; on a scraper without products the returned
    list is a prefix of [self.products].  In a run where nothing raises, with
    [found1] the list that the first call of [extract_products] gives and
    [found2] the list of the second call: the method returns [found1];
    [self.products] is what it was, then [found1], then a part [later] of
    [found2] in the order of [found2]; each record of [later] has a hyperlink
    or a title that no record before it in [self.products] has, so it is not in
    the returned list; and every hyperlink and title of [found2] is that of
    a record now in [self.products]. *)
Theorem returned_list_is_first_pass page_url self (w : W) :
  (∃ ret self' w' later,
     scrape_category_page page_url self w = Some (ret, self', w') ∧
     products self' = products self ++ ret ++ later ∧
     (∀ r, r ∈ later → r ∉ ret) ∧
     (products self = [] → ret `prefix_of` products self')) ∧
  (∀ w0 turns w1 w2 found1 self1 w3 w4 found2 self2 w5,
     before_scrolling page_url w = (Ok (), w0) →
     scroll_page (5 # 2) 150 w0 = Some (Ok (), turns, w1) →
     after_scrolling w1 = (Ok (), w2) →
     extract_products None (self, w2) = (Ok found1, (self1, w3)) →
     between_passes w3 = (Ok (), w4) →
     extract_products None (extended self1 found1, w4) = (Ok found2, (self2, w5)) →
     ∃ self' later,
       scrape_category_page page_url self w = Some (found1, self', w5) ∧
       products self' = products self ++ found1 ++ later ∧
       later `sublist_of` found2 ∧
       (∀ l1 p l2, later = l1 ++ p :: l2 →
          new_to (products self ++ found1 ++ l1) p) ∧
       (∀ r, r ∈ later → r ∉ found1) ∧
       (∀ p, p ∈ found2 → held_by (products self') p)).
Proof.
  split.
  - destruct (scrape_category_page_spec page_url self w)
      as (ret & self' & w' & Hrun & new1 & new2 & sub2 & Hok1 & Hok2 & Hsub & Hseen
          & Hps & Hret).
    assert (Hshape : ∃ later, products self' = products self ++ ret ++ later ∧
                              ∀ r, r ∈ later → r ∉ ret).
    { destruct Hret as [->|[-> ->]].
      - exists sub2. split; [done|]. intros r Hr Hr1.
        destruct Hok2 as (Hacc2 & _ & Hfresh2).
        assert (Hr2 : r ∈ new2) by exact (elem_of_sublist _ _ _ Hr Hsub).
        rewrite Forall_forall in Hacc2.
        destruct (accepted_key r (Hacc2 r Hr2)) as (k & Hk).
        apply (Hfresh2 r k Hr2 Hk), elem_of_union_l, elem_of_keys_of. by exists r.
      - exists new1. split; [by rewrite Hps, app_nil_r|]. intros r _ Hr.
        by apply elem_of_nil in Hr. }
    destruct Hshape as (later & Hlater & Hnot).
    exists ret, self', w', later. repeat (split; [done|]).
    intros Hempty. rewrite Hlater, Hempty. simpl. by exists later.
  - intros w0 turns w1 w2 found1 self1 w3 w4 found2 self2 w5
      Hbefore Hscroll Hafter Hp1 Hbetween Hp2.
    destruct (merge_pass2_new (products self ++ found1) found2)
      as (later & Hmerge & Hsub & Hnew & Hheld).
    eexists _, later. split.
    { exact (scrape_category_page_run _ _ _ _ _ _ _ _ _ _ _ _ _ _
               Hbefore Hscroll Hafter Hp1 Hbetween Hp2). }
    simpl. rewrite Hmerge, <- !app_assoc. split; [done|]. split; [done|].
    split; [|split].
    + intros l1 p l2 Hsplit. rewrite app_assoc. by eapply Hnew.
    + intros r Hr Hin. apply list_elem_of_split in Hr as (l1 & l2 & Hsplit).
      apply (new_to_not_in _ _ (Hnew l1 r l2 Hsplit)).
      apply elem_of_app. left. apply elem_of_app. by right.
    + intros p Hp. rewrite app_assoc. by apply Hheld.
Qed.

End ReturnedList.

Lemma returned_list_is_first_pass_witness :
  ∃ w0 turns w1 w2 found1 self1 w3 w4 found2 self2 w5,
    before_scrolling "https://heb.com" Pages.two_pass_page = (Ok (), w0) ∧
    scroll_page (5 # 2) 150 w0 = Some (Ok (), turns, w1) ∧
    after_scrolling w1 = (Ok (), w2) ∧
    extract_products None (new_scraper, w2) = (Ok found1, (self1, w3)) ∧
    between_passes w3 = (Ok (), w4) ∧
    extract_products None (extended self1 found1, w4) = (Ok found2, (self2, w5)) ∧
    product_hyperlink <$> found1
      = [Some "https://heb.com/p/A"; Some "https://heb.com/p/B";
         Some "https://heb.com/p/C"] ∧
    product_hyperlink <$> found2 = [Some "https://heb.com/p/D"] ∧
    ∃ self' later,
      scrape_category_page "https://heb.com" new_scraper Pages.two_pass_page
        = Some (found1, self', w5) ∧
      products self' = products new_scraper ++ found1 ++ later ∧
      later `sublist_of` found2 ∧
      (∀ l1 p l2, later = l1 ++ p :: l2 →
         new_to (products new_scraper ++ found1 ++ l1) p) ∧
      (∀ r, r ∈ later → r ∉ found1) ∧
      (∀ p, p ∈ found2 → held_by (products self') p).
Proof.
  pose (x0 := before_scrolling "https://heb.com" Pages.two_pass_page).
  pose (x1 := match scroll_page (5 # 2) 150 x0.2 with
              | Some (_, turns, w1) => (turns, w1)
              | None => (O, x0.2)
              end).
  pose (x2 := after_scrolling x1.2).
  pose (x3 := extract_products None (new_scraper, x2.2)).
  pose (found1 := match x3.1 with Ok found => found | Raise _ => [] end).
  pose (x4 := between_passes x3.2.2).
  pose (x5 := extract_products None (extended x3.2.1 found1, x4.2)).
  pose (found2 := match x5.1 with Ok found => found | Raise _ => [] end).
  assert (H0 : before_scrolling "https://heb.com" Pages.two_pass_page = (Ok (), x0.2))
    by (vm_compute; reflexivity).
  assert (H1 : scroll_page (5 # 2) 150 x0.2 = Some (Ok (), x1.1, x1.2))
    by (vm_compute; reflexivity).
  assert (H2 : after_scrolling x1.2 = (Ok (), x2.2)) by (vm_compute; reflexivity).
  assert (H3 : extract_products None (new_scraper, x2.2)
               = (Ok found1, (x3.2.1, x3.2.2))) by (vm_compute; reflexivity).
  assert (H4 : between_passes x3.2.2 = (Ok (), x4.2)) by (vm_compute; reflexivity).
  assert (H5 : extract_products None (extended x3.2.1 found1, x4.2)
               = (Ok found2, (x5.2.1, x5.2.2))) by (vm_compute; reflexivity).
  exists x0.2, x1.1, x1.2, x2.2, found1, x3.2.1, x3.2.2, x4.2, found2, x5.2.1, x5.2.2.
  do 6 (split; [assumption|]).
  split; [vm_compute; reflexivity|]. split; [vm_compute; reflexivity|].
  exact (proj2 (returned_list_is_first_pass "https://heb.com" new_scraper
                  Pages.two_pass_page)
           _ _ _ _ _ _ _ _ _ _ _ H0 H1 H2 H3 H4 H5).
Defined.

(** ** Titles and prices *)

Section TitlesAndPrices.
Context `{WebElement E}.

Lemma extract_product_data_unfold element index :
  extract_product_data element index =
  match extract_hyperlink element index empty_product with
  | (Raise _, p) => p
  | (Ok _, p) =>
      match extract_title element p with
      | (Raise _, p) => p
      | (Ok _, p) =>
          match extract_price element p with
          | (Raise _, p) => p
          | (Ok _, p) => snd (extract_image element p)
          end
      end
  end.
Proof.
  unfold extract_product_data, mbind, M_bind.
  repeat case_match; simplify_eq; done.
Qed.

Lemma extract_price_ok element p : fst (extract_price element p) = Ok ().
Proof. reflexivity. Qed.

Lemma extract_hyperlink_ok element index p :
  debug_preview element index = Ok () →
  (∃ h1, link_of_self element = Ok h1) →
  fst (extract_hyperlink element index p) = Ok ().
Proof.
  intros Hd [h1 Hl]. unfold extract_hyperlink, mbind, M_bind, lift_exc.
  rewrite Hd, Hl. reflexivity.
Qed.

Lemma line_ok_truthy line : line_ok line = true → str_truthy (slice_to 150 line) = true.
Proof.
  unfold line_ok, title_length_ok. intros Hl.
  repeat (apply andb_true_iff in Hl as [Hl _]).
  destruct line; [|done]. by vm_compute in Hl.
Qed.

Lemma first_line_find lines :
  first_line lines = slice_to 150 <$> List.find line_ok lines.
Proof.
  induction lines as [|line rest IH]; simpl; [done|].
  destruct (line_ok line); [done|exact IH].
Qed.

Lemma first_line_truthy lines t : first_line lines = Some t → str_truthy t = true.
Proof.
  induction lines as [|line rest IH]; simpl; [done|].
  destruct (line_ok line) eqn:Hl; [|exact IH].
  intros [= <-]. by apply line_ok_truthy.
Qed.

Lemma title_of_text_truthy element t :
  title_of_text element = Some t → str_truthy t = true.
Proof.
  unfold title_of_text. destruct (text element) as [tx|]; simpl; [|done].
  destruct (str_truthy (strip tx)); [|done]. apply first_line_truthy.
Qed.

(** Once strategy 2 has set the title, the later strategies leave it. *)
Lemma extract_title_from_text element p t :
  product_title p = None →
  title_of_selectors element title_selectors = None →
  title_of_text element = Some t →
  ∃ p', extract_title element p = (Ok (), p') ∧ product_title p' = Some t.
Proof.
  intros Hp Hsel Htext. pose proof (title_of_text_truthy _ _ Htext) as Ht.
  unfold extract_title, unless_set, mbind, M_bind, modify_M, get_M, lift_exc,
    mret, M_ret.
  rewrite Hsel, Htext. destruct p as [ti pr im hl]. simpl in Hp. subst ti.
  simpl. repeat (rewrite Ht; simpl). eauto.
Qed.

(** C6, as amended: every title that [extract_product_data] returns has at
    most 150 characters.  Strategy 2 takes the first stripped, non-empty line
    of the candidate's text that passes the test of lines 1291-1299
    ([line_ok]: 5 to 200 characters, no price at its start, none of [price],
    [add to cart], [buy now], [view details], [shop now], [learn more], and
    at least two words), cut to 150 characters; and when the hyperlink step
    has not raised and strategy 1 has found nothing, that is the title of the
    record. *)
Theorem title_from_text_lines element index :
  (∀ t, product_title (extract_product_data element index) = Some t →
        (String.length t ≤ 150)%nat) ∧
  (∀ tx, text element = Ok tx →
         title_of_text element
         = slice_to 150 <$> List.find line_ok (text_lines (strip tx))) ∧
  (∀ t, fst (extract_hyperlink element index empty_product) = Ok () →
        title_of_selectors element title_selectors = None →
        title_of_text element = Some t →
        product_title (extract_product_data element index) = Some t).
Proof.
  split; [|split].
  - intros t Ht. destruct (extract_product_data_short element index t Ht) as (x & ->).
    apply slice_to_length.
  - intros tx Htx. unfold title_of_text. rewrite Htx. simpl.
    rewrite <- first_line_find.
    destruct (str_truthy (strip tx)) eqn:Hs; [done|].
    destruct (strip tx); [|done]. by vm_compute.
  - intros t Hok Hsel Htext. rewrite extract_product_data_unfold.
    pose proof (extract_hyperlink_keeps (λ p, product_title p = None) element index
                  (λ v p Hp, Hp) empty_product eq_refl) as Hnone.
    destruct (extract_hyperlink element index empty_product) as [r p1].
    simpl in Hok, Hnone. subst r.
    destruct (extract_title_from_text element p1 t Hnone Hsel Htext) as (p2 & -> & Hp2).
    pose proof (extract_price_keeps (λ p, product_title p = Some t) element
                  (λ v p Hp, Hp) p2 Hp2) as Hp3.
    pose proof (extract_price_ok element p2) as Hok3.
    destruct (extract_price element p2) as [r3 p3]. simpl in Hp3, Hok3. subst r3.
    exact (extract_image_keeps (λ p, product_title p = Some t) element
             (λ v p Hp, Hp) p3 Hp3).
Qed.

(** *** A candidate whose only text is a price *)

Section PriceOnly.
Variable element : E.
Hypothesis Htext : text element = Ok "$12.99".
Hypothesis Hdesc : ∀ by_ value l d,
  find_elements element by_ value = Ok l → d ∈ l →
  text d = Ok EmptyString ∨ text d = Ok "$12.99".

Lemma first_title_price_only l :
  (∀ d, d ∈ l → text d = Ok EmptyString ∨ text d = Ok "$12.99") →
  first_title l = Ok None.
Proof.
  induction l as [|d rest IH]; intros Hl; simpl; [done|].
  assert (Hrest : first_title rest = Ok None).
  { apply IH. intros d' Hd'. apply Hl. by right. }
  destruct (Hl d) as [-> | ->]; [left|exact Hrest|exact Hrest].
Qed.

Lemma title_of_selectors_price_only selectors :
  title_of_selectors element selectors = None.
Proof.
  induction selectors as [|selector rest IH]; simpl; [done|].
  destruct (find_elements element CSS_SELECTOR selector) as [l|] eqn:Hl; simpl;
    [|exact IH].
  rewrite first_title_price_only; [exact IH|]. intros d Hd. by eapply Hdesc.
Qed.

Lemma first_price_price_only l :
  (∀ d, d ∈ l → text d = Ok EmptyString ∨ text d = Ok "$12.99") →
  first_price l = Ok None ∨ first_price l = Ok (Some "$12.99").
Proof.
  induction l as [|d rest IH]; intros Hl; simpl; [by left|].
  assert (Hrest : first_price rest = Ok None ∨ first_price rest = Ok (Some "$12.99")).
  { apply IH. intros d' Hd'. apply Hl. by right. }
  destruct (Hl d) as [-> | ->]; [left|exact Hrest|by right].
Qed.

Lemma price_of_selectors_price_only selectors :
  price_of_selectors element selectors = None ∨
  price_of_selectors element selectors = Some "$12.99".
Proof.
  induction selectors as [|selector rest IH]; simpl; [by left|].
  destruct (find_elements element CSS_SELECTOR selector) as [l|] eqn:Hl; simpl;
    [|exact IH].
  destruct (first_price_price_only l) as [-> | ->];
    [intros d Hd; by eapply Hdesc|exact IH|by right].
Qed.

Lemma extract_price_price_only im hl :
  extract_price element (mkProduct None None im hl)
  = (Ok (), mkProduct None (Some "$12.99") im hl).
Proof.
  assert (Htxt : price_of_text element = Some "$12.99").
  { unfold price_of_text. rewrite Htext. by vm_compute. }
  unfold extract_price, unless_set, mbind, M_bind, modify_M.
  destruct (price_of_selectors_price_only price_selectors) as [-> | ->]; simpl.
  - by rewrite Htxt.
  - done.
Qed.

Lemma extract_title_price_only tag pr im hl :
  tag_name element = Ok tag →
  get_attribute element "aria-label" = Ok None →
  get_attribute element "title" = Ok None →
  extract_title element (mkProduct None pr im hl) = (Ok (), mkProduct None pr im hl).
Proof.
  intros Htag Haria Htitle.
  assert (Htxt : title_of_text element = None).
  { unfold title_of_text. rewrite Htext. by vm_compute. }
  assert (Hlink : title_of_link_text element = None).
  { unfold title_of_link_text. rewrite Htext. by vm_compute. }
  unfold extract_title, unless_set, mbind, M_bind, modify_M, get_M, lift_exc,
    mret, M_ret, title_of_attribute.
  rewrite title_of_selectors_price_only, Htxt, Hlink, Htag, Haria, Htitle. simpl.
  by destruct (String.eqb (lower tag) "a").
Qed.

End PriceOnly.

(** C4: a candidate whose text is [$12.99], whose descendants show either
    nothing or that same text, and which has no [aria-label] and no [title]
    attribute, gets no title and the price [$12.99]. *)
Theorem price_only_candidate element index html tag href :
  get_attribute element "outerHTML" = Ok (Some html) →
  tag_name element = Ok tag →
  get_attribute element "href" = Ok href →
  text element = Ok "$12.99" →
  get_attribute element "aria-label" = Ok None →
  get_attribute element "title" = Ok None →
  (∀ by_ value l d, find_elements element by_ value = Ok l → d ∈ l →
     text d = Ok EmptyString ∨ text d = Ok "$12.99") →
  product_title (extract_product_data element index) = None ∧
  product_price (extract_product_data element index) = Some "$12.99".
Proof.
  intros Hhtml Htag Hhref Htext Haria Htitle Hdesc.
  rewrite extract_product_data_unfold.
  assert (Hok : fst (extract_hyperlink element index empty_product) = Ok ()).
  { apply extract_hyperlink_ok.
    - unfold debug_preview. destruct (index <? 3); [|done].
      by rewrite Hhtml, Htext.
    - unfold link_of_self. rewrite Htag. simpl.
      destruct (String.eqb (lower tag) "a"); [|by eexists].
      rewrite Hhref. by eexists. }
  pose proof (extract_hyperlink_keeps
                (λ p, product_title p = None ∧ product_price p = None) element index
                (λ v p Hp, Hp) empty_product (conj eq_refl eq_refl)) as Hnone.
  destruct (extract_hyperlink element index empty_product) as [r [ti pr im hl]].
  simpl in Hok, Hnone. subst r. destruct Hnone as [-> ->].
  rewrite (extract_title_price_only element Htext Hdesc tag None im hl Htag Haria Htitle).
  rewrite (extract_price_price_only element Htext Hdesc im hl).
  apply (extract_image_keeps
           (λ p, product_title p = None ∧ product_price p = Some "$12.99") element
           (λ v p Hp, Hp) (mkProduct None (Some "$12.99") im hl)).
  by split.
Qed.

End TitlesAndPrices.

(** On a card of the in-memory page every query finds the image or nothing. *)
Lemma lookup_singleton {A} key k (v : A) :
  Fake.lookup key [(k, v)] = if String.eqb k key then Some v else None.
Proof.
  unfold Fake.lookup. cbn [List.find fst].
  destruct (String.eqb k key); reflexivity.
Qed.

Lemma card_find id_ src text_ by_ value d :
  d ∈ Fake.node_find (Fake.card id_ src text_) by_ value → d = Fake.img (S id_) src.
Proof.
  intros Hd. destruct by_; unfold Fake.node_find in Hd.
  - change (Fake.node_css (Fake.card id_ src text_))
      with [(all_images_selector, [Fake.img (S id_) src])] in Hd.
    rewrite lookup_singleton in Hd.
    destruct (String.eqb all_images_selector value);
      [by apply list_elem_of_singleton in Hd | by apply elem_of_nil in Hd].
  - change (Fake.descendants (Fake.card id_ src text_))
      with [Fake.img (S id_) src] in Hd.
    rewrite filter_cons, filter_nil in Hd.
    destruct (decide _);
      [by apply list_elem_of_singleton in Hd | by apply elem_of_nil in Hd].
  - change (Fake.descendants (Fake.card id_ src text_))
      with [Fake.img (S id_) src] in Hd.
    destruct (String.eqb value ".//*");
      [by apply list_elem_of_singleton in Hd | by apply elem_of_nil in Hd].
Qed.

Lemma price_only_candidate_witness :
  get_attribute Pages.price_only_card "outerHTML"
    = Ok (Some (Fake.outer_html Pages.price_only_card)) ∧
  tag_name Pages.price_only_card = Ok "div" ∧
  get_attribute Pages.price_only_card "href" = Ok None ∧
  text Pages.price_only_card = Ok "$12.99" ∧
  get_attribute Pages.price_only_card "aria-label" = Ok None ∧
  get_attribute Pages.price_only_card "title" = Ok None ∧
  (∀ by_ value l d, find_elements Pages.price_only_card by_ value = Ok l → d ∈ l →
     text d = Ok EmptyString ∨ text d = Ok "$12.99") ∧
  product_title (extract_product_data Pages.price_only_card 0) = None ∧
  product_price (extract_product_data Pages.price_only_card 0) = Some "$12.99".
Proof.
  assert (Hdesc : ∀ by_ value l d,
    find_elements Pages.price_only_card by_ value = Ok l → d ∈ l →
    text d = Ok EmptyString ∨ text d = Ok "$12.99").
  { intros by_ value l d [= <-] Hd. left.
    by rewrite (card_find 1 "/img/a.jpg" "$12.99" by_ value d Hd). }
  repeat (split; [first [exact Hdesc | reflexivity]|]).
  apply (price_only_candidate Pages.price_only_card 0
           (Fake.outer_html Pages.price_only_card) "div" None);
    first [exact Hdesc | reflexivity].
Defined.

Lemma title_from_text_lines_witness :
  text Pages.produce_card = Ok "Shop Fresh Produce" ∧
  fst (extract_hyperlink Pages.produce_card 0 empty_product) = Ok () ∧
  title_of_selectors Pages.produce_card title_selectors = None ∧
  title_of_text Pages.produce_card = Some "Shop Fresh Produce" ∧
  title_of_text Pages.produce_card
    = slice_to 150 <$> List.find line_ok (text_lines (strip "Shop Fresh Produce")) ∧
  product_title (extract_product_data Pages.produce_card 0) = Some "Shop Fresh Produce" ∧
  (String.length "Shop Fresh Produce" ≤ 150)%nat.
Proof.
  destruct (title_from_text_lines Pages.produce_card 0) as (Hshort & Hlines & Htitle).
  assert (Hrec : product_title (extract_product_data Pages.produce_card 0)
                 = Some "Shop Fresh Produce").
  { apply Htitle; vm_compute; reflexivity. }
  split; [reflexivity|]. split; [reflexivity|].
  split; [vm_compute; reflexivity|]. split; [vm_compute; reflexivity|].
  split; [apply Hlines; reflexivity|]. split; [exact Hrec|].
  apply Hshort, Hrec.
Defined.

(** C6 as stated fails: strategy 1 finds nothing on this card, strategy 2
    takes the line [Shop Fresh Produce] as the title, and that line does not
    pass the test of strategy 1, which rejects every text containing
    [shop]. *)
Lemma lenient_line_accepted :
  title_of_selectors Pages.produce_card title_selectors = None ∧
  title_of_text Pages.produce_card = Some "Shop Fresh Produce" ∧
  product_title (extract_product_data Pages.produce_card 0) = Some "Shop Fresh Produce" ∧
  line_ok "Shop Fresh Produce" = true ∧
  title_ok "Shop Fresh Produce" = false ∧
  contains "shop" (lower "Shop Fresh Produce") = true.
Proof. repeat split; vm_compute; reflexivity. Qed.

(** The second scenario of the specification: two candidates without a
    hyperlink and with the same title; the loop keeps the first. *)
Example same_title_kept_once :
  let cereal := Fake.card 1 "/img/a.jpg" "Brand X Cereal 12oz" in
  let again := Fake.card 3 "/img/b.jpg" "Brand X Cereal 12oz" in
  (product_title <$> (accept_products [cereal; again] 0 ∅ []).1,
   product_hyperlink <$> (accept_products [cereal; again] 0 ∅ []).1)
  = ([Some "Brand X Cereal 12oz"], [None]).
Proof. vm_compute. reflexivity. Qed.

(** Merging the second pass of the scenario twice. *)
Example merge_twice :
  let a := extract_product_data (Pages.pie 1 "A") 0 in
  let b := extract_product_data (Pages.pie 3 "B") 1 in
  let c := extract_product_data (Pages.pie 5 "C") 2 in
  let d := extract_product_data (Pages.pie 7 "D") 2 in
  merge_pass2 [a; b; c] [b; c; d] = [a; b; c; d] ∧
  merge_pass2 [a; b; c; d] [b; c; d] = [a; b; c; d].
Proof. split; vm_compute; reflexivity. Qed.

(** ** The shape of the fields *)

Lemma slice_to_len n s : String.length (slice_to n s) = (n `min` String.length s)%nat.
Proof.
  revert s. induction n as [|n IH]; intros [|c s]; try reflexivity.
  change (slice_to (S n) (String c s)) with (String c (slice_to n s)).
  simpl. by rewrite IH.
Qed.

Lemma title_length_ok_slice x :
  title_length_ok x = true → 5 <= len (slice_to 150 x) <= 150.
Proof.
  unfold title_length_ok, len. rewrite slice_to_len. lia.
Qed.

Lemma all_chars_app c a b :
  all_chars c (a +:+ b) = all_chars c a && all_chars c b.
Proof.
  induction a as [|x a IH]; [done|].
  rewrite app_cons. simpl. by rewrite IH, andb_assoc.
Qed.

Lemma all_chars_impl (c d : ascii → bool) s :
  (∀ a, c a = true → d a = true) → all_chars c s = true → all_chars d s = true.
Proof.
  intros Hcd. induction s as [|a s IH]; simpl; [done|].
  intros [Ha Hs]%andb_true_iff. by rewrite (Hcd a Ha), IH.
Qed.

Lemma rstrip_nonspace y :
  all_chars (λ a, negb (is_space a)) y = true → rstrip y = y.
Proof.
  induction y as [|c y IH]; simpl; [done|].
  intros [Hc Hy]%andb_true_iff. rewrite (IH Hy).
  apply negb_true_iff in Hc. rewrite Hc. by destruct y.
Qed.

Lemma rstrip_app x y :
  rstrip y = y → y ≠ EmptyString → rstrip (x +:+ y) = x +:+ y.
Proof.
  intros Hy Hne. induction x as [|c x IH]; [done|].
  rewrite app_cons. simpl. rewrite IH.
  destruct (x +:+ y) eqn:Hxy; [|done].
  destruct x; [|done]. by rewrite app_nil in Hxy.
Qed.

Lemma strip_tight c s :
  is_space c = false → rstrip (String c s) = String c s →
  strip (String c s) = String c s.
Proof. intros Hc Hr. unfold strip. simpl lstrip. by rewrite Hc. Qed.

Lemma digit_or_comma_nonspace a :
  Re.digit_or_comma a = true → negb (is_space a) = true.
Proof. by destruct a as [[] [] [] [] [] [] [] []]. Qed.

Lemma digit_nonspace a : is_digit a = true → negb (is_space a) = true.
Proof. by destruct a as [[] [] [] [] [] [] [] []]. Qed.

(** [m.group()] of a pattern without a group is a word of the pattern. *)
Lemma match_at_plain p pos s m :
  Re.match_at (Re.plain p) pos s = Some m → lang p (Re.group0 m).
Proof.
  unfold Re.match_at, Re.plain. simpl. intros Hm.
  destruct (run_sound _ _ _ _ _ Hm) as (u & s1 & -> & Hu & [= <-]).
  simpl. by rewrite consumed_app.
Qed.

Lemma re_search_plain p s m :
  Re.re_search (Re.plain p) s = Some m → lang p (Re.group0 m).
Proof.
  unfold Re.re_search. generalize 0%nat. induction s as [|a s IH]; intros pos; simpl.
  - destruct (Re.match_at (Re.plain p) pos EmptyString) eqn:Hm; [|done].
    intros [= <-]. eapply match_at_plain, Hm.
  - destruct (Re.match_at (Re.plain p) pos (String a s)) eqn:Hm.
    + intros [= <-]. eapply match_at_plain, Hm.
    + apply IH.
Qed.

Lemma lang_chr c rest u :
  lang (Re.chr c :: rest) u → ∃ u', u = String c u' ∧ lang rest u'.
Proof.
  unfold Re.chr. cbn [lang]. intros (a & u' & -> & Ha & Hrest).
  apply Ascii.eqb_eq in Ha as <-. by exists u'.
Qed.

Lemma lang_star c rest u :
  lang (Re.Cls c Re.Star :: rest) u →
  ∃ v u', u = v +:+ u' ∧ all_chars c v = true ∧ lang rest u'.
Proof. cbn [lang]. done. Qed.

Lemma lang_opt c rest u :
  lang (Re.Cls c Re.Opt :: rest) u →
  lang rest u ∨ ∃ a u', u = String a u' ∧ c a = true ∧ lang rest u'.
Proof. cbn [lang]. done. Qed.

(** The end of the three price patterns: an optional point and digits. *)
Lemma lang_decimals u :
  lang [Re.Cls (Ascii.eqb ".") Re.Opt; Re.Cls is_digit Re.Star] u →
  all_chars (λ a, negb (is_space a)) u = true.
Proof.
  assert (Hdigits : ∀ w, lang [Re.Cls is_digit Re.Star] w →
                         all_chars (λ a, negb (is_space a)) w = true).
  { intros w (v & u' & -> & Hv & ->)%lang_star.
    rewrite all_chars_app. simpl. rewrite andb_true_r.
    eapply all_chars_impl, Hv. apply digit_nonspace. }
  intros [Hu|(a & u1 & -> & Ha & Hu1)]%lang_opt; [by apply Hdigits|].
  apply Ascii.eqb_eq in Ha as <-. simpl. by apply Hdigits.
Qed.

(** A number of the price patterns: digits or commas, then the rest. *)
Lemma lang_number u rest :
  lang (Re.Cls Re.digit_or_comma Re.Plus :: rest) u →
  ∃ a n u', u = String a n +:+ u' ∧ is_space a = false ∧
            all_chars (λ a, negb (is_space a)) (String a n) = true ∧ lang rest u'.
Proof.
  cbn [lang]. intros (a & v & u' & -> & Ha & Hv & Hrest).
  exists a, v, u'. rewrite app_cons. split; [done|].
  pose proof (digit_or_comma_nonspace a Ha) as Hna.
  split; [by apply negb_true_iff|]. split; [|done].
  simpl. rewrite Hna. simpl. eapply all_chars_impl, Hv. apply digit_or_comma_nonspace.
Qed.

Lemma strip_price u : lang Patterns.price_body u → strip u = u.
Proof.
  unfold Patterns.price_body. intros (u1 & -> & Hu1)%lang_chr.
  apply lang_number in Hu1 as (a & n & u' & -> & Ha & Hn & Hdec).
  apply lang_decimals in Hdec.
  apply strip_tight; [done|]. apply rstrip_nonspace.
  change (all_chars (λ a, negb (is_space a)) (String a n +:+ u') = true).
  by rewrite all_chars_app, Hn, Hdec.
Qed.

Lemma strip_price_spaced u : lang (Re.before Patterns.price_spaced) u → strip u = u.
Proof.
  unfold Patterns.price_spaced, Re.plain. cbn [Re.before].
  intros (u1 & -> & (sp & u2 & -> & _ & Hu2)%lang_star)%lang_chr.
  apply lang_number in Hu2 as (a & n & u' & -> & Ha & Hn & Hdec).
  apply lang_decimals in Hdec.
  apply strip_tight; [done|].
  rewrite <- app_cons.
  apply rstrip_app; [|by rewrite app_cons].
  apply rstrip_nonspace. by rewrite all_chars_app, Hn, Hdec.
Qed.

Lemma lang_dollar_end u :
  lang [Re.Cls (Ascii.eqb ".") Re.Opt; Re.Cls is_digit Re.Star;
        Re.Cls is_space Re.Star; Re.chr "$"] u →
  ∃ x, u = x +:+ "$".
Proof.
  assert (Hend : ∀ w, lang [Re.Cls is_digit Re.Star; Re.Cls is_space Re.Star; Re.chr "$"] w →
                      ∃ x, w = x +:+ "$").
  { intros w (v & w1 & -> & _ & (sp & w2 & -> & _ & (w3 & -> & Hw3)%lang_chr)%lang_star)%lang_star.
    cbn [lang] in Hw3. subst w3. exists (v +:+ sp). by rewrite app_assoc_str. }
  intros [Hu|(a & u1 & -> & _ & Hu1)]%lang_opt.
  - by apply Hend.
  - destruct (Hend _ Hu1) as (x & ->). by exists (String a x).
Qed.

Lemma strip_price_reversed u : lang (Re.before Patterns.price_reversed) u → strip u = u.
Proof.
  unfold Patterns.price_reversed, Re.plain. cbn [Re.before]. intros Hu.
  apply lang_number in Hu as (a & n & u' & -> & Ha & _ & Hend).
  apply lang_dollar_end in Hend as (x & ->).
  rewrite app_cons. apply strip_tight; [done|].
  rewrite <- app_cons, <- app_assoc_str. by apply rstrip_app.
Qed.

Lemma price_word_price u : lang Patterns.price_body u → price_word u.
Proof. intros Hu. exists Patterns.price. split; [set_solver|done]. Qed.

Lemma first_pattern_word all_text v :
  first_pattern price_patterns all_text = Some v → price_word v.
Proof.
  unfold price_patterns. simpl.
  destruct (Re.re_search Patterns.price all_text) as [m|] eqn:H1.
  { intros [= <-]. apply re_search_plain in H1. rewrite strip_price by done.
    by apply price_word_price. }
  destruct (Re.re_search Patterns.price_spaced all_text) as [m|] eqn:H2.
  { intros [= <-]. apply re_search_plain in H2. rewrite strip_price_spaced by done.
    exists Patterns.price_spaced. split; [set_solver|done]. }
  destruct (Re.re_search Patterns.price_reversed all_text) as [m|] eqn:H3; [|done].
  intros [= <-]. apply re_search_plain in H3. rewrite strip_price_reversed by done.
  exists Patterns.price_reversed. split; [set_solver|done].
Qed.

Section FieldShapes.
Context `{WebElement E}.

(** *** Prices *)

Lemma first_price_word price_elems v :
  first_price price_elems = Ok (Some v) → price_word v.
Proof.
  induction price_elems as [|price_elem rest IH]; simpl; [done|].
  destruct (text price_elem) as [t|]; simpl; [|done].
  destruct (str_truthy (strip t)); [|exact IH].
  destruct (Re.re_search Patterns.price (strip t)) as [m|] eqn:Hm; [|exact IH].
  intros [= <-]. apply price_word_price. exact (re_search_plain _ _ _ Hm).
Qed.

Lemma price_of_selectors_word element selectors v :
  price_of_selectors element selectors = Some v → price_word v.
Proof.
  induction selectors as [|selector rest IH]; simpl; [done|].
  destruct (find_elements element CSS_SELECTOR selector) as [price_elems|];
    simpl; [|exact IH].
  destruct (first_price price_elems) as [[p|]|] eqn:Hp; [|exact IH|exact IH].
  intros [= <-]. by eapply first_price_word.
Qed.

Lemma price_of_text_word element v : price_of_text element = Some v → price_word v.
Proof.
  unfold price_of_text. destruct (text element) as [t|]; simpl; [|done].
  destruct (str_truthy t); [|done]. apply first_pattern_word.
Qed.

Lemma price_of_markup_word element v : price_of_markup element = Some v → price_word v.
Proof.
  unfold price_of_markup.
  destruct (get_attribute element "innerHTML") as [inner_html|]; simpl; [|done].
  destruct (truthy inner_html); [|done].
  destruct (Re.re_search Patterns.price (or_empty inner_html)) as [m|] eqn:Hm; [|done].
  intros [= <-]. apply price_word_price. exact (re_search_plain _ _ _ Hm).
Qed.

Lemma price_of_children_word element v :
  price_of_children element = Some v → price_word v.
Proof.
  unfold price_of_children.
  destruct (find_elements element XPATH ".//*") as [all_children|]; simpl; [|done].
  destruct (first_price all_children) as [o|] eqn:Hp; simpl; [|done].
  intros ->. by eapply first_price_word.
Qed.

Lemma price_shaped_set_price strategy p :
  (∀ v, strategy = Some v → price_word v) →
  price_shaped p →
  price_shaped (set_price (assign_found strategy (product_price p)) p).
Proof.
  intros Hs Hp v. simpl. destruct strategy as [v'|]; simpl; [|apply Hp].
  intros [= <-]. by apply Hs.
Qed.

Lemma extract_price_shaped element : keeps price_shaped (extract_price element).
Proof.
  unfold extract_price.
  apply keeps_bind.
  { apply keeps_modify. intros p Hp. apply price_shaped_set_price; [|done].
    apply price_of_selectors_word. }
  intros _. apply keeps_bind.
  { apply keeps_unless_set. intros p Hp. apply price_shaped_set_price; [|done].
    apply price_of_text_word. }
  intros _. apply keeps_bind.
  { apply keeps_unless_set. intros p Hp. apply price_shaped_set_price; [|done].
    apply price_of_markup_word. }
  intros _. apply keeps_unless_set. intros p Hp.
  apply price_shaped_set_price; [|done]. apply price_of_children_word.
Qed.

Lemma price_word_strip v : price_word v → strip v = v.
Proof.
  intros (r & Hr & Hv). unfold price_patterns in Hr.
  apply elem_of_cons in Hr as [->|Hr]; [by apply strip_price|].
  apply elem_of_cons in Hr as [->|Hr]; [by apply strip_price_spaced|].
  apply elem_of_cons in Hr as [->|Hr]; [by apply strip_price_reversed|].
  by apply elem_of_nil in Hr.
Qed.

(** A word of a price pattern holds a dollar sign. *)
Lemma price_word_dollar v : price_word v → contains "$" v = true.
Proof.
  intros (r & Hr & Hv). unfold price_patterns in Hr.
  apply elem_of_cons in Hr as [->|Hr].
  { unfold Patterns.price, Patterns.price_body, Re.plain in Hv. cbn [Re.before] in Hv.
    apply lang_chr in Hv as (u' & -> & _). by apply contains_here. }
  apply elem_of_cons in Hr as [->|Hr].
  { unfold Patterns.price_spaced, Re.plain in Hv. cbn [Re.before] in Hv.
    apply lang_chr in Hv as (u' & -> & _). by apply contains_here. }
  apply elem_of_cons in Hr as [->|Hr]; [|by apply elem_of_nil in Hr].
  unfold Patterns.price_reversed, Re.plain in Hv. cbn [Re.before] in Hv.
  apply lang_number in Hv as (a & n & u' & -> & _ & _ & Hend).
  apply lang_dollar_end in Hend as (x & ->).
  rewrite <- app_assoc_str. by apply contains_app_l, contains_here.
Qed.

(** X1: the price of a record that [extract_product_data] returns, when
    there is one, is a whole word of one of the three price patterns of
    lines 1372-1374 (a dollar sign and a number, a dollar sign, spaces and a
    number, or a number, spaces and a dollar sign); so it holds a dollar
    sign and has no white space at either end. *)
Theorem extracted_price_is_a_price element index v :
  product_price (extract_product_data element index) = Some v →
  price_word v ∧ contains "$" v = true ∧ strip v = v.
Proof.
  intros Hv.
  assert (Hshape : price_shaped (extract_product_data element index)).
  { unfold extract_product_data.
    apply (keeps_bind price_shaped);
      [by apply extract_hyperlink_keeps|intros _| done].
    apply keeps_bind; [by apply extract_title_keeps|intros _].
    apply keeps_bind; [apply extract_price_shaped|intros _].
    by apply extract_image_keeps. }
  specialize (Hshape v Hv).
  split; [done|]. split; [by apply price_word_dollar|by apply price_word_strip].
Qed.

End FieldShapes.

Section ImageAndTitleShapes.
Context `{WebElement E}.

(** *** Images *)

Lemma first_image_http img_elems v :
  first_image img_elems = Ok (Some v) → startswith v "http" = true.
Proof.
  induction img_elems as [|img_elem rest IH]; [done|].
  cbn [first_image]. 
  destruct (image_attribute img_elem image_attributes None) as [[s|]|];
    cbn [mbind exc_bind Py.bind]; [|exact IH|done].
  destruct (usable_src (Some s)); [|exact IH].
  destruct (negb _); [|exact IH].
  intros [= <-]. apply absolute_http.
Qed.

Lemma image_of_img_http element v :
  image_of_img element = Some v → startswith v "http" = true.
Proof.
  unfold image_of_img.
  destruct (find_elements element TAG_NAME "img") as [img_elems|]; simpl; [|done].
  destruct (first_image img_elems) as [o|] eqn:Hi; simpl; [|done].
  intros ->. by eapply first_image_http.
Qed.

Lemma first_picture_http picture_imgs v :
  first_picture picture_imgs = Ok (Some v) → startswith v "http" = true.
Proof.
  induction picture_imgs as [|img_elem rest IH]; [done|].
  cbn [first_picture].
  destruct (attribute_or3 img_elem "src" "data-src" "srcset") as [[s|]|];
    cbn [mbind exc_bind Py.bind]; [|exact IH|done].
  destruct (nonblank (Some s)); [|exact IH].
  destruct (_ && _); [|exact IH].
  intros [= <-]. apply absolute_http.
Qed.

Lemma image_of_picture_http element v :
  image_of_picture element = Some v → startswith v "http" = true.
Proof.
  unfold image_of_picture.
  destruct (find_elements element CSS_SELECTOR _) as [picture_imgs|]; simpl; [|done].
  destruct (first_picture picture_imgs) as [o|] eqn:Hi; simpl; [|done].
  intros ->. by eapply first_picture_http.
Qed.

Lemma image_of_largest_http element v :
  image_of_largest element = Some v → startswith v "http" = true.
Proof.
  unfold image_of_largest.
  destruct (find_elements element CSS_SELECTOR _) as [all_imgs|]; simpl; [|done].
  destruct (foldl _ _ all_imgs) as [[best_img|] best_size]; simpl; [|done].
  destruct (str_truthy best_img); [|done].
  intros [= <-]. apply absolute_http.
Qed.

Lemma image_of_style_http element v :
  image_of_style element = Some v → startswith v "http" = true.
Proof.
  unfold image_of_style.
  destruct (get_attribute element "style") as [a|]; simpl; [|done].
  destruct (Re.re_search Patterns.background_url (or_empty a)) as [m|]; [|done].
  intros [= <-]. apply absolute_http.
Qed.

Lemma http_image_set_image strategy p :
  (∀ v, strategy = Some v → startswith v "http" = true) →
  http_image p →
  http_image (set_image (assign_found strategy (product_image p)) p).
Proof.
  intros Hs Hp v. simpl. destruct strategy as [v'|]; simpl; [|apply Hp].
  intros [= <-]. by apply Hs.
Qed.

Lemma extract_image_http element : keeps http_image (extract_image element).
Proof.
  unfold extract_image.
  apply keeps_bind.
  { apply keeps_modify. intros p Hp. apply http_image_set_image; [|done].
    apply image_of_img_http. }
  intros _. apply keeps_bind.
  { apply keeps_unless_set. intros p Hp. apply http_image_set_image; [|done].
    apply image_of_picture_http. }
  intros _. apply keeps_bind.
  { apply keeps_unless_set. intros p Hp. apply http_image_set_image; [|done].
    apply image_of_largest_http. }
  intros _. apply keeps_unless_set. intros p Hp.
  apply http_image_set_image; [|done]. apply image_of_style_http.
Qed.

(** X2: the image of a record that [extract_product_data] returns, when
    there is one, starts with [http]: each of the four image strategies
    (lines 1412-1505) puts [base_url] before a source that does not. *)
Theorem extracted_image_is_absolute element index v :
  product_image (extract_product_data element index) = Some v →
  startswith v "http" = true.
Proof.
  revert v. change (http_image (extract_product_data element index)).
  unfold extract_product_data.
  apply (keeps_bind http_image);
    [by apply extract_hyperlink_keeps|intros _| done].
  apply keeps_bind; [by apply extract_title_keeps|intros _].
  apply keeps_bind; [by apply extract_price_keeps|intros _].
  apply extract_image_http.
Qed.

(** *** Titles *)

Lemma first_title_sized title_elems t :
  first_title title_elems = Ok (Some t) → 5 <= len t <= 150.
Proof.
  induction title_elems as [|title_elem rest IH]; simpl; [done|].
  destruct (text title_elem) as [tx|]; simpl; [|done].
  destruct (title_ok (strip tx)) eqn:Hok; [|exact IH].
  intros [= <-]. apply title_length_ok_slice.
  unfold title_ok in Hok. do 7 (apply andb_true_iff in Hok as [Hok _]).
  by apply andb_true_iff in Hok as [_ Hok].
Qed.

Lemma title_of_selectors_sized element selectors t :
  title_of_selectors element selectors = Some t → 5 <= len t <= 150.
Proof.
  induction selectors as [|selector rest IH]; simpl; [done|].
  destruct (find_elements element CSS_SELECTOR selector) as [title_elems|];
    simpl; [|exact IH].
  destruct (first_title title_elems) as [[t'|]|] eqn:Ht; [|exact IH|exact IH].
  intros [= <-]. by eapply first_title_sized.
Qed.

Lemma first_line_sized lines t :
  first_line lines = Some t → 5 <= len t <= 150.
Proof.
  induction lines as [|line rest IH]; simpl; [done|].
  destruct (line_ok line) eqn:Hok; [|exact IH]. intros [= <-].
  apply title_length_ok_slice.
  unfold line_ok in Hok. by do 8 (apply andb_true_iff in Hok as [Hok _]).
Qed.

Lemma title_of_text_sized element t :
  title_of_text element = Some t → 5 <= len t <= 150.
Proof.
  unfold title_of_text. destruct (text element) as [tx|]; simpl; [|done].
  destruct (str_truthy (strip tx)); [|done]. apply first_line_sized.
Qed.

Lemma title_of_link_text_sized element t :
  title_of_link_text element = Some t → 5 <= len t <= 150.
Proof.
  unfold title_of_link_text. destruct (text element) as [tx|]; simpl; [|done].
  destruct (_ && _) eqn:Hok; [|done]. intros [= <-].
  apply title_length_ok_slice.
  apply andb_true_iff in Hok as [Hok _]. by apply andb_true_iff in Hok as [_ Hok].
Qed.

Lemma title_of_attribute_sized element name t :
  title_of_attribute element name = Some t → 5 <= len t <= 150.
Proof.
  unfold title_of_attribute.
  destruct (get_attribute element name) as [[v|]|]; simpl; [|done|done].
  destruct (_ && _) eqn:Hok; [|done]. intros [= <-].
  apply title_length_ok_slice. by apply andb_true_iff in Hok as [_ Hok].
Qed.

Lemma sized_title_set_title strategy p :
  (∀ t, strategy = Some t → 5 <= len t <= 150) →
  sized_title p →
  sized_title (set_title (assign_found strategy (product_title p)) p).
Proof.
  intros Hs Hp t. simpl. destruct strategy as [t'|]; simpl; [|apply Hp].
  intros [= <-]. by apply Hs.
Qed.

Lemma extract_title_sized element : keeps sized_title (extract_title element).
Proof.
  unfold extract_title.
  apply keeps_bind.
  { apply keeps_modify. intros p Hp. apply sized_title_set_title; [|done].
    apply title_of_selectors_sized. }
  intros _. apply keeps_bind.
  { apply keeps_unless_set. intros p Hp. apply sized_title_set_title; [|done].
    apply title_of_text_sized. }
  intros _. apply keeps_bind; [apply keeps_get|intros product].
  apply keeps_bind; [apply keeps_lift|intros is_link].
  apply keeps_bind.
  { destruct is_link; [|apply keeps_ret].
    apply keeps_modify. intros p Hp. apply sized_title_set_title; [|done].
    apply title_of_link_text_sized. }
  intros _. apply keeps_bind.
  { apply keeps_unless_set. intros p Hp. apply sized_title_set_title; [|done].
    apply title_of_attribute_sized. }
  intros _. apply keeps_unless_set. intros p Hp.
  apply sized_title_set_title; [|done]. apply title_of_attribute_sized.
Qed.

(** X3: the title of a record that [extract_product_data] returns, when
    there is one, has at least 5 characters and at most 150: every title
    strategy (lines 1262-1330) asks for 5 to 200 characters and keeps the
    first 150. *)
Theorem extracted_title_has_5_to_150_characters element index t :
  product_title (extract_product_data element index) = Some t →
  5 <= len t <= 150.
Proof.
  revert t. change (sized_title (extract_product_data element index)).
  unfold extract_product_data.
  apply (keeps_bind sized_title);
    [by apply extract_hyperlink_keeps|intros _| done].
  apply keeps_bind; [apply extract_title_sized|intros _].
  apply keeps_bind; [by apply extract_price_keeps|intros _].
  by apply extract_image_keeps.
Qed.

End ImageAndTitleShapes.

(** ** Candidates and the acceptance loop *)

Section CandidateFacts.
Context `{WebElement E}.

Lemma unique_by_id_spec (elems : list E) seen acc :
  ∃ sub, unique_by_id elems seen acc = acc ++ sub ∧ sub `sublist_of` elems ∧
         NoDup (py_id <$> sub) ∧ (∀ e, e ∈ sub → py_id e ∉ seen) ∧
         (∀ e, e ∈ elems → py_id e ∈ seen ∨ ∃ e', e' ∈ sub ∧ py_id e' = py_id e).
Proof.
  revert seen acc. induction elems as [|elem rest IH]; intros seen acc; simpl.
  - exists []. rewrite app_nil_r. split; [done|]. split; [done|].
    split; [constructor|]. split; intros e He; by apply elem_of_nil in He.
  - destruct (bool_decide (py_id elem ∈ seen)) eqn:Hin.
    + apply bool_decide_eq_true in Hin.
      destruct (IH seen acc) as (sub & -> & Hsub & Hnd & Hnew & Hcov).
      exists sub. split; [done|]. split; [by constructor|]. split; [done|].
      split; [done|]. intros e [->|He]%elem_of_cons; [by left|by apply Hcov].
    + apply bool_decide_eq_false in Hin.
      destruct (IH ({[py_id elem]} ∪ seen) (acc ++ [elem]))
        as (sub & -> & Hsub & Hnd & Hnew & Hcov).
      exists (elem :: sub). split; [by rewrite <- app_assoc|].
      split; [by constructor|]. split; [|split].
      * simpl. constructor; [|done].
        intros (e & He & Hsube)%list_elem_of_fmap.
        apply (Hnew e Hsube). rewrite <- He. set_solver.
      * intros e [->|He]%elem_of_cons; [done|].
        intros Hseen. apply (Hnew e He). set_solver.
      * intros e [->|He]%elem_of_cons.
        { right. exists elem. split; [by left|done]. }
        destruct (Hcov e He) as [[Hid|Hseen]%elem_of_union|(e' & He' & Hid)].
        -- right. exists elem. apply elem_of_singleton in Hid.
           split; [by left|done].
        -- by left.
        -- right. exists e'. split; [by right|done].
Qed.

Lemma unique_by_id_fresh (elems : list E) seen acc :
  NoDup (py_id <$> elems) → (∀ e, e ∈ elems → py_id e ∉ seen) →
  unique_by_id elems seen acc = acc ++ elems.
Proof.
  revert seen acc. induction elems as [|elem rest IH]; intros seen acc; simpl.
  - intros _ _. by rewrite app_nil_r.
  - intros [Hnotin Hnd]%NoDup_cons Hnew.
    rewrite bool_decide_eq_false_2 by (apply Hnew; by left).
    rewrite IH, <- app_assoc; [done|done|].
    intros e He [Hid%elem_of_singleton|Hseen]%elem_of_union.
    + apply Hnotin. rewrite <- Hid. apply list_elem_of_fmap. by exists e.
    + apply (Hnew e); [by right|done].
Qed.

Lemma unique_by_id_sublist_nodup (elems : list E) :
  unique_by_id elems ∅ [] `sublist_of` elems ∧
  NoDup (py_id <$> unique_by_id elems ∅ []).
Proof.
  destruct (unique_by_id_spec elems ∅ []) as (sub & Hrun & Hsub & Hnd & _).
  simpl in Hrun. by rewrite Hrun.
Qed.

(** X4: the pass of lines 914-922 and 1047-1055 ([Remove duplicates while
    preserving order]) returns a sublist of its input in which no identity
    occurs twice and every identity of the input occurs; run on its own
    result it changes nothing. *)
Theorem unique_by_id_removes_duplicates (elems : list E) :
  let unique_elements := unique_by_id elems ∅ [] in
  unique_elements `sublist_of` elems ∧
  NoDup (py_id <$> unique_elements) ∧
  (∀ e, e ∈ elems → ∃ e', e' ∈ unique_elements ∧ py_id e' = py_id e) ∧
  unique_by_id unique_elements ∅ [] = unique_elements.
Proof.
  destruct (unique_by_id_spec elems ∅ []) as (sub & Hrun & Hsub & Hnd & _ & Hcov).
  simpl in Hrun. cbv zeta. rewrite Hrun.
  split; [done|]. split; [done|]. split.
  - intros e He. destruct (Hcov e He) as [Hin|Hex]; [set_solver|done].
  - rewrite unique_by_id_fresh; [done|done|]. intros e _. set_solver.
Qed.

Lemma extracted_length (els : list E) idx : length (extracted els idx) = length els.
Proof. revert idx. induction els as [|e rest IH]; intros idx; simpl; [done|by rewrite IH]. Qed.

Lemma accept_products_order (els : list E) idx seen acc :
  ∃ new, (accept_products els idx seen acc).1 = acc ++ new ∧
         new `sublist_of` extracted els idx ∧
         seen ⊆ (accept_products els idx seen acc).2 ∧
         ∀ r k, r ∈ extracted els idx → qualifies r = true →
                unique_key r = Some k → k ∈ (accept_products els idx seen acc).2.
Proof.
  revert idx seen acc. induction els as [|element rest IH]; intros idx seen acc; simpl.
  - exists []. rewrite app_nil_r. split; [done|]. split; [done|]. split; [done|].
    intros r k Hr. by apply elem_of_nil in Hr.
  - set (pd := extract_product_data element idx).
    destruct (has_essential_data pd && negb (is_category pd)) eqn:Hgood.
    + destruct (truthy (unique_key pd) && negb (in_set (unique_key pd) seen)) eqn:Hnew.
      * destruct (IH (idx + 1) (add_to (unique_key pd) seen) (acc ++ [pd]))
          as (new & Hrun & Hsub & Hmono & Hcov).
        exists (pd :: new). rewrite Hrun, <- app_assoc.
        split; [done|]. split; [by constructor|].
        assert (Hadd : seen ⊆ add_to (unique_key pd) seen).
        { unfold add_to. destruct (unique_key pd); set_solver. }
        split; [set_solver|].
        intros r k [->|Hr]%elem_of_cons Hq Hk; [|by eapply Hcov].
        apply Hmono. unfold add_to. rewrite Hk. set_solver.
      * destruct (IH (idx + 1) seen acc) as (new & Hrun & Hsub & Hmono & Hcov).
        exists new. split; [done|]. split; [by constructor|]. split; [done|].
        intros r k [->|Hr]%elem_of_cons Hq Hk; [|by eapply Hcov].
        apply Hmono. unfold qualifies in Hq.
        apply andb_true_iff in Hq as [_ Hq]. rewrite Hq in Hnew. simpl in Hnew.
        apply negb_false_iff in Hnew. rewrite Hk in Hnew. simpl in Hnew.
        by apply bool_decide_eq_true in Hnew.
    + destruct (IH (idx + 1) seen acc) as (new & Hrun & Hsub & Hmono & Hcov).
      exists new. split; [done|]. split; [by constructor|]. split; [done|].
      intros r k [->|Hr]%elem_of_cons Hq Hk; [|by eapply Hcov].
      unfold qualifies in Hq. apply andb_true_iff in Hq as [Hq _].
      fold pd in Hq. by rewrite Hq in Hgood.
Qed.

(** X5: the acceptance loop of lines 1136-1168 keeps the candidates' order
    and loses no key.  The records it appends are, in order, some of the
    records extracted from the candidates; [self.seen_urls] only grows; and
    the key of every candidate record that has essential data, is no
    category link and has a key is in [self.seen_urls] afterwards: it was
    there before, or a record with that key has been appended. *)
Theorem accept_products_keeps_order_and_keys (els : list E) idx seen :
  let '(found, seen') := accept_products els idx seen [] in
  found `sublist_of` extracted els idx ∧
  seen ⊆ seen' ∧
  ∀ r k, r ∈ extracted els idx → qualifies r = true → unique_key r = Some k →
         k ∈ seen ∨ ∃ r', r' ∈ found ∧ unique_key r' = Some k.
Proof.
  destruct (accept_products_order els idx seen []) as (new & Hrun & Hsub & Hmono & Hcov).
  destruct (accept_products els idx seen []) as [found seen'] eqn:Hacc.
  simpl in *. subst new. split; [done|]. split; [done|].
  intros r k Hr Hq Hk. specialize (Hcov r k Hr Hq Hk).
  apply accept_products_spec in Hacc as (new & Hnew & _ & ->). simpl in Hnew. subst new.
  apply elem_of_union in Hcov as [Hin|Hin]; [right|by left].
  by apply elem_of_keys_of in Hin.
Qed.

End CandidateFacts.

Section UnreadableCandidates.
Context `{WebElement E}.

Lemma escaping_exception_empties (element : E) index e :
  tag_name element = Raise e ∨
  (index < 3 ∧ (text element = Raise e ∨ get_attribute element "outerHTML" = Raise e)) →
  extract_product_data element index = empty_product.
Proof.
  intros Hraise. rewrite extract_product_data_unfold.
  unfold extract_hyperlink, mbind at 1, M_bind at 1, lift_exc at 1.
  destruct (debug_preview element index) as [[]|e'] eqn:Hdbg; [|done].
  unfold mbind at 1, M_bind at 1, lift_exc at 1.
  destruct Hraise as [Htag|[Hidx Hread]].
  - unfold link_of_self. by rewrite Htag.
  - exfalso. unfold debug_preview in Hdbg.
    apply Z.ltb_lt in Hidx. rewrite Hidx in Hdbg.
    destruct Hread as [Htext|Hhtml].
    + rewrite Htext in Hdbg. by destruct (get_attribute element "outerHTML") as [[h|]|].
    + by rewrite Hhtml in Hdbg.
Qed.

(** X6: a candidate whose [tag_name] raises, or, among the first three
    candidates, whose [text] or [outerHTML] raises (lines 1183-1188, which no
    inner [try] guards), gives the record with all four fields [None], and
    the acceptance loop goes on to the next candidate without recording
    anything. *)
Theorem unreadable_candidate_is_dropped (element : E) index e :
  tag_name element = Raise e ∨
  (index < 3 ∧ (text element = Raise e ∨ get_attribute element "outerHTML" = Raise e)) →
  extract_product_data element index = empty_product ∧
  ∀ rest seen acc,
    accept_products (element :: rest) index seen acc
    = accept_products rest (index + 1) seen acc.
Proof.
  intros Hraise. pose proof (escaping_exception_empties element index e Hraise) as Hempty.
  split; [done|]. intros rest seen acc. simpl. by rewrite Hempty.
Qed.

End UnreadableCandidates.

Lemma unreadable_candidate_is_dropped_witness :
  tag_name Stale.gone = Raise (WebDriverException "stale element reference") ∧
  extract_product_data Stale.gone 7 = empty_product ∧
  ∀ rest seen acc,
    accept_products (Stale.gone :: rest) 7 seen acc
    = accept_products rest (7 + 1) seen acc.
Proof.
  split; [reflexivity|].
  apply (unreadable_candidate_is_dropped Stale.gone 7
           (WebDriverException "stale element reference")).
  left. reflexivity.
Defined.

Section MaxProducts.
Context `{WebElement E} `{Session W E} `{Unembedded W E}.

(** X7: with [max_products] a number [n >= 0], [extract_products] returns at
    most [n] records: only the first [n] candidates are extracted (line
    1133), and a candidate gives at most one record. *)
Theorem extract_products_at_most_max_products n self (w : W) :
  0 <= n →
  match (extract_products (Some n) (self, w)).1 with
  | Ok found => Z.of_nat (length found) <= n
  | Raise _ => True
  end.
Proof.
  intros Hn. unfold extract_products, mbind at 1, M_bind at 1.
  destruct (debug_dump (self, w)) as [r0 [self0 w0]] eqn:Hd.
  apply debug_dump_data in Hd as (-> & _ & _).
  unfold mbind, M_bind, mret, M_ret, liftW.
  destruct (locate_by_selectors w0) as [[product_elements seen_element_ids] w1].
  destruct (locate_fallbacks product_elements seen_element_ids w1)
    as [[|element rest] w2].
  - destruct (report_nothing_found w2) as [[[]|e] w3]; simpl; [lia|done].
  - set (limit := list_slice_to n (element :: rest)).
    destruct (accept_products_order limit 0 (seen_urls self0) [])
      as (new & Hrun & Hsub & _).
    destruct (accept_products limit 0 (seen_urls self0) []) as [found seen].
    simpl in *. subst new.
    apply sublist_length in Hsub. rewrite extracted_length in Hsub.
    assert (length limit ≤ Z.to_nat n)%nat; [|lia].
    unfold limit, list_slice_to.
    destruct (0 <=? n) eqn:Hpos; [|apply Z.leb_gt in Hpos; lia].
    rewrite length_take. lia.
Qed.

End MaxProducts.

Lemma extract_products_at_most_max_products_witness :
  0 <= 2 ∧
  match (extract_products (Some 2) (new_scraper, Pages.two_pass_page)).1 with
  | Ok found => Z.of_nat (length found) <= 2
  | Raise _ => True
  end.
Proof.
  split; [lia|].
  apply (extract_products_at_most_max_products 2 new_scraper Pages.two_pass_page). lia.
Defined.

(** The same run: three candidates, of which the first two are extracted. *)
Example first_two_of_three :
  match (extract_products (Some 2) (new_scraper, Pages.two_pass_page)).1 with
  | Ok found => product_hyperlink <$> found
  | Raise _ => []
  end = [Some "https://heb.com/p/A"; Some "https://heb.com/p/B"].
Proof. vm_compute. reflexivity. Qed.

(** ** When the scroll loop stops *)

Section ScrollTurns.
Context `{WebElement E} `{Session W E}.

Lemma count_images_counts st (w : W) st' w' :
  count_images st w = (Ok st', w') →
  scrolls st' = scrolls st ∧ no_change_count st' = no_change_count st.
Proof.
  unfold count_images, try_M, mbind, M_bind, mret, M_ret.
  intros Hc. repeat case_match; by simplify_eq.
Qed.

(** A turn that falls through counts one more scroll and at most one more
    turn without growth; a turn breaks only at the fifth such turn in a
    row. *)
Lemma scroll_step_counts scroll_pause_time st (w : W) t w' :
  scroll_step scroll_pause_time st w = (Ok t, w') →
  match t with
  | Next st' =>
      scrolls st' = scrolls st + 1 ∧
      (no_change_count st' = 0 ∨ no_change_count st' = no_change_count st + 1)
  | Break st' => 5 <= no_change_count st + 1
  end.
Proof.
  unfold scroll_step, mbind, M_bind, mret, M_ret, advance, reset_counts.
  intros Hs.
  repeat (case_match; simplify_eq);
    match goal with
    | Hc : count_images _ _ = (Ok _, _) |- _ =>
        apply count_images_counts in Hc as [Hscr Hncc]; simpl in *
    end;
    repeat match goal with
           | Hle : (_ <=? _) = true |- _ => apply Z.leb_le in Hle
           end;
    try lia.
Qed.

Lemma scroll_loop_turns fuel scroll_pause_time max_scrolls st turns (w : W) st' turns' w' :
  scroll_loop fuel scroll_pause_time max_scrolls st turns w = Some (Ok st', turns', w') →
  Z.of_nat turns = scrolls st → no_change_count st <= scrolls st →
  Z.min 5 max_scrolls <= Z.of_nat turns'.
Proof.
  revert st turns w. induction fuel as [|fuel IH]; intros st turns w; simpl; [done|].
  destruct (scrolls st <? max_scrolls) eqn:Hlt.
  - destruct (scroll_step scroll_pause_time st w) as [[[st1|st1]|e] w1] eqn:Hstep;
      [| |done].
    + apply scroll_step_counts in Hstep as [Hscr Hncc].
      intros Hloop Hturns Hinv. eapply IH; [exact Hloop|lia|lia].
    + apply scroll_step_counts in Hstep.
      intros [= <- <- <-] Hturns Hinv. lia.
  - apply Z.ltb_ge in Hlt. intros [= <- <- <-] Hturns Hinv. lia.
Qed.

Lemma scroll_prologue_counts (w : W) st w' :
  scroll_prologue w = (Ok st, w') → scrolls st = 0 ∧ no_change_count st = 0.
Proof.
  unfold scroll_prologue, try_M, mbind, M_bind, mret, M_ret.
  intros Hp. repeat (case_match; simplify_eq); done.
Qed.

(** X8: [scroll_page] does not give up early.  When it returns normally it
    has made at least five turns of its loop, or all [max_scrolls] turns if
    that is fewer: the loop leaves by [break] only at the fifth turn in a row
    without growth of the document (lines 558-561). *)
Theorem scroll_page_makes_five_turns scroll_pause_time max_scrolls (w : W) turns w' :
  scroll_page scroll_pause_time max_scrolls w = Some (Ok (), turns, w') →
  Z.min 5 max_scrolls <= Z.of_nat turns.
Proof.
  unfold scroll_page, scroll_page_fuel.
  destruct (scroll_prologue w) as [[st|e] w0] eqn:Hpro; [|done].
  apply scroll_prologue_counts in Hpro as [Hscr Hncc].
  destruct (scroll_loop _ _ _ st 0 w0) as [[[[st1|e] turns1] w1]|] eqn:Hloop; [| |done].
  - destruct (scroll_epilogue scroll_pause_time w1) as [r w2].
    intros [= _ <- _].
    eapply scroll_loop_turns; [exact Hloop|lia|lia].
  - done.
Qed.

End ScrollTurns.

Lemma scroll_page_makes_five_turns_witness :
  scroll_page (5 # 2) 150 Pages.plateau_page = Some (Ok (), 10%nat, Pages.plateau_page) ∧
  Z.min 5 150 <= Z.of_nat 10.
Proof.
  split; [vm_compute; reflexivity|].
  apply (scroll_page_makes_five_turns (5 # 2) 150 Pages.plateau_page 10 Pages.plateau_page).
  vm_compute. reflexivity.
Defined.

Section ScrollWithoutCount.
Context `{WebElement E} `{Session W E}.

(** What a turn leaves in [no_product_change_count], from the count of
    images it made. *)
Lemma scroll_step_product_count scroll_pause_time st (w : W) t w' :
  scroll_step scroll_pause_time st w = (Ok t, w') →
  ∃ w1 st1 w2, count_images st w1 = (Ok st1, w2) ∧
    match t with
    | Next st' =>
        no_product_change_count st' = 0 ∨
        no_product_change_count st' = no_product_change_count st1
    | Break st' => 5 <= no_product_change_count st1
    end.
Proof.
  unfold scroll_step, mbind, M_bind, mret, M_ret, advance, reset_counts.
  intros Hs.
  repeat (case_match; simplify_eq);
    match goal with
    | Hc : count_images _ _ = (Ok _, _) |- _ =>
        eexists _, _, _; split; [exact Hc|]; simpl in *
    end;
    try (by left); try (by right).
  match goal with
  | Hb : _ && _ = true |- _ => apply andb_true_iff in Hb as [_ Hb]; by apply Z.leb_le in Hb
  end.
Qed.

Lemma scroll_prologue_fresh (w : W) st w' :
  scroll_prologue w = (Ok st, w') →
  scrolls st = 0 ∧ no_change_count st = 0 ∧
  last_product_count st = 0 ∧ no_product_change_count st = 0.
Proof.
  unfold scroll_prologue, try_M, mbind, M_bind, mret, M_ret.
  intros Hp. repeat (case_match; simplify_eq); done.
Qed.

Section CountFails.
Hypothesis Hscripts : scripts_succeed W E.
Hypothesis Hcount : ∀ w : W, ∃ e w',
  driver_find_elements CSS_SELECTOR "img" w = (Raise e, w').

Lemma count_images_fails st (w : W) st1 w1 :
  count_images st w = (Ok st1, w1) → st1 = st.
Proof.
  unfold count_images, try_M, mbind, M_bind, mret, M_ret.
  destruct (Hcount w) as (e & w' & ->). by intros [= <- _].
Qed.

Lemma scroll_loop_without_count fuel scroll_pause_time max_scrolls st turns (w : W)
    r turns' w' :
  (0 <= scroll_pause_time)%Q →
  no_product_change_count st = 0 →
  scroll_loop fuel scroll_pause_time max_scrolls st turns w = Some (r, turns', w') →
  turns' = (turns + Z.to_nat (max_scrolls - scrolls st))%nat ∧ ∃ st', r = Ok st'.
Proof.
  intros Hp. revert st turns w.
  induction fuel as [|fuel IH]; intros st turns w Hnpc; simpl; [done|].
  destruct (scrolls st <? max_scrolls) eqn:Hlt.
  - apply Z.ltb_lt in Hlt.
    destruct (scroll_step_ok scroll_pause_time st w Hscripts Hp) as (t & w1 & Hstep).
    rewrite Hstep.
    destruct (scroll_step_product_count _ _ _ _ _ Hstep) as (wa & st1 & wb & Hc & Ht).
    apply count_images_fails in Hc as ->.
    destruct t as [st'|st']; [|lia].
    apply scroll_step_next in Hstep.
    intros Hloop. apply IH in Hloop as [-> Hr]; [|lia].
    split; [lia|done].
  - apply Z.ltb_ge in Hlt. intros [= <- <- <-]. split; [lia|eauto].
Qed.


End CountFails.
End ScrollWithoutCount.

Lemma flaky_scripts_succeed : scripts_succeed Fake.Flaky Fake.Node.
Proof. intros s [n] _. by eexists _, _. Qed.

Lemma flaky_count_fails (w : Fake.Flaky) :
  ∃ e w', driver_find_elements CSS_SELECTOR "img" w = (Raise e, w').
Proof. destruct w as [n]. by eexists _, _. Qed.

Lemma half_past_two : (0 <= 5 # 2)%Q.
Proof. by vm_compute. Qed.


Section ScrollOnAPlateau.
Context `{WebElement E} `{Session W E}.
Variables (h c : Z).
Hypothesis Hscripts : scripts_succeed W E.
Hypothesis Hheight : ∀ (w : W) z w',
  execute_script ReturnScrollHeight w = (Ok z, w') → z = h.
Hypothesis Hcount : ∀ w : W, ∃ l w',
  driver_find_elements CSS_SELECTOR "img" w = (Ok l, w') ∧ Z.of_nat (length l) = c.

Lemma count_images_plateau st (w : W) :
  ∃ w', count_images st w = (Ok (counted c st), w').
Proof.
  unfold count_images, try_M, mbind, M_bind, mret, M_ret, counted.
  destruct (Hcount w) as (l & w' & -> & <-). eauto.
Qed.

Ltac run_script :=
  match goal with
  | |- context [execute_script ?s ?w] =>
      let z := fresh "z" in
      let w' := fresh "w" in
      let Hz := fresh "Hz" in
      destruct (Hscripts s w eq_refl) as (z & w' & Hz); rewrite Hz;
      try (apply Hheight in Hz as ->); simpl
  end.

Lemma scroll_step_plateau scroll_pause_time st (w : W) :
  (0 <= scroll_pause_time)%Q →
  last_height st = h →
  ∃ w', scroll_step scroll_pause_time st w = (Ok (plateau_turn c st), w').
Proof.
  intros Hp Hlast. unfold scroll_step, mbind, M_bind, mret, M_ret.
  do 2 run_script. rewrite (sleep_ok _ _ Hp).
  destruct (click_load_more_ok (time_sleep scroll_pause_time w1)) as (w2 & ->).
  run_script.
  destruct (count_images_plateau st w3) as (w4 & ->).
  unfold plateau_turn.
  assert (Hsame : last_height (counted c st) = h).
  { unfold counted. by destruct (_ <? _). }
  rewrite Hsame, Z.eqb_refl. simpl.
  destruct (5 <=? _); [|eauto].
  run_script. rewrite (sleep_twice_ok _ _ Hp). run_script. rewrite Z.eqb_refl.
  run_script. rewrite (sleep_twice_ok _ _ Hp). run_script. rewrite Z.eqb_refl. simpl.
  destruct (5 <=? _); eauto.
Qed.

Lemma plateau_turn_height st :
  last_height st = h →
  match plateau_turn c st with Next st' | Break st' => last_height st' = h end.
Proof.
  intros Hlast. unfold plateau_turn, counted, advance, reset_counts.
  repeat case_match; simplify_eq; simpl in *; done.
Qed.

Lemma scroll_loop_plateau fuel scroll_pause_time max_scrolls st turns (w : W) :
  (0 <= scroll_pause_time)%Q →
  last_height st = h →
  match plateau_loop fuel max_scrolls c st turns with
  | Some (st', turns') =>
      ∃ w', scroll_loop fuel scroll_pause_time max_scrolls st turns w
            = Some (Ok st', turns', w')
  | None => True
  end.
Proof.
  intros Hp. revert st turns w.
  induction fuel as [|fuel IH]; intros st turns w Hlast; simpl; [done|].
  destruct (scrolls st <? max_scrolls); [|eauto].
  destruct (scroll_step_plateau scroll_pause_time st w Hp Hlast) as (w1 & ->).
  pose proof (plateau_turn_height st Hlast) as Hnext.
  destruct (plateau_turn c st) as [st'|st']; [|eauto].
  by apply IH.
Qed.

Lemma plateau_loop_more fuel k max_scrolls st turns r :
  plateau_loop fuel max_scrolls c st turns = Some r →
  plateau_loop (fuel + k) max_scrolls c st turns = Some r.
Proof.
  revert st turns. induction fuel as [|fuel IH]; intros st turns; simpl; [done|].
  destruct (scrolls st <? max_scrolls); [|done].
  destruct (plateau_turn c st) as [st'|st']; [|done]. apply IH.
Qed.

Lemma plateau_turn_eq lpc scr ncc npc :
  plateau_turn c (mkScroll h lpc scr ncc npc) =
  if lpc <? c then
    if 5 <=? ncc + 1 then Next (mkScroll h c (scr + 1) 0 0)
    else Next (mkScroll h c (scr + 1) (ncc + 1) 0)
  else
    if 5 <=? ncc + 1 then
      if 5 <=? npc + 1 then Break (mkScroll h lpc scr (ncc + 1) (npc + 1))
      else Next (mkScroll h lpc (scr + 1) 0 0)
    else Next (mkScroll h lpc (scr + 1) (ncc + 1) (npc + 1)).
Proof.
  unfold plateau_turn, counted, advance, reset_counts.
  cbn [last_height last_product_count scrolls no_change_count no_product_change_count].
  destruct (lpc <? c);
    cbn [last_height last_product_count scrolls no_change_count no_product_change_count];
    [|done].
  change (5 <=? 0) with false. cbv iota. done.
Qed.

Lemma plateau_loop_next fuel max_scrolls st st' turns :
  plateau_turn c st = Next st' → scrolls st < max_scrolls →
  plateau_loop (S fuel) max_scrolls c st turns
  = plateau_loop fuel max_scrolls c st' (S turns).
Proof.
  intros Hturn Hlt. cbn [plateau_loop].
  apply Z.ltb_lt in Hlt. by rewrite Hlt, Hturn.
Qed.

Lemma plateau_loop_break fuel max_scrolls st st' turns :
  plateau_turn c st = Break st' → scrolls st < max_scrolls →
  plateau_loop (S fuel) max_scrolls c st turns = Some (st', S turns).
Proof.
  intros Hturn Hlt. cbn [plateau_loop].
  apply Z.ltb_lt in Hlt. by rewrite Hlt, Hturn.
Qed.

Lemma plateau_loop_turns max_scrolls :
  10 <= max_scrolls →
  ∃ st', plateau_loop 11 max_scrolls c (mkScroll h 0 0 0 0) 0
         = Some (st', if 0 <? c then 10%nat else 5%nat).
Proof.
  intros Hmax.
  destruct (0 <? c) eqn:Hc.
  - do 9 (erewrite plateau_loop_next;
          [|rewrite plateau_turn_eq, ?Hc, ?Z.ltb_irrefl; reflexivity
           |cbn [scrolls]; lia]).
    erewrite plateau_loop_break;
      [|rewrite plateau_turn_eq, ?Hc, ?Z.ltb_irrefl; reflexivity|cbn [scrolls]; lia].
    eauto.
  - do 4 (erewrite plateau_loop_next;
          [|rewrite plateau_turn_eq, ?Hc; reflexivity|cbn [scrolls]; lia]).
    erewrite plateau_loop_break;
      [|rewrite plateau_turn_eq, ?Hc; reflexivity|cbn [scrolls]; lia].
    eauto.
Qed.


End ScrollOnAPlateau.

(** The in-memory page without any image: five turns. *)
Example plateau_without_images :
  fst <$> scroll_page (5 # 2) 150 (Fake.mkBrowser [] [] Pages.works 1000)
  = Some (Ok (), 5%nat).
Proof. vm_compute. reflexivity. Qed.

Lemma still_scripts_succeed : scripts_succeed Still.Page Fake.Node.
Proof. intros s [n] _. by eexists _, _. Qed.

Lemma still_height (w : Still.Page) z w' :
  execute_script ReturnScrollHeight w = (Ok z, w') → z = 1000.
Proof. destruct w as [n]. by intros [= <- _]. Qed.

Lemma still_count (w : Still.Page) :
  ∃ l w', driver_find_elements CSS_SELECTOR "img" w = (Ok l, w') ∧
          Z.of_nat (length l) = 1.
Proof. destruct w as [n]. by eexists _, _. Qed.


(** ** [scrape_homepage] *)

Section HomepageFacts.
Context `{WebElement E} `{Session W E} `{Unembedded W E}.

(** X11: called on a scraper in a state that its own methods can produce,
    [scrape_homepage] returns, and what it returns is the whole of
    [self.products] (line 299), not the list of this run: it starts with the
    records held before the call, no two of its records have the same key
    (hyperlink, else title), and each has a title, a price or an image. *)
Theorem scrape_homepage_returns_the_collection self (w : W) :
  consistent self →
  ∃ ret self' w',
    scrape_homepage self w = Some (ret, self', w') ∧
    ret = products self' ∧
    products self `prefix_of` ret ∧
    NoDup (unique_key <$> ret) ∧
    Forall Spec.has_evidence ret ∧
    consistent self'.
Proof.
  intros Hself. unfold scrape_homepage.
  destruct (scrape_category_page_spec "https://heb.com" self w)
    as (ret & self' & w' & Hrun & new1 & new2 & sub2 & Hok1 & Hok2 & Hsub & Hseen & Hps & _).
  rewrite Hrun. exists (products self'), self', w'.
  assert (Hcons : consistent self') by (by eapply consistent_two_passes).
  split; [done|]. split; [done|]. split; [rewrite Hps; by eexists|].
  destruct Hcons as (Hacc & Hnd & Hkeys).
  split; [done|]. split; [|done].
  eapply Forall_impl; [exact Hacc|]. apply accepted_evidence.
Qed.

End HomepageFacts.

Lemma scrape_homepage_returns_the_collection_witness :
  consistent new_scraper ∧
  ∃ ret self' w',
    scrape_homepage new_scraper Pages.two_pass_page = Some (ret, self', w') ∧
    ret = products self' ∧
    products new_scraper `prefix_of` ret ∧
    NoDup (unique_key <$> ret) ∧
    Forall Spec.has_evidence ret ∧
    consistent self'.
Proof.
  split; [exact new_scraper_consistent|].
  exact (scrape_homepage_returns_the_collection new_scraper Pages.two_pass_page
           new_scraper_consistent).
Defined.

(** On the page of the two-pass scenario [scrape_category_page] returns the
    three records of the first pass, [scrape_homepage] all four. *)
Example homepage_run :
  match scrape_homepage new_scraper Pages.two_pass_page with
  | Some (ret, _, _) => product_hyperlink <$> ret
  | None => []
  end
  = [Some "https://heb.com/p/A"; Some "https://heb.com/p/B";
     Some "https://heb.com/p/C"; Some "https://heb.com/p/D"].
Proof. vm_compute. reflexivity. Qed.

(** ** [handle_pagination] *)

Section PaginationFacts.
Context `{WebElement E} `{Session W E}.

Lemma next_page_of_spec category_url page_urls selector (w : W) :
  ∃ r w', next_page_of category_url page_urls selector w = (Ok r, w') ∧
    ∀ href, r = Some href →
      startswith href "http" = true ∧ (href ∉ page_urls) ∧ href ≠ category_url.
Proof.
  unfold next_page_of, try_M, mbind, M_bind, mret, M_ret, lift_exc.
  destruct (driver_find_element CSS_SELECTOR selector w) as [[next_btn|e] w1];
    [|by eexists _, _].
  destruct (get_attribute next_btn "href") as [[h|]|e]; [| |]; try by eexists _, _.
  destruct (str_truthy h); [|by eexists _, _].
  destruct (negb (bool_decide (absolute h ∈ page_urls)) &&
            negb (String.eqb (absolute h) category_url)) eqn:Hnew;
    [|by eexists _, _].
  eexists _, _. split; [done|]. intros href [= <-].
  apply andb_true_iff in Hnew as [Hin Heq].
  apply negb_true_iff in Hin, Heq.
  apply bool_decide_eq_false in Hin. apply String.eqb_neq in Heq.
  split; [apply absolute_http|done].
Qed.

Lemma first_next_page_spec category_url page_urls selectors (w : W) :
  ∃ r w', first_next_page category_url page_urls selectors w = (Ok r, w') ∧
    ∀ href, r = Some href →
      startswith href "http" = true ∧ (href ∉ page_urls) ∧ href ≠ category_url.
Proof.
  revert w. induction selectors as [|selector rest IH]; intros w; simpl.
  - eexists _, _. split; [done|]. done.
  - unfold mbind, M_bind.
    destruct (next_page_of_spec category_url page_urls selector w)
      as ([href|] & w1 & -> & Hr).
    + eexists _, _. split; [done|]. exact Hr.
    + apply IH.
Qed.

Lemma page_numbers_spec (page_links : list E) page_urls :
  ∃ more, page_numbers page_links page_urls = page_urls ++ more ∧
          Forall (λ u, startswith u "http" = true) more ∧
          (NoDup page_urls → NoDup (page_urls ++ more)).
Proof.
  revert page_urls. induction page_links as [|link rest IH]; intros page_urls; simpl.
  - exists []. by rewrite app_nil_r.
  - assert (Hstop : ∃ more, page_urls = page_urls ++ more ∧
                      Forall (λ u, startswith u "http" = true) more ∧
                      (NoDup page_urls → NoDup (page_urls ++ more))).
    { exists []. by rewrite app_nil_r. }
    destruct (_ ≫= _) as [[h|]|e]; [|apply IH|exact Hstop].
    destruct (str_truthy h); [|apply IH].
    destruct (bool_decide (absolute h ∈ page_urls)) eqn:Hin; [apply IH|].
    apply bool_decide_eq_false in Hin.
    destruct (IH (page_urls ++ [absolute h])) as (more & -> & Hhttp & Hnd).
    exists (absolute h :: more). rewrite <- app_assoc. split; [done|].
    split; [constructor; [apply absolute_http|done]|].
    intros Hnd0.
    replace (page_urls ++ absolute h :: more)
      with ((page_urls ++ [absolute h]) ++ more) by (by rewrite <- app_assoc).
    apply Hnd.
    apply NoDup_app. split; [done|]. split; [|apply NoDup_singleton].
    intros x Hx [->|Hnil]%elem_of_cons; [done|by apply elem_of_nil in Hnil].
Qed.

(** X12: [handle_pagination] never raises, whatever the driver does.  The
    list it returns starts with the category URL it was given, holds no URL
    twice, and every URL after the first starts with [http]. *)
Theorem handle_pagination_returns_distinct_pages category_url (w : W) :
  ∃ more w',
    handle_pagination category_url w = (Ok (category_url :: more), w') ∧
    NoDup (category_url :: more) ∧
    Forall (λ u, startswith u "http" = true) more.
Proof.
  assert (Hnone : ∀ w' : W, ∃ more w'',
    (Ok [category_url], w') = (Ok (category_url :: more), w'') ∧
    NoDup (category_url :: more) ∧ Forall (λ u, startswith u "http" = true) more).
  { intros w'. exists [], w'. split; [done|]. split; [apply NoDup_singleton|done]. }
  unfold handle_pagination, try_M, mbind at 1, M_bind at 1.
  destruct (driver_get category_url w) as [[[]|e] w1]; [|apply Hnone].
  unfold mbind at 1, M_bind at 1.
  rewrite (sleep_true 3) by reflexivity.
  unfold mbind at 1, M_bind at 1.
  destruct (execute_script ScrollToBottom _) as [[z|e] w2]; [|apply Hnone].
  unfold mbind at 1, M_bind at 1.
  rewrite (sleep_true 2) by reflexivity.
  unfold mbind at 1, M_bind at 1.
  destruct (first_next_page_spec category_url [category_url] pagination_selectors
              (time_sleep 2 w2)) as ([href|] & w3 & -> & Hnext).
  - destruct (Hnext href eq_refl) as (Hhttp & Hin & Hne).
    unfold mret, M_ret. exists [href], w3. split; [done|].
    split; [|by constructor].
    apply NoDup_cons. split; [|apply NoDup_singleton].
    intros [->|Hnil]%elem_of_cons; [done|by apply elem_of_nil in Hnil].
  - unfold mbind, M_bind, mret, M_ret.
    destruct (driver_find_elements CSS_SELECTOR _ w3) as [[page_links|e] w4];
      [|apply Hnone].
    destruct (page_numbers_spec page_links [category_url]) as (more & -> & Hhttp & Hnd).
    exists more, w4. split; [done|]. split; [|done].
    apply Hnd, NoDup_singleton.
Qed.

End PaginationFacts.

(** ** [find_all_categories] *)

Section CategoryFacts.
Context `{WebElement E} `{Session W E}.

Lemma category_name_truthy text_ href : str_truthy (category_name text_ href) = true.
Proof.
  unfold category_name. destruct (str_truthy text_) eqn:Ht; [done|].
  by destruct (str_truthy (title _)) eqn:Hu.
Qed.

Lemma discovered_add categories category_urls href name_ :
  discovered (categories, category_urls) →
  contains "heb.com" href = true → startswith href "http" = true →
  str_truthy name_ = true → href ∉ category_urls →
  discovered (categories ++ [mkCategory href name_], {[href]} ∪ category_urls).
Proof.
  intros (Hgood & Hnd & Hin) Hsite Hhttp Hname Hnew. simpl in *.
  split; [|split]; simpl.
  - apply Forall_app. split; [done|]. by repeat constructor.
  - rewrite fmap_app. apply NoDup_app. split; [done|]. split; [|apply NoDup_singleton].
    intros u (c & -> & Hc)%list_elem_of_fmap [Hu|Hnil]%elem_of_cons;
      [|by apply elem_of_nil in Hnil].
    simpl in Hu. apply Hnew. rewrite <- Hu. by apply Hin.
  - intros c [Hc|[->|Hnil]%elem_of_cons]%elem_of_app.
    + apply elem_of_union_r. by apply Hin.
    + apply elem_of_union_l. by apply elem_of_singleton.
    + by apply elem_of_nil in Hnil.
Qed.

Lemma add_category_discovered (elem : E) st :
  discovered st → discovered (add_category elem st).
Proof.
  destruct st as [categories category_urls]. intros Hst. unfold add_category.
  destruct (get_attribute elem "href") as [[h|]|e]; simpl; [| |done].
  2:{ by destruct (text elem). }
  destruct (text elem) as [t|e]; simpl; [|done].
  destruct (str_truthy h && _); [|done].
  destruct (contains "heb.com" (absolute h) && _ && _ && _) eqn:Hadd; [|done].
  apply andb_true_iff in Hadd as [Hadd Hnew].
  apply andb_true_iff in Hadd as [Hadd _].
  apply andb_true_iff in Hadd as [Hsite _].
  apply negb_true_iff, bool_decide_eq_false in Hnew.
  apply discovered_add; [done|done|apply absolute_http|apply category_name_truthy|done].
Qed.

Lemma add_source_url_discovered url_ st :
  discovered st → discovered (add_source_url url_ st).
Proof.
  destruct st as [categories category_urls]. intros Hst. unfold add_source_url.
  destruct (contains "heb.com" (absolute url_) && _) eqn:Hadd; [|done].
  destruct (negb _ && negb _); [|done].
  apply andb_true_iff in Hadd as [Hsite Hnew].
  apply negb_true_iff, bool_decide_eq_false in Hnew.
  apply discovered_add; [done|done|apply absolute_http|apply category_name_truthy|done].
Qed.

Lemma foldl_discovered {A} (f : list Category * gset string → A → list Category * gset string)
    l st :
  (∀ st a, discovered st → discovered (f st a)) →
  discovered st → discovered (foldl f st l).
Proof.
  intros Hf. revert st. induction l as [|a l IH]; intros st Hst; simpl; [done|].
  apply IH. by apply Hf.
Qed.

Lemma categories_by_selectors_spec selectors st (w : W) :
  discovered st →
  ∃ st' w', categories_by_selectors selectors st w = (Ok st', w') ∧ discovered st'.
Proof.
  revert st w. induction selectors as [|selector rest IH]; intros st w Hst; simpl.
  - by eexists _, _.
  - unfold mbind, M_bind, try_M, mret, M_ret.
    destruct (driver_find_elements CSS_SELECTOR selector w) as [[elements|e] w1].
    + set (st1 := foldl (λ st elem, add_category elem st) st elements).
      assert (Hst1 : discovered st1).
      { apply foldl_discovered; [|done]. intros. by apply add_category_discovered. }
      simpl. destruct (st1.1) eqn:Hcats; simpl.
      * by apply IH.
      * by eexists _, _.
    + simpl. by apply IH.
Qed.

Lemma categories_by_source_spec st (w : W) :
  discovered st →
  ∃ st' w', categories_by_source st w = (Ok st', w') ∧ discovered st'.
Proof.
  intros Hst. unfold categories_by_source, try_M, mbind, M_bind, mret, M_ret.
  destruct (page_source w) as [[src|e] w1]; [|by eexists _, _].
  eexists _, _. split; [done|].
  apply foldl_discovered; [|done]. intros. by apply add_source_url_discovered.
Qed.

Lemma discover_spec (w : W) :
  ∃ categories w', discover w = (Ok categories, w') ∧
    categories ≠ [] ∧ Forall good_category categories ∧ NoDup (url <$> categories).
Proof.
  unfold discover, mbind at 1, M_bind at 1.
  assert (Hempty : discovered ([], ∅)).
  { split; [constructor|]. split; [constructor|].
    intros c Hc. by apply elem_of_nil in Hc. }
  destruct (categories_by_selectors_spec category_selectors ([], ∅) w Hempty)
    as (st1 & w1 & -> & Hst1).
  unfold mbind, M_bind.
  assert (Hsome : ∃ st2 w2,
    match st1.1 with [] => categories_by_source st1 | _ :: _ => mret st1 end w1
    = (Ok st2, w2) ∧ discovered st2).
  { destruct (st1.1); [by apply categories_by_source_spec|by eexists _, _]. }
  destruct Hsome as (st2 & w2 & -> & (Hgood & Hnd & _)).
  unfold mret, M_ret. eexists _, _. split; [done|].
  destruct (st2.1) as [|c cs] eqn:Hcats.
  - split; [done|]. split; [|apply NoDup_singleton].
    constructor; [|done]. by vm_compute.
  - done.
Qed.

(** X13: [find_all_categories] never raises and never returns an empty
    list.  Every entry has a URL that starts with [http] and contains
    [heb.com], and a non-empty name; no URL occurs twice.  (When nothing is
    found, or when an exception escapes, the list is the one entry of the
    homepage.) *)
Theorem find_all_categories_returns_site_urls (w : W) :
  ∃ categories w',
    find_all_categories w = Some (categories, w') ∧
    categories ≠ [] ∧
    Forall good_category categories ∧
    NoDup (url <$> categories).
Proof.
  assert (Hdefault : ∀ w' : W, ∃ categories w'',
    Some ([mkCategory base_url "All Products"], w') = Some (categories, w'') ∧
    categories ≠ [] ∧ Forall good_category categories ∧ NoDup (url <$> categories)).
  { intros w'. eexists _, _. split; [done|]. split; [done|].
    split; [|apply NoDup_singleton]. constructor; [|done]. by vm_compute. }
  unfold find_all_categories.
  destruct (before_discovery w) as [[[]|e] w0]; [|apply Hdefault].
  destruct (scroll_page_returns 2 5 w0) as (r & turns & w1 & ->).
  destruct r as [[]|e]; [|apply Hdefault].
  destruct (discover_spec w1) as (categories & w2 & -> & Hne & Hgood & Hnd).
  by exists categories, w2.
Qed.

End CategoryFacts.

(** Discovery on a page whose category links are a link without text, a
    link with text, a link to an account page and the first link again. *)
Example discovery_run :
  let produce := Fake.link_card 1 "/category/fresh-produce" "/img/a.jpg" EmptyString in
  let dairy := Fake.link_card 3 "https://heb.com/category/dairy" "/img/b.jpg" " Dairy & Eggs " in
  let account := Fake.link_card 5 "/category/account/orders" "/img/c.jpg" "Orders" in
  let again := Fake.link_card 7 "/category/fresh-produce" "/img/a.jpg" "Produce" in
  let page_ := Fake.mkBrowser [("a[href*='/category/']", [produce; dairy; account; again])]
                 [] Pages.works 1000 in
  fst <$> find_all_categories page_
  = Some [mkCategory "https://heb.com/category/fresh-produce" "Fresh Produce";
          mkCategory "https://heb.com/category/dairy" "Dairy & Eggs"].
Proof. vm_compute. reflexivity. Qed.

(** Without any category link the list is the entry of the homepage. *)
Example discovery_finds_nothing :
  fst <$> find_all_categories Pages.plateau_page
  = Some [mkCategory "https://heb.com" "Homepage - All Products"].
Proof. vm_compute. reflexivity. Qed.

(** Pagination: a next-page link; and, without one, the page links, where a
    [data-page] number is read as a relative URL. *)
Example pagination_run :
  let next := Fake.link_card 1 "/deals?page=2" "/img/a.jpg" "Next" in
  let three := Fake.mkNode 3 "button" [("data-page", "3")] "3" (40, 40) [] [] in
  let with_next := Fake.mkBrowser [("a[href*='page=']", [next])] [] Pages.works 1000 in
  let with_numbers :=
    Fake.mkBrowser [("a[href*='page'], button[data-page]", [next; three; next])]
      [] Pages.works 1000 in
  (handle_pagination "https://heb.com/deals" with_next).1
    = Ok ["https://heb.com/deals"; "https://heb.com/deals?page=2"] ∧
  (handle_pagination "https://heb.com/deals" with_numbers).1
    = Ok ["https://heb.com/deals"; "https://heb.com/deals?page=2"; "https://heb.com/3"] ∧
  (handle_pagination "https://heb.com/deals" Pages.stuck_page).1
    = Ok ["https://heb.com/deals"].
Proof. repeat split; vm_compute; reflexivity. Qed.

(** ** The later tiers of the candidate search *)

Section TierFacts.
Context `{WebElement E} `{Remote E} `{Session W E} `{ProductScript W}.

Lemma tracked_nil seen : tracked ([] : list E) seen.
Proof. intros e He. by apply elem_of_nil in He. Qed.

Lemma tracked_snoc (pe : list E) seen elem :
  tracked pe seen → tracked (pe ++ [elem]) ({[py_id elem]} ∪ seen).
Proof.
  intros Hpe e [He|[->|Hnil]%elem_of_cons]%elem_of_app.
  - apply elem_of_union_r. by apply Hpe.
  - apply elem_of_union_l. by apply elem_of_singleton.
  - by apply elem_of_nil in Hnil.
Qed.

Lemma add_unseen_tracked (elems pe : list E) seen :
  tracked pe seen →
  tracked (add_unseen elems pe seen).1 (add_unseen elems pe seen).2.
Proof.
  revert pe seen. induction elems as [|elem rest IH]; intros pe seen Hpe; simpl; [done|].
  destruct (bool_decide (py_id elem ∈ seen)); [by apply IH|].
  by apply IH, tracked_snoc.
Qed.

Lemma NoDup_snoc_id (pe : list E) seen elem :
  tracked pe seen → py_id elem ∉ seen → NoDup (py_id <$> pe) →
  NoDup (py_id <$> pe ++ [elem]).
Proof.
  intros Hpe Hnew Hnd. rewrite fmap_app. apply NoDup_app. split; [done|].
  split; [|apply NoDup_singleton].
  intros i (e & -> & He)%list_elem_of_fmap [Hi|Hnil]%elem_of_cons;
    [|by apply elem_of_nil in Hnil].
  simpl in Hi. apply Hnew. rewrite <- Hi. by apply Hpe.
Qed.

Lemma add_validated_distinct (js_elements pe : list E) seen :
  tracked pe seen → NoDup (py_id <$> pe) →
  tracked (add_validated js_elements pe seen).1 (add_validated js_elements pe seen).2 ∧
  NoDup (py_id <$> (add_validated js_elements pe seen).1).
Proof.
  revert pe seen. induction js_elements as [|elem rest IH]; intros pe seen Hpe Hnd;
    simpl; [done|].
  destruct (bool_decide (py_id elem ∈ seen)) eqn:Hin; [by apply IH|].
  apply bool_decide_eq_false in Hin.
  destruct (_ ≫= _) as [[|]|e]; try by apply IH.
  apply IH; [by apply tracked_snoc|by eapply NoDup_snoc_id].
Qed.

(** The number of visits that the loop of lines 947-951 still has to make
    is at most the length of what is left plus the number of elements in it
    whose identity is new. *)
Lemma filter_unseen_mono (l : list E) (seen seen' : gset nat) :
  seen ⊆ seen' →
  (length (filter (λ e, py_id e ∉ seen') l) ≤ length (filter (λ e, py_id e ∉ seen) l))%nat.
Proof.
  intros Hsub. induction l as [|e l IH]; [done|].
  rewrite !filter_cons.
  destruct (decide (py_id e ∉ seen')) as [Hn'|Hn'];
    destruct (decide (py_id e ∉ seen)) as [Hn|Hn]; simpl; try lia.
  exfalso. apply Hn. intros Hin. apply Hn'. by apply Hsub.
Qed.

Lemma append_unseen_returns fuel (todo pe : list E) seen :
  (length todo + length (filter (λ e, py_id e ∉ seen) todo) ≤ fuel)%nat →
  ∃ app seen',
    append_unseen fuel todo pe seen = Some (pe ++ app, seen') ∧
    seen ⊆ seen' ∧ tracked todo seen' ∧ tracked app seen'.
Proof.
  revert todo pe seen. induction fuel as [|fuel IH]; intros todo pe seen Hfuel.
  - destruct todo as [|elem rest]; [|simpl in Hfuel; lia].
    exists [], seen. simpl. rewrite app_nil_r.
    split; [done|]. split; [done|]. split; apply tracked_nil.
  - destruct todo as [|elem rest].
    { exists [], seen. simpl. rewrite app_nil_r.
      split; [done|]. split; [done|]. split; apply tracked_nil. }
    simpl. rewrite filter_cons in Hfuel. simpl in Hfuel.
    destruct (bool_decide (py_id elem ∈ seen)) eqn:Hin.
    + apply bool_decide_eq_true in Hin.
      rewrite decide_False in Hfuel by (intros Hn; by apply Hn).
      destruct (IH rest pe seen) as (app & seen' & -> & Hsub & Hrest & Happ); [lia|].
      exists app, seen'. split; [done|]. split; [done|]. split; [|done].
      intros e [->|He]%elem_of_cons; [by apply Hsub|by apply Hrest].
    + apply bool_decide_eq_false in Hin.
      rewrite decide_True in Hfuel by done. simpl in Hfuel.
      destruct (IH (rest ++ [elem]) (pe ++ [elem]) ({[py_id elem]} ∪ seen))
        as (app & seen' & -> & Hsub & Hrest & Happ).
      { rewrite filter_app, !List.length_app, filter_cons, decide_False by set_solver.
        simpl.
        pose proof (filter_unseen_mono rest seen ({[py_id elem]} ∪ seen)) as Hmono.
        specialize (Hmono ltac:(set_solver)). lia. }
      exists (elem :: app), seen'. rewrite <- app_assoc.
      split; [done|]. split; [set_solver|]. split.
      * intros e [->|He]%elem_of_cons; [apply Hsub; set_solver|].
        apply Hrest. apply elem_of_app. by left.
      * intros e [->|He]%elem_of_cons; [apply Hsub; set_solver|by apply Happ].
Qed.

Lemma filter_length_le {A} (P : A → Prop) `{∀ x, Decision (P x)} (l : list A) :
  (length (filter P l) ≤ length l)%nat.
Proof.
  induction l as [|x l IH]; [done|]. rewrite filter_cons.
  destruct (decide (P x)); simpl; lia.
Qed.

Lemma price_parents_length (price_containers : list E) seen_containers pe :
  (length (price_parents price_containers seen_containers pe)
   ≤ length pe + length price_containers)%nat.
Proof.
  revert seen_containers pe.
  induction price_containers as [|price_elem rest IH]; intros seen_containers pe; simpl;
    [lia|].
  destruct (find_element price_elem XPATH ancestor_xpath) as [parent|e].
  - destruct (bool_decide _).
    + specialize (IH seen_containers pe). lia.
    + specialize (IH ({[py_id parent]} ∪ seen_containers) (pe ++ [parent])).
      rewrite List.length_app in IH. simpl in IH. lia.
  - specialize (IH seen_containers pe). lia.
Qed.

Lemma list_slice_to_length {A} n (l : list A) :
  0 <= n → (length (list_slice_to n l) ≤ Z.to_nat n)%nat.
Proof.
  intros Hn. unfold list_slice_to.
  destruct (0 <=? n) eqn:Hpos; [|apply Z.leb_gt in Hpos; lia].
  rewrite length_take. lia.
Qed.

Lemma price_tier_tracked (pe : list E) seen (w : W) :
  tracked pe seen →
  ∃ pe' seen' w',
    price_tier (2 * (length pe + 100)) pe seen w = Some ((pe', seen'), w') ∧
    tracked pe' seen'.
Proof.
  intros Hpe. unfold price_tier.
  destruct (length pe <? 10)%nat; [|by eexists _, _, _].
  destruct (driver_find_elements XPATH price_xpath w) as [[price_containers|e] w1];
    [|by eexists _, _, _].
  set (l := price_parents (list_slice_to 100 price_containers) ∅ pe).
  destruct (append_unseen_returns (2 * (length pe + 100)) l l seen)
    as (app & seen' & -> & Hsub & Hl & Happ).
  { pose proof (filter_length_le (λ e, py_id e ∉ seen) l) as Hf.
    pose proof (price_parents_length (list_slice_to 100 price_containers) ∅ pe) as Hl.
    pose proof (list_slice_to_length 100 price_containers) as Hs.
    fold l in Hl. lia. }
  simpl. eexists _, _, _. split; [done|].
  intros e [He|He]%elem_of_app; [by apply Hl|by apply Happ].
Qed.

Lemma link_tier_tracked (pe : list E) seen (w : W) :
  tracked pe seen →
  ∃ pe' seen' w', link_tier pe seen w = (Ok (pe', seen'), w') ∧ tracked pe' seen'.
Proof.
  intros Hpe. unfold link_tier, try_M, mbind, M_bind, mret, M_ret.
  destruct (length pe <? 50)%nat; [|by eexists _, _, _].
  destruct (driver_find_elements CSS_SELECTOR _ w) as [[product_links|e] w1];
    [|by eexists _, _, _].
  destruct (driver_find_elements CSS_SELECTOR "a" w1) as [[all_links|e] w2];
    [|by eexists _, _, _].
  destruct (add_unseen (more_links all_links product_links) pe seen)
    as [pe' seen'] eqn:Hadd.
  eexists _, _, _. split; [done|].
  pose proof (add_unseen_tracked (more_links all_links product_links) pe seen Hpe) as Ht.
  by rewrite Hadd in Ht.
Qed.

Lemma structure_tier_tracked (pe : list E) seen (w : W) :
  tracked pe seen →
  ∃ pe' seen' w', structure_tier pe seen w = (Ok (pe', seen'), w') ∧ tracked pe' seen'.
Proof.
  intros Hpe. unfold structure_tier, try_M, mbind, M_bind, mret, M_ret.
  destruct (length pe <? 30)%nat; [|by eexists _, _, _].
  destruct (driver_find_elements CSS_SELECTOR _ w) as [[all_elements|e] w1];
    [|by eexists _, _, _].
  destruct (add_unseen _ pe seen) as [pe' seen'] eqn:Hadd.
  eexists _, _, _. split; [done|].
  match type of Hadd with
  | add_unseen ?l _ _ = _ => pose proof (add_unseen_tracked l pe seen Hpe) as Ht
  end.
  by rewrite Hadd in Ht.
Qed.

Lemma script_tier_distinct (pe : list E) seen (w : W) :
  tracked pe seen → NoDup (py_id <$> pe) →
  ∃ pe' seen' w', script_tier pe seen w = (Ok (pe', seen'), w') ∧
                  NoDup (py_id <$> pe').
Proof.
  intros Hpe Hnd. unfold script_tier, try_M, mbind, M_bind, mret, M_ret.
  destruct (length pe <? 20)%nat; [|by eexists _, _, _].
  destruct (count_product_like w) as [[product_count|e] w1]; [|by eexists _, _, _].
  destruct (0 <? product_count); [|by eexists _, _, _].
  destruct (driver_find_elements CSS_SELECTOR _ w1) as [[js_elements|e] w2];
    [|by eexists _, _, _].
  destruct (add_validated _ pe seen) as [pe' seen'] eqn:Hadd.
  eexists _, _, _. split; [done|].
  match type of Hadd with
  | add_validated ?l _ _ = _ =>
      destruct (add_validated_distinct l pe seen Hpe Hnd) as [_ Hnd']
  end.
  by rewrite Hadd in Hnd'.
Qed.

(** X14: run on a list whose identities are all in [seen_element_ids], as
    the list that the selector cascade leaves is, the later tiers of lines
    925-1098 end (the loop of lines 947-951, which appends to the list it
    runs over, included), raise nothing, and give a list of candidates in
    which no identity occurs twice. *)
Theorem fallback_tiers_give_distinct_candidates (product_elements : list E)
    seen_element_ids (w : W) :
  tracked product_elements seen_element_ids →
  ∃ candidates w',
    fallback_tiers product_elements seen_element_ids w = Some (candidates, w') ∧
    NoDup (py_id <$> candidates).
Proof.
  intros Hpe. unfold fallback_tiers, fallback_tiers_fuel.
  destruct (price_tier_tracked product_elements seen_element_ids w Hpe)
    as (pe1 & seen1 & w1 & -> & Ht1).
  simpl.
  destruct (link_tier_tracked pe1 seen1 w1 Ht1) as (pe2 & seen2 & w2 & -> & Ht2).
  destruct (structure_tier_tracked pe2 seen2 w2 Ht2) as (pe3 & seen3 & w3 & -> & Ht3).
  destruct (unique_by_id_sublist_nodup pe3) as (Hsub & Hnd).
  destruct (script_tier_distinct (unique_by_id pe3 ∅ []) seen3 w3)
    as (pe4 & seen4 & w4 & -> & Hnd4); [|done|by eexists _, _].
  intros e He. apply Ht3. by eapply elem_of_sublist.
Qed.

End TierFacts.

Section PriceTier.
Context `{WebElement E} `{Remote E} `{Session W E} `{ProductScript W}.

Lemma price_parents_spec (price_containers : list E) seen_containers pe :
  ∃ ps, price_parents price_containers seen_containers pe = pe ++ ps ∧
        NoDup (py_id <$> ps) ∧ ∀ e, e ∈ ps → py_id e ∉ seen_containers.
Proof.
  revert seen_containers pe.
  induction price_containers as [|price_elem rest IH]; intros seen_containers pe; simpl.
  - exists []. rewrite app_nil_r. split; [done|]. split; [constructor|].
    intros e He. by apply elem_of_nil in He.
  - destruct (find_element price_elem XPATH ancestor_xpath) as [parent|e]; [|apply IH].
    destruct (bool_decide (py_id parent ∈ seen_containers)) eqn:Hin; [apply IH|].
    apply bool_decide_eq_false in Hin.
    destruct (IH ({[py_id parent]} ∪ seen_containers) (pe ++ [parent]))
      as (ps & -> & Hnd & Hnew).
    exists (parent :: ps). rewrite <- app_assoc. split; [done|]. split.
    + simpl. constructor; [|done].
      intros (e & He & Hps)%list_elem_of_fmap.
      apply (Hnew e Hps). rewrite <- He. set_solver.
    + intros e [->|He]%elem_of_cons; [done|].
      intros Hseen. apply (Hnew e He). set_solver.
Qed.

Lemma append_unseen_all_seen fuel (todo pe : list E) seen :
  tracked todo seen → (length todo ≤ fuel)%nat →
  append_unseen fuel todo pe seen = Some (pe, seen).
Proof.
  revert fuel. induction todo as [|elem rest IH]; intros fuel Hseen Hfuel;
    [by destruct fuel|].
  destruct fuel as [|fuel]; [simpl in Hfuel; lia|]. simpl.
  rewrite bool_decide_eq_true_2 by (apply Hseen; by left).
  apply IH; [|simpl in Hfuel; lia].
  intros e He. apply Hseen. by right.
Qed.

Lemma append_unseen_all_new fuel (todo app pe : list E) seen :
  NoDup (py_id <$> todo) → (∀ e, e ∈ todo → py_id e ∉ seen) → tracked app seen →
  (2 * length todo + length app ≤ fuel)%nat →
  append_unseen fuel (todo ++ app) pe seen
  = Some (pe ++ todo, list_to_set (py_id <$> todo) ∪ seen).
Proof.
  revert fuel app pe seen.
  induction todo as [|elem rest IH]; intros fuel app pe seen Hnd Hnew Happ Hfuel.
  - simpl. rewrite app_nil_r, (left_id_L ∅ (∪)).
    apply append_unseen_all_seen; [done|simpl in Hfuel; lia].
  - destruct fuel as [|fuel]; [simpl in Hfuel; lia|]. simpl.
    rewrite bool_decide_eq_false_2 by (apply Hnew; by left).
    apply NoDup_cons in Hnd as [Hnotin Hnd].
    rewrite <- app_assoc.
    rewrite (IH fuel (app ++ [elem]) (pe ++ [elem]) ({[py_id elem]} ∪ seen)).
    + rewrite <- app_assoc. simpl. f_equal. f_equal. set_solver.
    + done.
    + intros e He [Hid%elem_of_singleton|Hseen]%elem_of_union.
      * apply Hnotin. rewrite <- Hid. apply list_elem_of_fmap. by exists e.
      * apply (Hnew e); [by right|done].
    + intros e [He|[->|Hnil]%elem_of_cons]%elem_of_app.
      * apply elem_of_union_r. by apply Happ.
      * set_solver.
      * by apply elem_of_nil in Hnil.
    + rewrite List.length_app. simpl in *. lia.
Qed.

(** X15: when the selector cascade has given nothing, as it always does,
    the tier of lines 926-954 leaves every container it finds twice in
    [product_elements]: the loop of lines 947-951 appends each element of the
    list to that same list.  The containers have pairwise different
    identities, and their identities are what [seen_element_ids] then
    holds.  With 25 containers or more the list has 50 entries or more, so
    the next tier (lines 957-995, for fewer than 50) does nothing. *)
Theorem price_tier_appends_each_container_twice fuel (w : W) price_containers w' :
  driver_find_elements XPATH price_xpath w = (Ok price_containers, w') →
  let parents := price_parents (list_slice_to 100 price_containers) ∅ [] in
  (2 * length parents ≤ fuel)%nat →
  NoDup (py_id <$> parents) ∧
  price_tier fuel [] ∅ w
    = Some ((parents ++ parents, list_to_set (py_id <$> parents)), w') ∧
  ((25 ≤ length parents)%nat →
   ∀ seen (w'' : W),
     link_tier (parents ++ parents) seen w'' = (Ok (parents ++ parents, seen), w'')).
Proof.
  intros Hfind parents Hfuel.
  destruct (price_parents_spec (list_slice_to 100 price_containers) ∅ [])
    as (ps & Hps & Hnd & Hnew).
  simpl in Hps. fold parents in Hps. subst ps.
  split; [done|]. split.
  - unfold price_tier. simpl. rewrite Hfind. fold parents.
    pose proof (append_unseen_all_new fuel parents [] parents ∅ Hnd Hnew
                  (tracked_nil ∅)) as Hrun.
    rewrite app_nil_r, (right_id_L ∅ (∪)) in Hrun.
    rewrite Hrun by (simpl; lia). done.
  - intros Hmany seen w''. unfold link_tier.
    rewrite (proj2 (Nat.ltb_ge _ _)) by (rewrite List.length_app; lia). done.
Qed.

End PriceTier.

Lemma price_tier_appends_each_container_twice_witness :
  driver_find_elements XPATH price_xpath (Shelf.shelf 25)
    = (Ok (Shelf.tag <$> seq 0 25), Shelf.shelf 25) ∧
  let parents := price_parents (list_slice_to 100 (Shelf.tag <$> seq 0 25)) ∅ [] in
  (2 * length parents ≤ 200)%nat ∧
  NoDup (py_id <$> parents) ∧
  price_tier 200 [] ∅ (Shelf.shelf 25)
    = Some ((parents ++ parents, list_to_set (py_id <$> parents)), Shelf.shelf 25) ∧
  ((25 ≤ length parents)%nat →
   ∀ seen (w'' : Shelf.Page),
     link_tier (parents ++ parents) seen w'' = (Ok (parents ++ parents, seen), w'')).
Proof.
  split; [reflexivity|]. cbv zeta. split; [vm_compute; lia|].
  apply (price_tier_appends_each_container_twice 200 (Shelf.shelf 25)
           (Shelf.tag <$> seq 0 25) (Shelf.shelf 25)).
  - reflexivity.
  - vm_compute. lia.
Defined.

Lemma fallback_tiers_give_distinct_candidates_witness :
  tracked ([] : list Shelf.Part) ∅ ∧
  ∃ candidates w',
    fallback_tiers [] ∅ (Shelf.shelf 3) = Some (candidates, w') ∧
    NoDup (py_id <$> candidates).
Proof.
  split; [apply tracked_nil|].
  apply (fallback_tiers_give_distinct_candidates [] ∅ (Shelf.shelf 3)).
  apply tracked_nil.
Defined.

(** On a shelf of three cards the price tier leaves six entries, and the
    tiers together three candidates. *)
Example shelf_run :
  (λ r, r.1.1) <$> price_tier 20 [] ∅ (Shelf.shelf 3)
    = Some [Shelf.card 0; Shelf.card 1; Shelf.card 2;
            Shelf.card 0; Shelf.card 1; Shelf.card 2] ∧
  fst <$> fallback_tiers [] ∅ (Shelf.shelf 3)
    = Some [Shelf.card 0; Shelf.card 1; Shelf.card 2].
Proof. split; vm_compute; reflexivity. Qed.

(** ** What the merge of the second pass keeps *)

(** X16: the merge of lines 250-266 loses no URL and no title of the second
    pass: after it, every non-empty hyperlink and every non-empty title of a
    record of the second pass is the hyperlink, or the title, of a record of
    [self.products]; and the records held before are still there, in front
    and in the same order. *)
Theorem merge_pass2_loses_no_url_or_title (ps products_pass2 : list Product) :
  ps `prefix_of` merge_pass2 ps products_pass2 ∧
  Forall (λ p,
    (∀ u, product_hyperlink p = Some u → str_truthy u = true →
          ∃ q, q ∈ merge_pass2 ps products_pass2 ∧ product_hyperlink q = Some u) ∧
    (∀ t, product_title p = Some t → str_truthy t = true →
          ∃ q, q ∈ merge_pass2 ps products_pass2 ∧ product_title q = Some t))
    products_pass2.
Proof.
  destruct (new_products_of_covered products_pass2 (existing_urls_of ps)
              (existing_titles_of ps) []) as (sub & Hrun & Hcov).
  simpl in Hrun.
  assert (Hmerge : merge_pass2 ps products_pass2 = ps ++ sub).
  { unfold merge_pass2. rewrite Hrun. destruct sub; [by rewrite app_nil_r|done]. }
  rewrite Hmerge. split; [by eexists|].
  rewrite <- existing_urls_of_app, <- existing_titles_of_app in Hcov.
  apply Forall_forall. intros p Hp. destruct (Hcov p Hp) as [Hu Ht]. split.
  - intros u Hpu Htruthy. specialize (Hu u Hpu Htruthy).
    apply elem_of_existing_urls in Hu as (q & Hq & Hqu & _). by exists q.
  - intros t Hpt Htruthy. specialize (Ht t Hpt Htruthy).
    apply elem_of_existing_titles in Ht as (q & Hq & Hqt & _). by exists q.
Qed.

(** ** The link of a candidate that is itself a link *)

Section OwnLink.
Context `{WebElement E}.

Lemma unless_set_hyperlink_kept strategy p v :
  product_hyperlink p = Some v → str_truthy v = true →
  unless_set product_hyperlink set_hyperlink strategy p = (Ok (), p).
Proof.
  intros Hp Hv. unfold unless_set, modify_M. by rewrite Hp; simpl; rewrite Hv.
Qed.

(** X17: when the candidate itself is a link ([tag_name] is [a] in any
    letter case) whose [href] is not blank and, once made absolute, contains
    [heb.com], the hyperlink of the record is that absolute [href], whatever
    links the candidate contains and whatever its click handler says
    (strategy 1, lines 1188-1194, comes first and the later ones only fill an
    empty field).  The previews of lines 1183-1184 must not raise. *)
Theorem own_href_is_the_hyperlink (element : E) index tn h :
  debug_preview element index = Ok () →
  tag_name element = Ok tn → lower tn = "a" →
  get_attribute element "href" = Ok (Some h) →
  nonblank (Some h) = true →
  contains "heb.com" (absolute h) = true →
  product_hyperlink (extract_product_data element index) = Some (absolute h).
Proof.
  intros Hdbg Htag Hlow Hhref Hblank Hsite.
  assert (Htruthy : str_truthy (absolute h) = true).
  { eapply contains_truthy; [|exact Hsite]. done. }
  assert (Hlink : extract_hyperlink element index empty_product
                  = (Ok (), set_hyperlink (Some (absolute h)) empty_product)).
  { unfold extract_hyperlink, mbind, M_bind, lift_exc. rewrite Hdbg.
    unfold link_of_self. rewrite Htag. simpl. rewrite Hlow. simpl. rewrite Hhref. simpl.
    unfold site_href. rewrite Hblank, Hsite. unfold modify_M. simpl.
    rewrite !Htruthy. simpl. rewrite ?Htruthy.
    by apply (unless_set_hyperlink_kept _ _ (absolute h)). }
  set (P := λ p : Product, product_hyperlink p = Some (absolute h)).
  change (P (extract_product_data element index)).
  rewrite extract_product_data_unfold, Hlink.
  assert (H0 : P (set_hyperlink (Some (absolute h)) empty_product)) by done.
  pose proof (extract_title_keeps P element (λ v p Hp, Hp) _ H0) as H1.
  destruct (extract_title element _) as [[[]|e] p1]; [|done]. simpl in H1.
  pose proof (extract_price_keeps P element (λ v p Hp, Hp) _ H1) as H2.
  destruct (extract_price element p1) as [[[]|e] p2]; [|done]. simpl in H2.
  exact (extract_image_keeps P element (λ v p Hp, Hp) _ H2).
Qed.

End OwnLink.

Lemma own_href_is_the_hyperlink_witness :
  debug_preview (Pages.pie 1 "A") 0 = Ok () ∧
  tag_name (Pages.pie 1 "A") = Ok "a" ∧ lower "a" = "a" ∧
  get_attribute (Pages.pie 1 "A") "href" = Ok (Some "https://heb.com/p/A") ∧
  nonblank (Some "https://heb.com/p/A") = true ∧
  contains "heb.com" (absolute "https://heb.com/p/A") = true ∧
  product_hyperlink (extract_product_data (Pages.pie 1 "A") 0)
    = Some (absolute "https://heb.com/p/A").
Proof.
  repeat (split; [vm_compute; reflexivity|]).
  apply (own_href_is_the_hyperlink (Pages.pie 1 "A") 0 "a" "https://heb.com/p/A");
    vm_compute; reflexivity.
Defined.

(** ** Hyperlinks read from anchors *)

Section AnchorLinks.
Context `{WebElement E} `{Session W E} `{Unembedded W E}.

Lemma site_href_http href h :
  site_href href = Some h → startswith h "http" = true ∧ str_truthy h = true.
Proof.
  unfold site_href. destruct href as [h0|]; [|done].
  destruct (nonblank (Some h0)); [|done].
  destruct (contains "heb.com" (absolute h0)) eqn:Hc; [|done].
  intros [= <-]. split; [apply absolute_http|]. by eapply contains_truthy; [|exact Hc].
Qed.

Lemma link_of_self_http element h :
  link_of_self element = Ok (Some h) →
  startswith h "http" = true ∧ str_truthy h = true.
Proof.
  unfold link_of_self. destruct (tag_name element) as [tn|]; simpl; [|done].
  destruct (String.eqb (lower tn) "a"); [|done].
  destruct (get_attribute element "href") as [href|]; simpl; [|done].
  intros [= Hh]. by eapply site_href_http.
Qed.

Lemma link_of_first_child_http element h :
  link_of_first_child element = Some h →
  startswith h "http" = true ∧ str_truthy h = true.
Proof.
  unfold link_of_first_child.
  destruct (find_element element TAG_NAME "a") as [link_elem|]; simpl; [|done].
  destruct (get_attribute link_elem "href") as [href|]; simpl; [|done].
  apply site_href_http.
Qed.

Lemma first_site_link_http links h :
  first_site_link links = Ok (Some h) →
  startswith h "http" = true ∧ str_truthy h = true.
Proof.
  induction links as [|link rest IH]; simpl; [done|].
  destruct (get_attribute link "href") as [[h0|]|]; simpl; [|exact IH|done].
  destruct (nonblank (Some h0) && contains "heb.com" h0) eqn:Hc; [|exact IH].
  intros [= <-]. apply andb_true_iff in Hc as [_ Hc].
  split; [apply absolute_http|].
  eapply (contains_truthy "heb.com"); [done|]. by apply absolute_site.
Qed.

Lemma link_of_any_child_http element h :
  link_of_any_child element = Some h →
  startswith h "http" = true ∧ str_truthy h = true.
Proof.
  unfold link_of_any_child.
  destruct (find_elements element TAG_NAME "a") as [links|]; simpl; [|done].
  destruct (first_site_link links) as [o|] eqn:Hl; simpl; [|done].
  intros ->. by eapply first_site_link_http.
Qed.

(** When one of the first three strategies finds a link, the hyperlink that
    [extract_hyperlink] leaves in a fresh record starts with [http]. *)
Lemma extract_hyperlink_anchor (element : E) index :
  anchor_link element →
  http_link (snd (extract_hyperlink element index empty_product)).
Proof.
  intros Hanchor. unfold extract_hyperlink, mbind, M_bind, lift_exc.
  destruct (debug_preview element index) as [[]|e]; simpl; [|done].
  destruct (link_of_self element) as [[h1|]|e] eqn:Hs1; simpl; [| |done].
  - destruct (link_of_self_http _ _ Hs1) as [Hhttp Htruthy].
    unfold unless_set, modify_M, set_hyperlink. simpl.
    repeat (rewrite Htruthy; simpl). unfold http_link. simpl. by intros h [= <-].
  - destruct Hanchor as [(h & Hh)|Hanchor]; [congruence|].
    unfold unless_set, modify_M, set_hyperlink. simpl.
    destruct (link_of_first_child element) as [h2|] eqn:Hs2; simpl.
    { destruct (link_of_first_child_http _ _ Hs2) as [Hhttp Htruthy].
      repeat (rewrite Htruthy; simpl). unfold http_link. simpl. by intros h [= <-]. }
    destruct Hanchor as [(h & Hh)|(h3 & Hs3)]; [congruence|]. rewrite Hs3. simpl.
    destruct (link_of_any_child_http _ _ Hs3) as [Hhttp Htruthy].
    repeat (rewrite Htruthy; simpl). unfold http_link. simpl. by intros h [= <-].
Qed.

Lemma extract_product_data_anchor (element : E) index :
  anchor_link element → http_link (extract_product_data element index).
Proof.
  intros Hanchor. rewrite extract_product_data_unfold.
  pose proof (extract_hyperlink_anchor element index Hanchor) as Hl.
  destruct (extract_hyperlink element index empty_product) as [[[]|e] p0]; [|done].
  simpl in Hl.
  pose proof (extract_title_keeps http_link element (λ v p Hp, Hp) _ Hl) as Ht.
  destruct (extract_title element p0) as [[[]|e] p1]; [|done]. simpl in Ht.
  pose proof (extract_price_keeps http_link element (λ v p Hp, Hp) _ Ht) as Hp.
  destruct (extract_price element p1) as [[[]|e] p2]; [|done]. simpl in Hp.
  exact (extract_image_keeps http_link element (λ v p Hp, Hp) _ Hp).
Qed.

(** *** Where the records of the collections come from *)

Lemma accept_products_all (Q : Product → Prop) (els : list E) idx seen acc :
  (∀ element index, element ∈ els → Q (extract_product_data element index)) →
  Forall Q acc → Forall Q (accept_products els idx seen acc).1.
Proof.
  revert idx seen acc.
  induction els as [|element rest IH]; intros idx seen acc HQ Hacc; simpl; [done|].
  assert (Hrest : ∀ element index, element ∈ rest →
                    Q (extract_product_data element index)).
  { intros e i He. apply HQ. by right. }
  destruct (_ && _); [|by apply IH].
  destruct (_ && _); [|by apply IH].
  apply IH; [done|]. apply Forall_app. split; [done|].
  constructor; [|done]. apply HQ. left.
Qed.

Lemma extract_products_all (Q : Product → Prop) max_products self (w : W) r self' w' :
  (∀ (element : E) index, Q (extract_product_data element index)) →
  extract_products max_products (self, w) = (r, (self', w')) →
  match r with Ok found => Forall Q found | Raise _ => True end.
Proof.
  intros HQ. unfold extract_products, mbind at 1, M_bind at 1.
  destruct (debug_dump (self, w)) as [r0 [self0 w0]] eqn:Hd.
  apply debug_dump_data in Hd as (-> & Hp0 & Hs0).
  unfold mbind, M_bind, mret, M_ret, liftW.
  destruct (locate_by_selectors w0) as [[product_elements seen_element_ids] w1].
  destruct (locate_fallbacks product_elements seen_element_ids w1)
    as [[|element rest] w2].
  - destruct (report_nothing_found w2) as [[[]|e] w3]; intros [= <- <- <-]; done.
  - destruct (accept_products _ 0 (seen_urls self0) []) as [found seen] eqn:Hacc.
    intros [= <- <- <-].
    change found with (found, seen).1. rewrite <- Hacc.
    apply accept_products_all; [auto|constructor].
Qed.

Lemma two_passes_all (Q : Product → Prop) self (w : W) r self' w' :
  (∀ (element : E) index, Q (extract_product_data element index)) →
  Forall Q (products self) →
  two_passes (self, w) = (r, (self', w')) →
  Forall Q (products self') ∧
  match r with Ok found => Forall Q found | Raise _ => True end.
Proof.
  intros HQ Hself. unfold two_passes, mbind at 1, M_bind at 1.
  destruct (extract_products None (self, w)) as [r1 [self1 w1]] eqn:Hp1.
  pose proof (extract_products_all Q _ _ _ _ _ _ HQ Hp1) as Hq1.
  apply extract_products_spec in Hp1 as (Hps1 & _).
  destruct r1 as [found|e].
  2:{ intros [= <- <- <-]. by rewrite Hps1. }
  unfold update_products, modify_M, mbind, M_bind, mret, M_ret, liftW, sleep.
  simpl.
  set (self1' := mkScraper (products self1 ++ found) (seen_urls self1)
                   (debug_saved self1)).
  assert (Hq1' : Forall Q (products self1')).
  { simpl. rewrite Hps1. by apply Forall_app. }
  destruct (execute_script ScrollToBottom _) as [[z|e] w2];
    [|by intros [= <- <- <-]].
  destruct (execute_script (ScrollTo 0) _) as [[z'|e] w3];
    [|by intros [= <- <- <-]].
  destruct (extract_products None (self1', _)) as [r2 [self2 w4]] eqn:Hp2.
  pose proof (extract_products_all Q _ _ _ _ _ _ HQ Hp2) as Hq2.
  apply extract_products_spec in Hp2 as (Hps2 & _).
  destruct r2 as [found2|e].
  2:{ intros [= <- <- <-]. by rewrite Hps2. }
  intros [= <- <- <-]. simpl. split; [|done].
  destruct (merge_pass2_sublist (products self2) found2) as (sub2 & -> & Hsub).
  apply Forall_app. split; [by rewrite Hps2|].
  apply Forall_forall. intros r Hr.
  eapply (proj1 (Forall_forall _ _) Hq2), elem_of_sublist; done.
Qed.

Lemma scrape_category_page_all (Q : Product → Prop) page_url self (w : W)
    ret self' w' :
  (∀ (element : E) index, Q (extract_product_data element index)) →
  Forall Q (products self) →
  scrape_category_page page_url self w = Some (ret, self', w') →
  Forall Q ret ∧ Forall Q (products self').
Proof.
  intros HQ Hself. unfold scrape_category_page.
  destruct (before_scrolling page_url w) as [[[]|e] w0];
    [|intros [= <- <- <-]; by split].
  destruct (scroll_page (5 # 2) 150 w0) as [[[r turns] w1]|]; [|done].
  destruct r as [[]|e]; [|intros [= <- <- <-]; by split].
  unfold mbind at 1, M_bind at 1.
  destruct (liftW after_scrolling (self, w1)) as [r [self1 w2]] eqn:Hafter.
  apply liftW_self in Hafter as ->.
  destruct r as [[]|e]; [|intros [= <- <- <-]; by split].
  destruct (two_passes (self, w2)) as [r [self2 w3]] eqn:Hpasses.
  apply (two_passes_all Q) in Hpasses as [Hps Hr]; [|done|done].
  destruct r as [found|e]; intros [= <- <- <-]; by split.
Qed.

(** C3, as amended: every record that the acceptance loop of
    [extract_products] appends, and every record that [scrape_category_page]
    returns or leaves in [self.products], is the record of a candidate and
    has, when its hyperlink is present, a hyperlink that contains the text
    [heb.com] and none of [/category/], [/department/], [/shop/]; and
    whichever candidate the record was read from, if one of the first three
    strategies finds a link in it (the [href] of the candidate itself or of
    an anchor inside it), the hyperlink starts with [http]. *)
Theorem accepted_hyperlink_names_site (els : list E) idx seen page_url self (w : W) :
  consistent self →
  Forall (from_candidate E) (products self) →
  (∀ r h, r ∈ (accept_products els idx seen []).1 → product_hyperlink r = Some h →
     contains "heb.com" h = true ∧ is_category_href h = false ∧
     (∃ element index, element ∈ els ∧ r = extract_product_data element index) ∧
     (∀ (element : E) index, r = extract_product_data element index →
        anchor_link element → startswith h "http" = true)) ∧
  ∃ ret self' w',
    scrape_category_page page_url self w = Some (ret, self', w') ∧
    ∀ r h, r ∈ ret ∨ r ∈ products self' → product_hyperlink r = Some h →
      contains "heb.com" h = true ∧ is_category_href h = false ∧
      from_candidate E r ∧
      (∀ (element : E) index, r = extract_product_data element index →
         anchor_link element → startswith h "http" = true).
Proof.
  intros Hself Hfrom.
  assert (Hhttp : ∀ r h, product_hyperlink r = Some h →
            ∀ (element : E) index, r = extract_product_data element index →
              anchor_link element → startswith h "http" = true).
  { intros r h Hh element index -> Hanchor.
    by apply (extract_product_data_anchor element index Hanchor). }
  split.
  { pose proof (accept_products_all
      (λ r, ∃ element index, element ∈ els ∧ r = extract_product_data element index)
      els idx seen []) as Hall.
    destruct (accept_products els idx seen []) as [found seen'] eqn:Hloop.
    apply accept_products_spec in Hloop as (new & -> & (Hnew & _) & _).
    simpl in *. rewrite Forall_forall in Hnew. intros r h Hr Hh.
    destruct (accepted_hyperlink r h) as ([Hc _] & Hcat); auto.
    split; [done|]. split; [done|]. split; [|exact (Hhttp r h Hh)].
    assert (Hsrc : Forall (λ r, ∃ element index,
                      element ∈ els ∧ r = extract_product_data element index) new).
    { apply Hall; [|constructor]. intros element index He. by exists element, index. }
    rewrite Forall_forall in Hsrc. by apply Hsrc. }
  destruct (scrape_category_page_consistent page_url self w Hself)
    as (ret & self' & w' & Hrun & (Hacc & _) & Hret).
  exists ret, self', w'. split; [done|].
  destruct (scrape_category_page_all (from_candidate E) _ _ _ _ _ _
              (λ element index, ex_intro _ element (ex_intro _ index eq_refl))
              Hfrom Hrun) as [Hsrc Hsrc'].
  rewrite Forall_forall in Hacc, Hret, Hsrc, Hsrc'.
  assert (Hboth : ∀ r, r ∈ ret ∨ r ∈ products self' →
                    accepted r ∧ from_candidate E r).
  { intros r [Hr|Hr]; split; auto. }
  intros r h Hr Hh. destruct (Hboth r Hr) as [Hr1 Hr2].
  destruct (accepted_hyperlink _ h Hr1 Hh) as ([Hc _] & Hcat).
  split; [done|]. split; [done|]. split; [done|]. exact (Hhttp r h Hh).
Qed.

End AnchorLinks.

Lemma accepted_hyperlink_names_site_witness :
  consistent new_scraper ∧
  Forall (from_candidate Fake.Node) (products new_scraper) ∧
  (∀ r h, r ∈ (accept_products [Pages.offsite_card; Pages.click_card] 0 ∅ []).1 →
     product_hyperlink r = Some h →
     contains "heb.com" h = true ∧ is_category_href h = false ∧
     (∃ element index,
        element ∈ [Pages.offsite_card; Pages.click_card] ∧
        r = extract_product_data element index) ∧
     (∀ (element : Fake.Node) index, r = extract_product_data element index →
        anchor_link element → startswith h "http" = true)) ∧
  ∃ ret self' w',
    scrape_category_page "https://heb.com" new_scraper Pages.offsite_page
      = Some (ret, self', w') ∧
    ∀ r h, r ∈ ret ∨ r ∈ products self' → product_hyperlink r = Some h →
      contains "heb.com" h = true ∧ is_category_href h = false ∧
      from_candidate Fake.Node r ∧
      (∀ (element : Fake.Node) index, r = extract_product_data element index →
         anchor_link element → startswith h "http" = true).
Proof.
  split; [|split].
  - repeat split; try constructor. intros r k Hr. inversion Hr.
  - constructor.
  - apply (accepted_hyperlink_names_site [Pages.offsite_card; Pages.click_card] 0 ∅
             "https://heb.com" new_scraper Pages.offsite_page).
    + repeat split; try constructor. intros r k Hr. inversion Hr.
    + constructor.
Defined.

(** The two cards of the page above: the hyperlink of the first comes from
    an anchor and starts with [http]; the second has no anchor, only a click
    handler. *)
Example anchor_and_click_handler :
  anchor_link Pages.offsite_card ∧
  product_hyperlink (extract_product_data Pages.offsite_card 0)
    = Some "https://example.org/heb.com/deal" ∧
  ¬ anchor_link Pages.click_card ∧
  link_of_onclick Pages.click_card = Some "heb.com/p/oats".
Proof.
  split; [|split; [|split]].
  - left. eexists. vm_compute. reflexivity.
  - vm_compute. reflexivity.
  - intros [(h & Hh)|[(h & Hh)|(h & Hh)]]; vm_compute in Hh; discriminate.
  - vm_compute. reflexivity.
Qed.

(** ** The first source of a [srcset] *)

Lemma split_head sep s :
  ∃ w ws, split sep s = w :: ws ∧
          all_chars (λ c, negb (Ascii.eqb c sep)) w = true ∧
          ∀ P, all_chars P s = true → all_chars P w = true.
Proof.
  induction s as [|c s IH]; simpl.
  - by exists EmptyString, [].
  - destruct (Ascii.eqb c sep) eqn:Hc.
    + by exists EmptyString, (split sep s).
    + destruct IH as (w & ws & -> & Hw & HP).
      exists (String c w), ws. split; [done|]. split.
      * simpl. by rewrite Hc, Hw.
      * intros P [Hpc Hps]%andb_true_iff. simpl. by rewrite Hpc, HP.
Qed.

Lemma lstrip_all_chars P s : all_chars P s = true → all_chars P (lstrip s) = true.
Proof.
  induction s as [|c s IH]; simpl; [done|].
  intros [Hc Hs]%andb_true_iff. destruct (is_space c); [by apply IH|].
  simpl. by rewrite Hc, Hs.
Qed.

Lemma rstrip_all_chars P s : all_chars P s = true → all_chars P (rstrip s) = true.
Proof.
  induction s as [|c s IH]; simpl; [done|].
  intros [Hc Hs]%andb_true_iff. specialize (IH Hs).
  destruct (rstrip s) as [|d r].
  - destruct (is_space c); [done|]. simpl. by rewrite Hc.
  - change (all_chars P (String c (String d r)) = true).
    simpl. simpl in IH. by rewrite Hc, IH.
Qed.

Lemma strip_all_chars P s : all_chars P s = true → all_chars P (strip s) = true.
Proof. intros Hs. unfold strip. by apply rstrip_all_chars, lstrip_all_chars. Qed.

Lemma all_chars_and (P Q : ascii → bool) s :
  all_chars P s = true → all_chars Q s = true →
  all_chars (λ c, P c && Q c) s = true.
Proof.
  induction s as [|c s IH]; simpl; [done|].
  intros [Hp Hps]%andb_true_iff [Hq Hqs]%andb_true_iff.
  by rewrite Hp, Hq, IH.
Qed.

(** X18: for an image source that contains a comma, which lines 1424-1425
    and 1450-1451 take for a [srcset], the source kept is the first entry
    without its descriptor: it contains no comma and no space.  (So a single
    URL that has a comma in it is cut at that comma.) *)
Theorem first_of_srcset_is_one_source img_src :
  contains "," img_src = true →
  all_chars (λ c, negb (Ascii.eqb c ",") && negb (Ascii.eqb c " "))
    (first_of_srcset img_src) = true.
Proof.
  intros Hcomma. unfold first_of_srcset. rewrite Hcomma.
  destruct (split_head "," img_src) as (w & ws & -> & Hw & _). simpl.
  apply strip_all_chars in Hw.
  destruct (split_head " " (strip w)) as (w2 & ws2 & -> & Hw2 & HP). simpl.
  apply all_chars_and; [by apply HP|done].
Qed.

Lemma first_of_srcset_is_one_source_witness :
  contains "," "/img/a.jpg 1x, /img/b.jpg 2x" = true ∧
  first_of_srcset "/img/a.jpg 1x, /img/b.jpg 2x" = "/img/a.jpg" ∧
  all_chars (λ c, negb (Ascii.eqb c ",") && negb (Ascii.eqb c " "))
    (first_of_srcset "/img/a.jpg 1x, /img/b.jpg 2x") = true.
Proof.
  split; [vm_compute; reflexivity|]. split; [vm_compute; reflexivity|].
  apply (first_of_srcset_is_one_source "/img/a.jpg 1x, /img/b.jpg 2x").
  vm_compute. reflexivity.
Defined.

(** A URL with a comma in its path is cut. *)
Example comma_in_a_url :
  first_of_srcset "https://images.heb.com/is/image/w_200,h_200/milk.jpg"
  = "https://images.heb.com/is/image/w_200".
Proof. vm_compute. reflexivity. Qed.

(** ** The fields of one card

    The card of the first scenario: an image, a name and a price. *)

Lemma extracted_price_is_a_price_witness :
  product_price (extract_product_data Pages.cereal_card 0) = Some "$3.99" ∧
  price_word "$3.99" ∧ contains "$" "$3.99" = true ∧ strip "$3.99" = "$3.99".
Proof.
  split; [vm_compute; reflexivity|].
  apply (extracted_price_is_a_price Pages.cereal_card 0 "$3.99").
  vm_compute. reflexivity.
Defined.

Lemma extracted_image_is_absolute_witness :
  product_image (extract_product_data Pages.cereal_card 0)
    = Some "https://heb.com/img/cereal.jpg" ∧
  startswith "https://heb.com/img/cereal.jpg" "http" = true.
Proof.
  split; [vm_compute; reflexivity|].
  apply (extracted_image_is_absolute Pages.cereal_card 0 "https://heb.com/img/cereal.jpg").
  vm_compute. reflexivity.
Defined.

Lemma extracted_title_has_5_to_150_characters_witness :
  product_title (extract_product_data Pages.cereal_card 0)
    = Some "Brand X Cereal 12oz $3.99" ∧
  5 <= len "Brand X Cereal 12oz $3.99" <= 150.
Proof.
  split; [vm_compute; reflexivity|].
  apply (extracted_title_has_5_to_150_characters Pages.cereal_card 0
           "Brand X Cereal 12oz $3.99").
  vm_compute. reflexivity.
Defined.
